(** * go-fsak: file catalog, duplicate resolver and merge engine

    A shallow embedding of the Go sources of go-fsak (packages [data],
    [util] and [core]) and the properties established about them.

    Conventions of the embedding:
    - Go [string] is [string]; [int64], [int] and [time.Time] (as Unix
      nanoseconds) are [Z]; a file's bytes are [list byte].
    - A Go [error] result is a value of [error]; a function returning
      [(T, error)] returns [result T]; a method with side effects on the
      database or on the file system threads the state explicitly.
    - Go maps are [gmap]; their iteration order, which Go leaves
      unspecified, is an explicit argument wherever a loop ranges over a map.
    - The third-party libraries (GORM/SQLite, BLAKE3, MD5, [regexp],
      [filepath.Walk], the interactive selector) are interfaces: records of
      operations whose contracts are stated where they are needed. *)

From Stdlib Require Import ZArith Lia Bool Ascii String.
From Stdlib.Strings Require Import Byte.
From stdpp Require Import base tactics option list strings gmap sorting pretty.

Open Scope string_scope.
Open Scope list_scope.
Open Scope Z_scope.

(* ================================================================== *)
(** * Part I: the model                                                *)
(* ================================================================== *)

(** ** Errors and results *)

(** The error values the code distinguishes.  [ErrRecordNotFound] is
    [gorm.ErrRecordNotFound]; [ErrNotExist] is an [*os.PathError] for which
    [os.IsNotExist] holds; [ErrWrap ctx e] is [fmt.Errorf(ctx ++ ": %v", e)]. *)
Inductive error : Type :=
| ErrRecordNotFound
| ErrNotExist (path : string)
| ErrOS (op path : string)
| ErrStore (what : string)
| ErrRegexp (pattern : string)
| ErrMsg (msg : string)
| ErrWrap (ctx : string) (inner : error).

Inductive result (A : Type) : Type :=
| Ok (a : A)
| Err (e : error).
Arguments Ok {A} a.
Arguments Err {A} e.

(** [err == gorm.ErrRecordNotFound] *)
Definition is_record_not_found (e : error) : bool :=
  match e with ErrRecordNotFound => true | _ => false end.

(** [os.IsNotExist(err)] *)
Definition os_IsNotExist (e : error) : bool :=
  match e with ErrNotExist _ => true | _ => false end.

(** What the commands print: [util.PrintProcess], [PrintSuccess],
    [PrintWarning] and [PrintError], each with the path or the count it
    reports. *)
Inductive event : Type :=
| EvProcess (what : string)
| EvProgress (current total : Z) (path : string)
| EvSuccess (what : string)
| EvWarning (what : string) (path : string)
| EvError (what : string) (path : string)
| EvMoved (from to : string)
| EvCopying (from to : string).

(** ** data/sqlite.go: the catalog *)

(** [data.FileInfo], one row of [tb_file_infos]. *)
Record FileInfo : Type := mkFileInfo {
  ID : Z;
  Key : string;
  Name : string;
  Path : string;
  Status : Z;
  MD5 : string;
  Blake3 : string;
  Size : Z;
  Tag : string;
  MTime : Z;
  CTime : Z
}.

Definition set_ID (id : Z) (r : FileInfo) : FileInfo :=
  mkFileInfo id (Key r) (Name r) (Path r) (Status r) (MD5 r) (Blake3 r)
             (Size r) (Tag r) (MTime r) (CTime r).

(** The statements GORM sends for the methods of [data.DB]. *)
Inductive StoreCall : Type :=
| SelectByPath (path : string)
| SelectByKey (key : string)
| InsertRow (key : string)
| UpdateRow (id : Z)
| SelectAll
| DeleteByKey (key : string)
| OpenDatabase.

(** [data.DB]: the table in primary-key order, SQLite's AUTOINCREMENT
    counter, and the backend's failures (a locked or closed database, an
    I/O error), which are outside the program's control: [backend_fault c]
    is the error the backend answers to statement [c], if any. *)
Record DB : Type := mkDB {
  rows : list FileInfo;
  next_id : Z;
  backend_fault : StoreCall -> option string
}.

Definition with_rows (db : DB) (rs : list FileInfo) : DB :=
  mkDB rs (next_id db) (backend_fault db).

Definition faulty (db : DB) (c : StoreCall) : option error :=
  ErrStore <$> backend_fault db c.

(** [db.Where("path = ?", path).First(&fileInfo)]: the first row, in
    primary-key order, with this path; [ErrRecordNotFound] without one. *)
Definition GetFileInfoByPath (db : DB) (path : string) : result FileInfo :=
  match faulty db (SelectByPath path) with
  | Some e => Err e
  | None =>
      match List.find (fun r => String.eqb (Path r) path) (rows db) with
      | Some r => Ok r
      | None => Err ErrRecordNotFound
      end
  end.

(** [db.Where("key = ?", key).First(&existing)] *)
Definition first_by_key (db : DB) (key : string) : result FileInfo :=
  match faulty db (SelectByKey key) with
  | Some e => Err e
  | None =>
      match List.find (fun r => String.eqb (Key r) key) (rows db) with
      | Some r => Ok r
      | None => Err ErrRecordNotFound
      end
  end.

(** [db.Create(fileInfo)]: a zero [ID] takes the next AUTOINCREMENT value;
    the insert is refused when the primary key or the unique [key] column
    is already taken. *)
Definition Create (db : DB) (fi : FileInfo) : option error * DB :=
  match faulty db (InsertRow (Key fi)) with
  | Some e => (Some e, db)
  | None =>
      let id := if ID fi =? 0 then next_id db else ID fi in
      if existsb (fun r => (ID r =? id) || String.eqb (Key r) (Key fi)) (rows db)
      then (Some (ErrStore "UNIQUE constraint failed"), db)
      else (None, mkDB (rows db ++ [set_ID id fi])
                       (Z.max (next_id db) id + 1) (backend_fault db))
  end.

(** [db.Save(fileInfo)] with a non-zero primary key: all columns of the row
    with this [ID] are overwritten; when no row has it, GORM falls back to
    an insert.  The unique [key] column refuses a key another row holds. *)
Definition Save (db : DB) (fi : FileInfo) : option error * DB :=
  match faulty db (UpdateRow (ID fi)) with
  | Some e => (Some e, db)
  | None =>
      if existsb (fun r => negb (ID r =? ID fi) && String.eqb (Key r) (Key fi)) (rows db)
      then (Some (ErrStore "UNIQUE constraint failed"), db)
      else if existsb (fun r => ID r =? ID fi) (rows db)
      then (None, with_rows db
                    (List.map (fun r => if ID r =? ID fi then fi else r) (rows db)))
      else Create db fi
  end.

(** [UpsertFileInfo] *)
Definition UpsertFileInfo (db : DB) (fileInfo : FileInfo) : option error * DB :=
  match first_by_key db (Key fileInfo) with
  | Err e =>
      if is_record_not_found e
      then Create db fileInfo
      else (Some e, db)
  | Ok existing =>
      Save db (set_ID (ID existing) fileInfo)
  end.

(** [GetAllFileInfos] *)
Definition GetAllFileInfos (db : DB) : result (list FileInfo) :=
  match faulty db SelectAll with
  | Some e => Err e
  | None => Ok (rows db)
  end.

(** [DeleteFileInfo]: [DELETE FROM tb_file_infos WHERE key = ?].  GORM
    reports an error only when the statement itself fails; the number of
    rows affected is not examined. *)
Definition DeleteFileInfo (db : DB) (key : string) : option error * DB :=
  match faulty db (DeleteByKey key) with
  | Some e => (Some e, db)
  | None =>
      (None, with_rows db (List.filter (fun r => negb (String.eqb (Key r) key)) (rows db)))
  end.

(** The schema's invariant: primary keys and [key] values are unique, and
    every primary key is below the AUTOINCREMENT counter. *)
Record catalog_wf (db : DB) : Prop := {
  wf_ids : NoDup (ID <$> rows db);
  wf_keys : NoDup (Key <$> rows db);
  wf_next : Forall (fun r => ID r < next_id db) (rows db)
}.

(** [data.Connect]: opening the database file may fail; the table is
    migrated in place and keeps its rows.  The catalog is a value of its
    own here: the directory it is stored in and the files [fsak.db],
    [fsak.db-wal] and [fsak.db-shm] that [GetDBPath], [gorm.Open] and
    SQLite make there are not in the file table of the machine, and a
    failure to locate or to make that directory is among the failures of
    [OpenDatabase].  What is said below of the file table is said of the
    paths outside that directory. *)
Definition Connect (store : DB) : result DB :=
  match faulty store OpenDatabase with
  | Some e => Err e
  | None => Ok store
  end.

(** ** Paths: [strings] and [path/filepath] on a Unix build *)

Definition strings_HasPrefix (s prefix : string) : bool := String.prefix prefix s.

Definition strings_HasSuffix (s suffix : string) : bool :=
  (String.length suffix <=? String.length s)%nat
  && String.eqb (substring (String.length s - String.length suffix)
                           (String.length suffix) s) suffix.

(** The elements of a path between its separators. *)
Fixpoint split_path (cur : string) (s : string) : list string :=
  match s with
  | EmptyString => [cur]
  | String c rest =>
      if Ascii.eqb c "/" then cur :: split_path "" rest
      else split_path (cur +:+ String c EmptyString) rest
  end.

Definition join_path (elems : list string) : string :=
  match elems with
  | [] => ""
  | e :: rest => fold_left (fun acc x => acc +:+ "/" +:+ x) rest e
  end.

Definition filepath_IsAbs (path : string) : bool := strings_HasPrefix path "/".

(** The lexical processing of [Clean]: empty elements and [.] go, [..]
    removes the element before it (at a root it goes; at the start of a
    relative path it stays).  [out] is kept in reverse. *)
Fixpoint clean_elems (rooted : bool) (elems : list string) (out : list string)
  : list string :=
  match elems with
  | [] => rev out
  | e :: rest =>
      if String.eqb e "" || String.eqb e "." then clean_elems rooted rest out
      else if String.eqb e ".." then
        match out with
        | last :: out' =>
            if String.eqb last ".." then clean_elems rooted rest (e :: out)
            else clean_elems rooted rest out'
        | [] =>
            if rooted then clean_elems rooted rest out
            else clean_elems rooted rest [e]
        end
      else clean_elems rooted rest (e :: out)
  end.

(** The elements of the cleaned path. *)
Definition path_elems (path : string) : list string :=
  clean_elems (filepath_IsAbs path) (split_path "" path) [].

Definition render_path (rooted : bool) (elems : list string) : string :=
  if rooted then "/" +:+ join_path elems
  else match elems with [] => "." | _ => join_path elems end.

(** [filepath.Clean] *)
Definition filepath_Clean (path : string) : string :=
  render_path (filepath_IsAbs path) (path_elems path).

(** [filepath.Join]: the non-empty elements, joined and cleaned. *)
Definition filepath_Join (elem : list string) : string :=
  match List.filter (fun e => negb (String.eqb e "")) elem with
  | [] => ""
  | nonempty => filepath_Clean (join_path nonempty)
  end.

(** [filepath.Base] *)
Definition filepath_Base (path : string) : string :=
  if String.eqb path "" then "."
  else match rev (List.filter (fun e => negb (String.eqb e "")) (split_path "" path)) with
       | last :: _ => last
       | [] => "/"
       end.

(** [filepath.Dir] *)
Definition filepath_Dir (path : string) : string :=
  match rev (split_path "" path) with
  | _ :: front =>
      match rev front with
      | [] => "."
      | elems => filepath_Clean (join_path elems +:+ "/")
      end
  | [] => "."
  end.

Fixpoint drop_common (base targ : list string) : list string * list string :=
  match base, targ with
  | b :: base', t :: targ' =>
      if String.eqb b t then drop_common base' targ' else (base, targ)
  | _, _ => (base, targ)
  end.

(** [filepath.Rel] *)
Definition filepath_Rel (basepath targpath : string) : result string :=
  let base := filepath_Clean basepath in
  let targ := filepath_Clean targpath in
  if String.eqb targ base then Ok "."
  else if negb (Bool.eqb (filepath_IsAbs base) (filepath_IsAbs targ))
  then Err (ErrMsg ("Rel: can't make " +:+ targpath +:+ " relative to " +:+ basepath))
  else
    let '(b, t) := drop_common (path_elems base) (path_elems targ) in
    match b with
    | first :: _ =>
        if String.eqb first ".."
        then Err (ErrMsg ("Rel: can't make " +:+ targpath +:+ " relative to " +:+ basepath))
        else Ok (join_path (((fun _ => "..") <$> b) ++ t))
    | [] => Ok (join_path t)
    end.

(** ** The operating system *)

(** A file's contents as successive [Read] calls on its handle deliver
    them: [(n, nil)] and more to come, [(n, io.EOF)], or [(n, err)]. *)
Inductive ReadStream : Type :=
| ReadMore (chunk : list byte) (rest : ReadStream)
| ReadEOF (chunk : list byte)
| ReadFail (chunk : list byte) (why : string).

Fixpoint stream_bytes (s : ReadStream) : list byte :=
  match s with
  | ReadMore chunk rest => chunk ++ stream_bytes rest
  | ReadEOF chunk => chunk
  | ReadFail chunk _ => chunk
  end.

Fixpoint stream_intact (s : ReadStream) : bool :=
  match s with
  | ReadMore _ rest => stream_intact rest
  | ReadEOF _ => true
  | ReadFail _ _ => false
  end.

(** The error that ends the reads of a handle, if one does. *)
Fixpoint stream_error (s : ReadStream) : option error :=
  match s with
  | ReadMore _ rest => stream_error rest
  | ReadEOF _ => None
  | ReadFail _ why => Some (ErrOS "read" why)
  end.

(** A regular file: its contents, its modification time and, where the
    platform has a [*syscall.Stat_t], its change time. *)
Record File : Type := mkFile {
  f_reads : ReadStream;
  f_mtime : Z;
  f_ctime : option Z
}.

(** [os.FileInfo] *)
Record FileStat : Type := mkFileStat {
  st_IsDir : bool;
  st_Size : Z;
  st_ModTime : Z;
  st_Sys : option Z
}.

Definition stat_of_file (f : File) : FileStat :=
  mkFileStat false (Z.of_nat (length (stream_bytes (f_reads f)))) (f_mtime f) (f_ctime f).

Definition stat_of_dir : FileStat := mkFileStat true 4096 0 None.

Inductive Syscall : Type :=
| SysStat (path : string)
| SysOpen (path : string)
| SysCreate (path : string)
| SysSync (path : string)
| SysRename (oldpath newpath : string)
| SysMkdirAll (path : string)
| SysGetwd.

(** The machine the command runs on: regular files and directories by
    path, the working directory, the environment, the home directory
    ([os.UserHomeDir]), the clock ([time.Now], and its rendering in the
    layout "060102"), what [filepath.Walk] visits under a root (each entry
    with its [os.FileInfo] or the error of [Lstat]/[ReadDir]), and the
    failures of system calls that the file table does not explain
    (permissions, a rename across devices, a full disk). *)
Record OS : Type := mkOS {
  files : gmap string File;
  dirs : gset string;
  cwd : string;
  getenv : string -> string;
  home : result string;
  now : Z;
  today : string;
  walk : string -> list (string * result FileStat);
  sys_fault : Syscall -> option string
}.

Definition with_files (os : OS) (fs : gmap string File) : OS :=
  mkOS fs (dirs os) (cwd os) (getenv os) (home os) (now os) (today os)
       (walk os) (sys_fault os).

Definition with_dirs (os : OS) (ds : gset string) : OS :=
  mkOS (files os) ds (cwd os) (getenv os) (home os) (now os) (today os)
       (walk os) (sys_fault os).

(** [os.Getwd] and [filepath.Abs] *)
Definition os_Getwd (os : OS) : result string :=
  match sys_fault os SysGetwd with
  | Some _ => Err (ErrOS "getwd" "")
  | None => Ok (cwd os)
  end.

Definition filepath_Abs (os : OS) (path : string) : result string :=
  if filepath_IsAbs path then Ok (filepath_Clean path)
  else
    match os_Getwd os with
    | Err e => Err e
    | Ok wd => Ok (filepath_Join [wd; path])
    end.

(** The file table is keyed by cleaned absolute paths; a system call
    resolves a relative path against the working directory. *)
Definition resolve (os : OS) (path : string) : string :=
  if filepath_IsAbs path then filepath_Clean path
  else filepath_Join [cwd os; path].

(** [os.Stat] *)
Definition os_Stat (os : OS) (path : string) : result FileStat :=
  match sys_fault os (SysStat path) with
  | Some _ => Err (ErrOS "stat" path)
  | None =>
      match files os !! resolve os path with
      | Some f => Ok (stat_of_file f)
      | None =>
          if bool_decide (resolve os path ∈ dirs os) then Ok stat_of_dir
          else Err (ErrNotExist path)
      end
  end.

(** [filepath.Walk(root, fn)]: [fn] is called on every entry in turn and
    the walk stops at the first error [fn] returns, which [Walk] returns;
    what [fn] did to the variables it captured stays done. *)
Fixpoint walk_entries {S : Type}
    (fn : string -> result FileStat -> S -> S * option error)
    (entries : list (string * result FileStat)) (s : S) : S * option error :=
  match entries with
  | [] => (s, None)
  | (path, info) :: rest =>
      match fn path info s with
      | (s', Some e) => (s', Some e)
      | (s', None) => walk_entries fn rest s'
      end
  end.

Definition filepath_Walk {S : Type} (os : OS) (root : string)
    (fn : string -> result FileStat -> S -> S * option error) (s : S)
  : S * option error :=
  walk_entries fn (walk os root) s.

(** The directories above a path and the path itself, outermost first. *)
Definition path_and_ancestors (path : string) : list string :=
  let rooted := filepath_IsAbs path in
  let elems := path_elems path in
  (fun n => render_path rooted (take n elems)) <$> seq 1 (length elems).

Definition is_dir (os : OS) (path : string) : bool :=
  String.eqb path "/" || String.eqb path "." || bool_decide (path ∈ dirs os).

(** The descent of [os.MkdirAll] through a path and the directories above
    it, outermost first: a directory that is there is passed, a missing one
    is made, and the descent stops with an error at a regular file in the
    way or at a directory the system refuses to make ([SysMkdirAll d] is
    the call that has to make [d]).  The directories made before the error
    stay. *)
Fixpoint mkdir_chain (os : OS) (chain : list string) : option error * list string :=
  match chain with
  | [] => (None, [])
  | d :: rest =>
      if bool_decide (is_Some (files os !! d)) then (Some (ErrOS "mkdir" d), [])
      else
        match (if is_dir os d then None else sys_fault os (SysMkdirAll d)) with
        | Some _ => (Some (ErrOS "mkdir" d), [])
        | None =>
            let '(err, made) := mkdir_chain os rest in
            (err, d :: made)
        end
  end.

(** [os.MkdirAll]: creates the directory and the missing ones above it;
    when it fails, the directories it made on the way are left in place. *)
Definition os_MkdirAll (os : OS) (path : string) : option error * OS :=
  let '(err, made) := mkdir_chain os (path_and_ancestors (resolve os path)) in
  (err, with_dirs os (dirs os ∪ list_to_set made)).

(** A path below [oldpath] moves below [newpath]. *)
Definition move_below (oldpath newpath path : string) : string :=
  if String.eqb path oldpath then newpath
  else if strings_HasPrefix path (oldpath +:+ "/")
  then newpath +:+ substring (String.length oldpath)
                             (String.length path - String.length oldpath) path
  else path.

(** [os.Rename]: a regular file takes the new name, replacing a regular
    file there; a directory moves with everything below it.  The call
    fails when the old path does not exist, when the directory that is to
    hold the new name does not exist, or when a file is to replace a
    directory. *)
Definition os_Rename (os : OS) (oldpath newpath : string) : option error * OS :=
  match sys_fault os (SysRename oldpath newpath) with
  | Some _ => (Some (ErrOS "rename" oldpath), os)
  | None =>
      let src := resolve os oldpath in
      let dst := resolve os newpath in
      if negb (is_dir os (filepath_Dir dst))
      then (Some (ErrNotExist newpath), os)
      else
        match files os !! src with
        | Some f =>
            if bool_decide (dst ∈ dirs os)
            then (Some (ErrOS "rename" oldpath), os)
            else (None, with_files os (<[dst := f]> (delete src (files os))))
        | None =>
            if bool_decide (src ∈ dirs os)
            then
              if bool_decide (is_Some (files os !! dst))
              then (Some (ErrOS "rename" oldpath), os)
              else
                (None,
                 with_dirs
                   (with_files os
                      (list_to_map
                         ((fun e => (move_below src dst e.1, e.2))
                            <$> map_to_list (files os))))
                   (list_to_set (move_below src dst <$> elements (dirs os))))
            else (Some (ErrNotExist oldpath), os)
        end
  end.

(** [os.Create]: the file exists and is empty afterwards. *)
Definition os_Create (os : OS) (path : string) : option error * OS :=
  match sys_fault os (SysCreate path) with
  | Some _ => (Some (ErrOS "open" path), os)
  | None =>
      let dst := resolve os path in
      if negb (is_dir os (filepath_Dir dst)) then (Some (ErrNotExist path), os)
      else if bool_decide (dst ∈ dirs os) then (Some (ErrOS "open" path), os)
      else (None, with_files os (<[dst := mkFile (ReadEOF []) (now os) (Some (now os))]> (files os)))
  end.

(** [GetWorkspaceDir]: [FSAK_WS_DIR] made absolute, or
    [$HOME/.local/share/fsak]; the directory is created. *)
Definition GetWorkspaceDir (os : OS) : result string * OS :=
  let located :=
    if String.eqb (getenv os "FSAK_WS_DIR") "" then
      match home os with
      | Err err => Err err
      | Ok homeDir => Ok (filepath_Join [homeDir; ".local"; "share"; "fsak"])
      end
    else if negb (filepath_IsAbs (getenv os "FSAK_WS_DIR"))
    then filepath_Abs os (getenv os "FSAK_WS_DIR")
    else Ok (getenv os "FSAK_WS_DIR") in
  match located with
  | Err err => (Err err, os)
  | Ok wsDir =>
      match os_MkdirAll os wsDir with
      | (Some err, os') => (Err err, os')
      | (None, os') => (Ok wsDir, os')
      end
  end.

(** ** util: hashing *)

(** [hash.Hash] as the code uses it: a fresh state, [Write] (which never
    fails) and [Sum(nil)]. *)
Record Hasher : Type := mkHasher {
  h_state : Type;
  h_new : h_state;
  h_write : h_state -> list byte -> h_state;
  h_sum : h_state -> list byte
}.

(** The two hash libraries: [blake3.New(32, nil)] and [md5.New()]. *)
Class HashLib : Type := {
  blake3_New32 : Hasher;
  md5_New : Hasher
}.

(** The digest of a byte string: everything written to a fresh state. *)
Definition digest (h : Hasher) (data : list byte) : list byte :=
  h_sum h (h_write h (h_new h) data).

(** [encoding/hex]: [hextable] and [EncodeToString]. *)
Definition hextable : string := "0123456789abcdef".

Definition hex_digit (v : N) : ascii :=
  match String.get (N.to_nat v) hextable with
  | Some c => c
  | None => "0"%char
  end.

Definition hex_EncodeToString (src : list byte) : string :=
  fold_right
    (fun v dst =>
       String (hex_digit (N.shiftr (Byte.to_N v) 4))
              (String (hex_digit (N.land (Byte.to_N v) 15)) dst))
    EmptyString src.

Definition bytes_of_string (s : string) : list byte := list_byte_of_string s.

(** [CalculateBlake3String] *)
Definition CalculateBlake3String `{HashLib} (data : string) : string :=
  hex_EncodeToString (digest blake3_New32 (bytes_of_string data)).

(** [os.Open]: a handle on the file's contents.  A directory opens, and
    its first [Read] fails. *)
Definition os_Open (os : OS) (path : string) : result ReadStream :=
  match sys_fault os (SysOpen path) with
  | Some _ => Err (ErrOS "open" path)
  | None =>
      match files os !! resolve os path with
      | Some f => Ok (f_reads f)
      | None =>
          if bool_decide (resolve os path ∈ dirs os)
          then Ok (ReadFail [] "is a directory")
          else Err (ErrNotExist path)
      end
  end.

(** What a function did to a file handle, in order. *)
Inductive HandleOp : Type :=
| OpOpen (path : string)
| OpRead (n : nat)
| OpClose (path : string).

(** The loop of [io.Copy(dst, src)]: every [Read] that delivers bytes is
    followed by one [Write] of exactly these bytes; the loop ends at
    [io.EOF] (no error) or at the first other error, which it returns. *)
Fixpoint io_Copy {W : Type} (write : W -> list byte -> W) (dst : W) (src : ReadStream)
  : W * option error * list HandleOp :=
  let put chunk := match chunk with [] => dst | _ => write dst chunk end in
  match src with
  | ReadMore chunk rest =>
      let '(dst', er, ops) := io_Copy write (put chunk) rest in
      (dst', er, OpRead (length chunk) :: ops)
  | ReadEOF chunk => (put chunk, None, [OpRead (length chunk)])
  | ReadFail chunk why => (put chunk, Some (ErrOS "read" why), [OpRead (length chunk)])
  end.

(** [io.MultiWriter(a, b)]: a write goes to [a], then to [b]. *)
Definition io_MultiWriter (a b : Hasher) (w : h_state a * h_state b) (p : list byte)
  : h_state a * h_state b :=
  (h_write a w.1 p, h_write b w.2 p).

(** [FileBlake3MD5], with the operations it performed on the file. *)
Definition FileBlake3MD5_ops `{HashLib} (os : OS) (path : string)
  : (string * string * option error) * list HandleOp :=
  match os_Open os path with
  | Err err => (("", "", Some err), [OpOpen path])
  | Ok f =>
      let blake3Hash := h_new blake3_New32 in
      let md5Hash := h_new md5_New in
      let mw := io_MultiWriter blake3_New32 md5_New in
      match io_Copy mw (blake3Hash, md5Hash) f with
      | (_, Some err, ops) => (("", "", Some err), OpOpen path :: ops ++ [OpClose path])
      | ((blake3Hash', md5Hash'), None, ops) =>
          ((hex_EncodeToString (h_sum blake3_New32 blake3Hash'),
            hex_EncodeToString (h_sum md5_New md5Hash'),
            None),
           OpOpen path :: ops ++ [OpClose path])
      end
  end.

(** [FileBlake3MD5]: (Blake3, MD5, error). *)
Definition FileBlake3MD5 `{HashLib} (os : OS) (path : string)
  : string * string * option error :=
  (FileBlake3MD5_ops os path).1.

(** What [hash.Hash] promises: writing in pieces is writing the whole, and
    [Sum] has the length the hash was made for. *)
Record HasherLaws (h : Hasher) (size : nat) : Prop := {
  write_nil : forall s, h_write h s [] = s;
  write_app : forall s p q, h_write h (h_write h s p) q = h_write h s (p ++ q);
  sum_length : forall s, length (h_sum h s) = size
}.

Definition is_lower_hex (c : ascii) : bool :=
  existsb (Ascii.eqb c) (list_ascii_of_string hextable).

Definition lower_hex_string (s : string) : Prop :=
  Forall (fun c => is_lower_hex c = true) (list_ascii_of_string s).

Fixpoint stream_reads (s : ReadStream) : list HandleOp :=
  match s with
  | ReadMore chunk rest => OpRead (length chunk) :: stream_reads rest
  | ReadEOF chunk => [OpRead (length chunk)]
  | ReadFail chunk _ => [OpRead (length chunk)]
  end.

(** A hash library to run the model on: the state is what was written,
    and [Sum] is its first [size] bytes, zero-padded. *)
Definition prefix_hasher (size : nat) : Hasher :=
  mkHasher (list byte) [] (fun s p => s ++ p)
           (fun s => take size (s ++ replicate size x00)).

Definition prefix_hashes : HashLib :=
  {| blake3_New32 := prefix_hasher 32; md5_New := prefix_hasher 16 |}.

(** ** util: the blacklist *)

(** [regexp]: compiled expressions, [Compile], [MatchString] (an
    unanchored search) and [QuoteMeta]. *)
Class RegexpLib : Type := {
  Regexp : Type;
  regexp_Compile : string -> result Regexp;
  regexp_MatchString : Regexp -> string -> bool;
  regexp_QuoteMeta : string -> string
}.

(** [unicode.IsSpace] on UTF-8: the six ASCII white-space characters and
    the two- and three-byte encodings of U+0085, U+00A0, U+1680,
    U+2000..U+200A, U+2028, U+2029, U+202F, U+205F and U+3000. *)
Definition ascii_space (c : ascii) : bool :=
  let n := N_of_ascii c in
  ((9 <=? n) && (n <=? 13) || (n =? 32))%N.

Definition space2 (c1 c2 : ascii) : bool :=
  ((N_of_ascii c1 =? 194) && ((N_of_ascii c2 =? 133) || (N_of_ascii c2 =? 160)))%N.

Definition space3 (c1 c2 c3 : ascii) : bool :=
  let '(a, b, c) := (N_of_ascii c1, N_of_ascii c2, N_of_ascii c3) in
  ((a =? 225) && (b =? 154) && (c =? 128)
   || (a =? 226) && (b =? 128)
      && ((128 <=? c) && (c <=? 138) || (c =? 168) || (c =? 169) || (c =? 175))
   || (a =? 226) && (b =? 129) && (c =? 159)
   || (a =? 227) && (b =? 128) && (c =? 128))%N.

Fixpoint trim_left (s : list ascii) : list ascii :=
  match s with
  | [] => []
  | c1 :: rest1 =>
      if ascii_space c1 then trim_left rest1
      else match rest1 with
           | [] => s
           | c2 :: rest2 =>
               if space2 c1 c2 then trim_left rest2
               else match rest2 with
                    | [] => s
                    | c3 :: rest3 =>
                        if space3 c1 c2 c3 then trim_left rest3 else s
                    end
           end
  end.

(** The same from the end, on the reversed string. *)
Fixpoint trim_left_rev (s : list ascii) : list ascii :=
  match s with
  | [] => []
  | c1 :: rest1 =>
      if ascii_space c1 then trim_left_rev rest1
      else match rest1 with
           | [] => s
           | c2 :: rest2 =>
               if space2 c2 c1 then trim_left_rev rest2
               else match rest2 with
                    | [] => s
                    | c3 :: rest3 =>
                        if space3 c3 c2 c1 then trim_left_rev rest3 else s
                    end
           end
  end.

(** [strings.TrimSpace] *)
Definition strings_TrimSpace (s : string) : string :=
  string_of_list_ascii
    (rev (trim_left_rev (rev (trim_left (list_ascii_of_string s))))).

(** [bufio.Scanner] with [ScanLines]: the lines of the data, each without
    its line end ("\n" or "\r\n"); a last line without a line end counts,
    an empty rest does not. *)
Fixpoint scan_lines (cur : list byte) (data : list byte) : list (list byte) :=
  match data with
  | [] => match cur with [] => [] | _ => [rev cur] end
  | b :: rest =>
      if Byte.eqb b x0a then rev cur :: scan_lines [] rest
      else scan_lines (b :: cur) rest
  end.

Definition dropCR (line : list byte) : list byte :=
  match rev line with
  | b :: front => if Byte.eqb b x0d then rev front else line
  | [] => line
  end.

Definition bufio_MaxScanTokenSize : N := 65536.

Definition fits_scanner (line : list byte) : bool :=
  (N.of_nat (length line) <? bufio_MaxScanTokenSize)%N.

Fixpoint take_while {A} (f : A -> bool) (l : list A) : list A :=
  match l with
  | [] => []
  | x :: l' => if f x then x :: take_while f l' else []
  end.

(** What the scanner loop sees: the lines up to the first one too long for
    the scanner's buffer, and [scanner.Err()]: [bufio.ErrTooLong], or the
    read error of the handle. *)
Definition scanner_lines (f : ReadStream) : list string * option error :=
  let all := scan_lines [] (stream_bytes f) in
  let seen := take_while fits_scanner all in
  (string_of_list_byte ∘ dropCR <$> seen,
   if forallb fits_scanner all then stream_error f
   else Some (ErrMsg "bufio.Scanner: token too long")).





(** The blacklist test of [countFiles] and [processDirectories]:
    [shouldSkip] after the loop over the patterns. *)
Definition shouldSkip `{RegexpLib} (blacklistPatterns : list Regexp) (path : string) : bool :=
  existsb (fun pattern => regexp_MatchString pattern path) blacklistPatterns.

(** The walk callback of [processDirectories], with the paths it sends to
    [fileCh] collected in order: an entry that comes with an error ends the
    walk of this root. *)
Definition sync_walk_fn `{RegexpLib} (blacklistPatterns : list Regexp)
    (path : string) (info : result FileStat) (sent : list string)
  : list string * option error :=
  match info with
  | Err err => (sent, Some err)
  | Ok info =>
      if st_IsDir info then (sent, None)
      else if shouldSkip blacklistPatterns path then (sent, None)
      else (sent ++ [path], None)
  end.

(** *** A small regexp library to run the model on

    Literals, [\c] for a punctuation character, [.], [x*], [^] and [$];
    every other metacharacter is refused by [Compile]. *)
Inductive rx_atom : Type :=
| RxLit (c : ascii)
| RxAny.

Inductive rx_item : Type :=
| RxOne (a : rx_atom)
| RxStar (a : rx_atom)
| RxBegin
| RxEnd.

(** The characters [regexp.QuoteMeta] escapes. *)
Definition rx_special (c : ascii) : bool :=
  existsb (Ascii.eqb c) (list_ascii_of_string "\.+*?()|[]{}^$").

Fixpoint rx_parse (s : list ascii) : option (list rx_item) :=
  let after (a : rx_atom) (rest : list ascii)
            (parsed_rest : option (list rx_item))
            (parsed_tail : option (list rx_item)) : option (list rx_item) :=
    match rest with
    | c :: _ => if Ascii.eqb c "*" then cons (RxStar a) <$> parsed_tail
                else cons (RxOne a) <$> parsed_rest
    | [] => cons (RxOne a) <$> parsed_rest
    end in
  match s with
  | [] => Some []
  | c :: rest =>
      if Ascii.eqb c "\" then
        match rest with
        | [] => None
        | e :: rest' =>
            if rx_special e then
              after (RxLit e) rest' (rx_parse rest')
                    (match rest' with [] => None | _ :: tail => rx_parse tail end)
            else None
        end
      else if Ascii.eqb c "^" then cons RxBegin <$> rx_parse rest
      else if Ascii.eqb c "$" then cons RxEnd <$> rx_parse rest
      else if Ascii.eqb c "." then
        after RxAny rest (rx_parse rest)
              (match rest with [] => None | _ :: tail => rx_parse tail end)
      else if rx_special c then None
      else
        after (RxLit c) rest (rx_parse rest)
              (match rest with [] => None | _ :: tail => rx_parse tail end)
  end.

Definition rx_atom_ok (a : rx_atom) (c : ascii) : bool :=
  match a with
  | RxLit l => Ascii.eqb l c
  | RxAny => true
  end.

(** Does the expression match a prefix of the text?  [at_start] tells
    whether the text begins here. *)
Fixpoint rx_here (items : list rx_item) (at_start : bool) (text : list ascii) : bool :=
  match items with
  | [] => true
  | RxBegin :: items' => at_start && rx_here items' at_start text
  | RxEnd :: items' =>
      match text with [] => rx_here items' at_start text | _ => false end
  | RxOne a :: items' =>
      match text with
      | c :: text' => rx_atom_ok a c && rx_here items' false text'
      | [] => false
      end
  | RxStar a :: items' =>
      (fix star (at_start : bool) (text : list ascii) : bool :=
         rx_here items' at_start text
         || match text with
            | c :: text' => rx_atom_ok a c && star false text'
            | [] => false
            end) at_start text
  end.

Fixpoint rx_search_from (items : list rx_item) (text : list ascii) : bool :=
  rx_here items false text
  || match text with
     | _ :: text' => rx_search_from items text'
     | [] => false
     end.

Definition rx_search (items : list rx_item) (text : list ascii) : bool :=
  rx_here items true text
  || match text with
     | _ :: text' => rx_search_from items text'
     | [] => false
     end.

Fixpoint rx_quote (s : list ascii) : list ascii :=
  match s with
  | [] => []
  | c :: rest => if rx_special c then "\"%char :: c :: rx_quote rest
                 else c :: rx_quote rest
  end.

Definition small_regexp : RegexpLib :=
  {| Regexp := list rx_item;
     regexp_Compile := fun pattern =>
       match rx_parse (list_ascii_of_string pattern) with
       | Some items => Ok items
       | None => Err (ErrRegexp pattern)
       end;
     regexp_MatchString := fun re text => rx_search re (list_ascii_of_string text);
     regexp_QuoteMeta := fun text =>
       string_of_list_ascii (rx_quote (list_ascii_of_string text)) |}.

(** ** core/clean.go: the cleaning pass *)

(** The first loop of [cleanFileInfoTable]: the records whose path
    [os.Stat] reports as not existing. *)
Definition path_is_gone (os : OS) (record : FileInfo) : bool :=
  match os_Stat os (Path record) with
  | Ok _ => false
  | Err e => os_IsNotExist e
  end.

Fixpoint check_records (os : OS) (total : Z) (i : Z) (allRecords : list FileInfo)
  : list FileInfo * list event :=
  match allRecords with
  | [] => ([], [])
  | record :: rest =>
      let '(recordsToDelete, log) := check_records os total (i + 1) rest in
      (if path_is_gone os record then record :: recordsToDelete else recordsToDelete,
       EvProgress (i + 1) total (Path record) :: log)
  end.

(** The second loop: each marked record is deleted by its key; the first
    failing delete ends the command. *)
Fixpoint delete_records (db : DB) (recordsToDelete : list FileInfo) (deletedCount : Z)
  : option error * DB * Z * list event :=
  match recordsToDelete with
  | [] => (None, db, deletedCount, [])
  | record :: rest =>
      match DeleteFileInfo db (Key record) with
      | (Some e, db') =>
          (Some (ErrWrap ("error deleting record with key " +:+ Key record) e),
           db', deletedCount, [EvProcess ("Cleaning record " +:+ Path record)])
      | (None, db') =>
          let '(err, db'', n, log) := delete_records db' rest (deletedCount + 1) in
          (err, db'', n, EvProcess ("Cleaning record " +:+ Path record) :: log)
      end
  end.

(** [cleanFileInfoTable] *)
Definition cleanFileInfoTable (os : OS) (store : DB) : option error * DB * list event :=
  match Connect store with
  | Err e => (Some (ErrWrap "error connecting to database" e), store, [])
  | Ok db =>
      match GetAllFileInfos db with
      | Err e => (Some (ErrWrap "error getting all file info records" e), db, [])
      | Ok allRecords =>
          let totalRecords := Z.of_nat (length allRecords) in
          let '(recordsToDelete, log1) := check_records os totalRecords 0 allRecords in
          let '(err, db', deletedCount, log2) := delete_records db recordsToDelete 0 in
          (err, db',
           [EvProcess ("Found " +:+ pretty totalRecords
                       +:+ " records in file_infos table, starting validation...")]
           ++ log1
           ++ [EvProcess ("Found " +:+ pretty (Z.of_nat (length recordsToDelete))
                          +:+ " records pointing to non-existent files")]
           ++ log2
           ++ match err with
              | None => [EvSuccess ("Clean operation completed. " +:+ pretty deletedCount
                                    +:+ " records deleted.")]
              | Some _ => []
              end)
      end
  end.

(** ** core/clean.go: the duplicate resolver *)

(** What a command holds while it runs: the machine, the open database
    and what it has printed so far. *)
Record Run : Type := mkRun {
  run_os : OS;
  run_db : DB;
  run_log : list event
}.

Definition say (run : Run) (evs : list event) : Run :=
  mkRun (run_os run) (run_db run) (run_log run ++ evs).

Definition on_os (run : Run) (os : OS) : Run := mkRun os (run_db run) (run_log run).
Definition on_db (run : Run) (db : DB) : Run := mkRun (run_os run) db (run_log run).

(** The order in which a [range] over a map visits its entries, which Go
    leaves to the runtime: some rearrangement of the entries. *)
Definition RangeOrder : Type := forall A : Type, list A -> list A.

(** The interactive selector behind [util.SelectMultiple]: the options the
    user ticks, or the prompt's error. *)
Definition Selector : Type := string -> list string -> result (list string).

(** [util.SelectMultiple] *)
Definition SelectMultiple (ui : Selector) (message : string) (options : list string)
  : result (list string) :=
  match options with
  | [] => Err (ErrMsg "no options provided")
  | _ => ui message options
  end.

(** [getAllFilesInFolder]: the walk callback skips what cannot be
    accessed and keeps what is not a directory. *)
Definition getAllFilesInFolder (os : OS) (folderPath : string)
  : list string * option error :=
  filepath_Walk os folderPath
    (fun path info files =>
       match info with
       | Err _ => (files, None)
       | Ok info => if negb (st_IsDir info) then (files ++ [path], None) else (files, None)
       end) [].

Fixpoint collect_files (os : OS) (folderPaths : list string) (allFiles : list string)
  : result (list string) :=
  match folderPaths with
  | [] => Ok allFiles
  | folderPath :: rest =>
      match getAllFilesInFolder os folderPath with
      | (_, Some err) =>
          Err (ErrWrap ("error getting files from folder " +:+ folderPath) err)
      | (files, None) => collect_files os rest (allFiles ++ files)
      end
  end.

(** One turn of the loop over [allFiles]: the catalog's row for the path
    when there is one, else a fresh fingerprint, upserted.  The key of the
    new row is computed from [filePath] as the walk delivered it. *)
Definition scan_file `{HashLib} (filePath : string) (i total : Z)
    (run : Run) (fileInfoMap : gmap string FileInfo)
  : option error * Run * gmap string FileInfo :=
  let run := say run [EvProgress (i + 1) total filePath] in
  match GetFileInfoByPath (run_db run) filePath with
  | Ok dbFileInfo => (None, run, <[filePath := dbFileInfo]> fileInfoMap)
  | Err err =>
      if negb (is_record_not_found err)
      then (Some (ErrWrap ("error getting file info from database for " +:+ filePath) err),
            run, fileInfoMap)
      else
        match FileBlake3MD5 (run_os run) filePath with
        | (_, _, Some err) =>
            (None, say run [EvWarning "Could not calculate hash" filePath], fileInfoMap)
        | (blake3Val, md5Val, None) =>
            match os_Stat (run_os run) filePath with
            | Err err =>
                (None, say run [EvWarning "Could not get file stats" filePath], fileInfoMap)
            | Ok fileStat =>
                let fileInfo :=
                  {| ID := 0;
                     Path := filePath;
                     Name := filepath_Base filePath;
                     Key := CalculateBlake3String filePath;
                     MD5 := md5Val;
                     Blake3 := blake3Val;
                     Size := st_Size fileStat;
                     Tag := "";
                     MTime := st_ModTime fileStat;
                     CTime := st_ModTime fileStat;
                     Status := 0 |} in
                match UpsertFileInfo (run_db run) fileInfo with
                | (Some err, db') =>
                    (Some (ErrWrap ("error inserting file info into database for "
                                    +:+ filePath) err),
                     on_db run db', fileInfoMap)
                | (None, db') =>
                    (None, on_db run db', <[filePath := fileInfo]> fileInfoMap)
                end
            end
        end
  end.

Fixpoint scan_files `{HashLib} (allFiles : list string) (i total : Z)
    (run : Run) (fileInfoMap : gmap string FileInfo)
  : option error * Run * gmap string FileInfo :=
  match allFiles with
  | [] => (None, run, fileInfoMap)
  | filePath :: rest =>
      match scan_file filePath i total run fileInfoMap with
      | (Some err, run', m) => (Some err, run', m)
      | (None, run', m) => scan_files rest (i + 1) total run' m
      end
  end.

(** The grouping key: [fileInfo.MD5 + ":" + fileInfo.Blake3]. *)
Definition group_key (fileInfo : FileInfo) : string :=
  MD5 fileInfo +:+ ":" +:+ Blake3 fileInfo.

Definition group_files (visited : list FileInfo) : gmap string (list FileInfo) :=
  fold_left
    (fun groupedFiles fileInfo =>
       <[group_key fileInfo :=
           default [] (groupedFiles !! group_key fileInfo) ++ [fileInfo]]> groupedFiles)
    visited ∅.

Definition duplicate_groups (visited : list (list FileInfo)) : list (list FileInfo) :=
  List.filter (fun group => bool_decide (1 < length group)%nat) visited.

(** [sort.Slice] of the group by [Path]. *)
Definition path_le (a b : FileInfo) : Prop := String.leb (Path a) (Path b) = true.

#[global] Instance path_le_dec (a b : FileInfo) : Decision (path_le a b).
Proof. unfold path_le. apply _. Defined.

Definition sort_group (group : list FileInfo) : list FileInfo :=
  merge_sort path_le group.

(** [fmt.Sprintf("%s | (%d bytes)", fileInfo.Path, fileInfo.Size)] *)
Definition option_text (fileInfo : FileInfo) : string :=
  Path fileInfo +:+ " | (" +:+ pretty (Size fileInfo) +:+ " bytes)".

(** [getRelativePathFromParent] *)
Fixpoint getRelativePathFromParent (filePath : string) (folderPaths : list string)
  : result string :=
  match folderPaths with
  | [] => Err (ErrMsg ("file " +:+ filePath
                       +:+ " does not belong to any of the specified folders"))
  | folderPath :: rest =>
      if strings_HasPrefix filePath folderPath then
        match filepath_Rel (filepath_Dir folderPath) filePath with
        | Ok relPath => Ok relPath
        | Err _ => getRelativePathFromParent filePath rest
        end
      else getRelativePathFromParent filePath rest
  end.

(** Where a chosen file goes under the deleted folder. *)
Definition deleted_path (folderPaths : list string) (deletedDir : string)
    (fileInfo : FileInfo) : string * list event :=
  match getRelativePathFromParent (Path fileInfo) folderPaths with
  | Ok relPath => (filepath_Join [deletedDir; relPath], [])
  | Err _ =>
      (filepath_Join [deletedDir; filepath_Base (Path fileInfo)],
       [EvWarning "Could not determine relative path" (Path fileInfo)])
  end.

(** What is done to one chosen file: the destination directory is made,
    the file is moved there, and its catalog row is deleted by the key of
    its path.  A failed [MkdirAll] or [Rename] returns from the command; a
    failed delete is a warning. *)
Definition remove_chosen `{HashLib} (folderPaths : list string) (deletedDir : string)
    (fileInfo : FileInfo) (run : Run) (totalFilesProcessed : Z)
  : option error * Run * Z :=
  let '(destPath, warned) := deleted_path folderPaths deletedDir fileInfo in
  let run := say run warned in
  let destDir := filepath_Dir destPath in
  match os_MkdirAll (run_os run) destDir with
  | (Some err, os') =>
      (Some (ErrWrap ("error creating destination directory " +:+ destDir) err),
       on_os run os', totalFilesProcessed)
  | (None, os') =>
      match os_Rename os' (Path fileInfo) destPath with
      | (Some err, os'') =>
          (Some (ErrWrap ("error moving file " +:+ Path fileInfo +:+ " to " +:+ destPath) err),
           on_os run os'', totalFilesProcessed)
      | (None, os'') =>
          let run := say (on_os run os'') [EvMoved (Path fileInfo) destPath] in
          let key := CalculateBlake3String (Path fileInfo) in
          match DeleteFileInfo (run_db run) key with
          | (Some err, db') =>
              (None,
               say (on_db run db')
                   [EvWarning "Could not delete record from database" (Path fileInfo)],
               totalFilesProcessed)
          | (None, db') => (None, on_db run db', totalFilesProcessed + 1)
          end
      end
  end.

(** The loop over [selectedOptions]; the inner loop finds the first member
    of the sorted group whose option text is the selected one. *)
Fixpoint process_selected `{HashLib} (folderPaths : list string) (deletedDir : string)
    (sortedGroup : list FileInfo) (selectedOptions : list string)
    (run : Run) (totalFilesProcessed : Z)
  : option error * Run * Z :=
  match selectedOptions with
  | [] => (None, run, totalFilesProcessed)
  | selectedOption :: rest =>
      match List.find (fun fileInfo => String.eqb (option_text fileInfo) selectedOption)
                      sortedGroup with
      | None =>
          process_selected folderPaths deletedDir sortedGroup rest run totalFilesProcessed
      | Some fileInfo =>
          match remove_chosen folderPaths deletedDir fileInfo run totalFilesProcessed with
          | (Some err, run', n) => (Some err, run', n)
          | (None, run', n) =>
              process_selected folderPaths deletedDir sortedGroup rest run' n
          end
      end
  end.

(** One duplicate group: the selector is asked, and what it chose is
    removed at once. *)
Definition process_group `{HashLib} (ui : Selector) (folderPaths : list string)
    (deletedSaveDir : string) (i total : Z) (group : list FileInfo)
    (run : Run) (totalFilesProcessed : Z)
  : option error * Run * Z :=
  let run := say run [EvProgress (i + 1) total "Duplicate group"] in
  let sortedGroup := sort_group group in
  let options := option_text <$> sortedGroup in
  match SelectMultiple ui
          "Select files to delete (use space to select multiple, enter to confirm):"
          options with
  | Err err =>
      (Some (ErrWrap "error getting user selection for group" err),
       run, totalFilesProcessed)
  | Ok [] => (None, run, totalFilesProcessed)
  | Ok selectedOptions =>
      let located :=
        if String.eqb deletedSaveDir "" then
          match GetWorkspaceDir (run_os run) with
          | (Err err, os') => (Err (ErrWrap "error getting workspace directory" err), os')
          | (Ok workspaceDir, os') => (Ok (filepath_Join [workspaceDir; "deleted"]), os')
          end
        else (Ok deletedSaveDir, run_os run) in
      match located with
      | (Err err, os') => (Some err, on_os run os', totalFilesProcessed)
      | (Ok deletedDir, os') =>
          match os_MkdirAll os' deletedDir with
          | (Some err, os'') =>
              (Some (ErrWrap "error creating deleted directory" err),
               on_os run os'', totalFilesProcessed)
          | (None, os'') =>
              process_selected folderPaths deletedDir sortedGroup selectedOptions
                               (on_os run os'') totalFilesProcessed
          end
      end
  end.

Fixpoint process_groups `{HashLib} (ui : Selector) (folderPaths : list string)
    (deletedSaveDir : string) (i total : Z) (duplicateGroups : list (list FileInfo))
    (run : Run) (totalFilesProcessed : Z)
  : option error * Run * Z :=
  match duplicateGroups with
  | [] => (None, run, totalFilesProcessed)
  | group :: rest =>
      match process_group ui folderPaths deletedSaveDir i total group run
                          totalFilesProcessed with
      | (Some err, run', n) => (Some err, run', n)
      | (None, run', n) =>
          process_groups ui folderPaths deletedSaveDir (i + 1) total rest run' n
      end
  end.

(** [handleDuplicateFiles] *)
Definition handleDuplicateFiles `{HashLib} (range : RangeOrder) (ui : Selector)
    (os : OS) (store : DB) (folderPaths : list string) (deletedSaveDir : string)
  : option error * Run :=
  match Connect store with
  | Err err => (Some (ErrWrap "error connecting to database" err), mkRun os store [])
  | Ok db =>
      let run := mkRun os db [] in
      match collect_files os folderPaths [] with
      | Err err => (Some err, run)
      | Ok allFiles =>
          let totalFiles := Z.of_nat (length allFiles) in
          let run := say run [EvProcess "Processing files"] in
          match scan_files allFiles 0 totalFiles run ∅ with
          | (Some err, run, _) => (Some err, run)
          | (None, run, fileInfoMap) =>
              let groupedFiles := group_files (range _ (map_to_list fileInfoMap)).*2 in
              let duplicateGroups :=
                duplicate_groups (range _ (map_to_list groupedFiles)).*2 in
              match duplicateGroups with
              | [] => (None, say run [EvSuccess "No duplicate files found."])
              | _ =>
                  let run := say run [EvProcess "Found groups of duplicate files."] in
                  match process_groups ui folderPaths deletedSaveDir 0
                          (Z.of_nat (length duplicateGroups)) duplicateGroups run 0 with
                  | (Some err, run, _) => (Some err, run)
                  | (None, run, totalFilesProcessed) =>
                      if totalFilesProcessed =? 0
                      then (None, say run [EvSuccess "No files selected for deletion."])
                      else (None, say run [EvSuccess "Successfully processed duplicate files"])
                  end
              end
          end
      end
  end.

(** ** The sync pipeline ([sync info]) *)

(** [GetCreationTime]: the change time where [info.Sys()] is a
    [*syscall.Stat_t], else the modification time. *)
Definition GetCreationTime (info : FileStat) : Z :=
  default (st_ModTime info) (st_Sys info).

(** [processFileInfoOnly]: [Ok None] is the [nil, nil] of a skipped file. *)
Definition processFileInfoOnly `{HashLib} (os : OS) (db : DB)
    (filePath tag : string) (force : bool)
  : result (option FileInfo) * list event :=
  match os_Stat os filePath with
  | Err err => (Err (ErrWrap ("error getting file info for " +:+ filePath) err), [])
  | Ok fileInfo =>
      match filepath_Abs os filePath with
      | Err err => (Err (ErrWrap ("error getting absolute path for " +:+ filePath) err), [])
      | Ok absPath =>
          let fingerprint :=
            let key := CalculateBlake3String absPath in
            match FileBlake3MD5 os filePath with
            | (_, _, Some err) =>
                Err (ErrWrap ("error calculating hashes for " +:+ filePath) err)
            | (blake3Hash, md5Hash, None) =>
                let ctime := GetCreationTime fileInfo in
                Ok (Some {| ID := 0;
                            Key := key;
                            Name := filepath_Base filePath;
                            Path := absPath;
                            Status := 0;
                            MD5 := md5Hash;
                            Blake3 := blake3Hash;
                            Size := st_Size fileInfo;
                            Tag := tag;
                            MTime := st_ModTime fileInfo;
                            CTime := ctime |})
            end in
          if negb force then
            match GetFileInfoByPath db absPath with
            | Ok _ => (Ok None, [EvWarning "Skipping existing file" filePath])
            | Err err =>
                if negb (is_record_not_found err)
                then (Err (ErrWrap "error checking if file exists in database" err), [])
                else (fingerprint, [])
            end
          else (fingerprint, [])
      end
  end.

(** The walk callback of [countFiles]. *)
Definition count_walk_fn `{RegexpLib} (blacklistPatterns : list Regexp)
    (path : string) (info : result FileStat) (totalFiles : Z)
  : Z * option error :=
  match info with
  | Err err => (totalFiles, Some err)
  | Ok info =>
      if st_IsDir info then (totalFiles, None)
      else if shouldSkip blacklistPatterns path then (totalFiles, None)
      else (totalFiles + 1, None)
  end.

(** [countFiles] *)
Fixpoint countFiles `{RegexpLib} (os : OS) (dirs : list string)
    (blacklistPatterns : list Regexp) (totalFiles : Z) : result Z :=
  match dirs with
  | [] => Ok totalFiles
  | dir :: rest =>
      match filepath_Walk os dir (count_walk_fn blacklistPatterns) totalFiles with
      | (_, Some err) => Err err
      | (totalFiles', None) => countFiles os rest blacklistPatterns totalFiles'
      end
  end.

(** The arguments of [processDirectories]. *)
Record SyncArgs `{RegexpLib} : Type := mkSyncArgs {
  arg_dirs : list string;
  arg_threads : Z;
  arg_tag : string;
  arg_force : bool;
  arg_blacklistPatterns : list Regexp;
  arg_batchSize : Z
}.

(** Where the goroutine of [processDirectories] itself stands. *)
Inductive MainState : Type :=
| MainWalking (pending : list string) (dirs : list string)
| MainWaiting
| MainReporting
| MainReturned
| MainExited.

(** A worker goroutine: waiting on [fileCh], holding a record to send on
    [resultCh], or past its loop ([wg.Done]). *)
Inductive Worker : Type :=
| WorkerIdle
| WorkerSending (fileInfo : FileInfo)
| WorkerDone.

(** The batching goroutine: in its receive loop with the batch so far,
    upserting a batch (the rest to upsert; whether this is the batch after
    the loop), or past its last statement. *)
Inductive Collector : Type :=
| CollectorReceiving (batch : list FileInfo)
| CollectorSaving (todo batch : list FileInfo) (final : bool)
| CollectorDone.

(** The goroutines, the two channels and what they share. *)
Record Pipeline : Type := mkPipeline {
  p_main : MainState;
  p_fileCh : list string;
  p_fileCh_closed : bool;
  p_workers : list Worker;
  p_resultCh : list FileInfo;
  p_resultCh_closed : bool;
  p_collector : Collector;
  p_count : Z;
  p_totalFiles : Z;
  p_db : DB;
  p_log : list event
}.

Inductive Actor : Type :=
| ActMain
| ActWorker (threadId : nat)
| ActCollector.

(** [processDirectories] up to the start of the goroutines: the files are
    counted and the database is opened; either failure ends the process
    ([os.Exit(1)]). *)
Definition pipeline_start `{RegexpLib} (args : SyncArgs) (os : OS) (store : DB) : Pipeline :=
  let exited why db log :=
    mkPipeline MainExited [] false [] [] false CollectorDone 0 0 db
               (log ++ [EvError why ""]) in
  match countFiles os (arg_dirs args) (arg_blacklistPatterns args) 0 with
  | Err err => exited "Error counting files" store []
  | Ok totalFiles =>
      match Connect store with
      | Err err => exited "Error connecting to database" store []
      | Ok db =>
          mkPipeline (MainWalking [] (arg_dirs args)) [] false
                     (replicate (Z.to_nat (arg_threads args)) WorkerIdle)
                     [] false (CollectorReceiving []) 0 totalFiles db
                     [EvProcess "Starting worker threads to process files"]
      end
  end.

Definition channel_has_room {A} (args_threads : Z) (ch : list A) : bool :=
  Z.of_nat (length ch) <? args_threads * 2.

Definition set_main (s : Pipeline) (m : MainState) : Pipeline :=
  mkPipeline m (p_fileCh s) (p_fileCh_closed s) (p_workers s) (p_resultCh s)
             (p_resultCh_closed s) (p_collector s) (p_count s) (p_totalFiles s)
             (p_db s) (p_log s).

Definition set_fileCh (s : Pipeline) (ch : list string) (closed : bool) : Pipeline :=
  mkPipeline (p_main s) ch closed (p_workers s) (p_resultCh s)
             (p_resultCh_closed s) (p_collector s) (p_count s) (p_totalFiles s)
             (p_db s) (p_log s).

Definition set_worker (s : Pipeline) (threadId : nat) (w : Worker) : Pipeline :=
  mkPipeline (p_main s) (p_fileCh s) (p_fileCh_closed s)
             (<[threadId := w]> (p_workers s)) (p_resultCh s)
             (p_resultCh_closed s) (p_collector s) (p_count s) (p_totalFiles s)
             (p_db s) (p_log s).

Definition set_resultCh (s : Pipeline) (ch : list FileInfo) (closed : bool) : Pipeline :=
  mkPipeline (p_main s) (p_fileCh s) (p_fileCh_closed s) (p_workers s) ch
             closed (p_collector s) (p_count s) (p_totalFiles s)
             (p_db s) (p_log s).

Definition set_collector (s : Pipeline) (c : Collector) : Pipeline :=
  mkPipeline (p_main s) (p_fileCh s) (p_fileCh_closed s) (p_workers s) (p_resultCh s)
             (p_resultCh_closed s) c (p_count s) (p_totalFiles s)
             (p_db s) (p_log s).

Definition set_db (s : Pipeline) (db : DB) : Pipeline :=
  mkPipeline (p_main s) (p_fileCh s) (p_fileCh_closed s) (p_workers s) (p_resultCh s)
             (p_resultCh_closed s) (p_collector s) (p_count s) (p_totalFiles s)
             db (p_log s).

Definition set_count (s : Pipeline) (n : Z) : Pipeline :=
  mkPipeline (p_main s) (p_fileCh s) (p_fileCh_closed s) (p_workers s) (p_resultCh s)
             (p_resultCh_closed s) (p_collector s) n (p_totalFiles s)
             (p_db s) (p_log s).

Definition logged (s : Pipeline) (evs : list event) : Pipeline :=
  mkPipeline (p_main s) (p_fileCh s) (p_fileCh_closed s) (p_workers s) (p_resultCh s)
             (p_resultCh_closed s) (p_collector s) (p_count s) (p_totalFiles s)
             (p_db s) (p_log s ++ evs).

(** The next action of the main goroutine: a send on [fileCh] (which
    blocks while the channel is full), the walk of the next directory,
    [close(fileCh)], once [wg.Wait()] lets it through [close(resultCh)],
    and then the report of completion and the return, on which the deferred
    function closes the database and the process ends. *)
Definition main_step `{RegexpLib} (args : SyncArgs) (os : OS) (s : Pipeline)
  : option Pipeline :=
  match p_main s with
  | MainWalking (path :: pending) dirs =>
      if channel_has_room (arg_threads args) (p_fileCh s)
      then Some (set_main (set_fileCh s (p_fileCh s ++ [path]) false)
                          (MainWalking pending dirs))
      else None
  | MainWalking [] (dir :: dirs) =>
      let '(sent, err) :=
        filepath_Walk os dir (sync_walk_fn (arg_blacklistPatterns args)) [] in
      Some (logged (set_main s (MainWalking sent dirs))
                   [match err with
                    | Some _ => EvError "Error walking directory" dir
                    | None => EvProcess ("Finished scanning directory: " +:+ dir)
                    end])
  | MainWalking [] [] =>
      Some (set_main (set_fileCh s (p_fileCh s) true) MainWaiting)
  | MainWaiting =>
      if forallb (fun w => match w with WorkerDone => true | _ => false end) (p_workers s)
      then Some (set_main (set_resultCh s (p_resultCh s) true) MainReporting)
      else None
  | MainReporting =>
      Some (logged (set_main s MainReturned) [EvSuccess "Sync operation completed."])
  | MainReturned => None
  | MainExited => None
  end.

(** The next action of worker [threadId]: a receive from [fileCh] followed
    by [processFileInfoOnly], the send of its record on [resultCh], or the
    end of its loop when [fileCh] is closed and drained. *)
Definition worker_step `{HashLib, RegexpLib} (args : SyncArgs) (os : OS)
    (threadId : nat) (s : Pipeline) : option Pipeline :=
  match p_workers s !! threadId with
  | Some WorkerIdle =>
      match p_fileCh s with
      | path :: rest =>
          let s := set_fileCh s rest (p_fileCh_closed s) in
          match processFileInfoOnly os (p_db s) path (arg_tag args) (arg_force args) with
          | (Err err, evs) =>
              Some (logged s (evs ++ [EvError "Error processing file" path]))
          | (Ok None, evs) => Some (logged s evs)
          | (Ok (Some fileInfo), evs) =>
              Some (logged (set_worker s threadId (WorkerSending fileInfo)) evs)
          end
      | [] =>
          if p_fileCh_closed s then Some (set_worker s threadId WorkerDone) else None
      end
  | Some (WorkerSending fileInfo) =>
      if channel_has_room (arg_threads args) (p_resultCh s)
      then Some (set_worker (set_resultCh s (p_resultCh s ++ [fileInfo]) (p_resultCh_closed s))
                            threadId WorkerIdle)
      else None
  | Some WorkerDone => None
  | None => None
  end.

(** The progress lines printed for a saved batch. *)
Fixpoint progress_lines (count total : Z) (batch : list FileInfo) : list event :=
  match batch with
  | [] => []
  | info :: rest =>
      EvProgress (count + 1) total (Path info) :: progress_lines (count + 1) total rest
  end.

(** The next action of the batching goroutine: a receive from [resultCh],
    one upsert of the batch being saved (an error is printed and the loop
    goes on), the counter update after the last upsert, or, when
    [resultCh] is closed and drained, the turn to the remaining batch. *)
Definition collector_step `{RegexpLib} (args : SyncArgs) (s : Pipeline)
  : option Pipeline :=
  match p_collector s with
  | CollectorReceiving batch =>
      match p_resultCh s with
      | fileInfo :: rest =>
          let s := set_resultCh s rest (p_resultCh_closed s) in
          let batch := batch ++ [fileInfo] in
          if arg_batchSize args <=? Z.of_nat (length batch)
          then Some (set_collector s (CollectorSaving batch batch false))
          else Some (set_collector s (CollectorReceiving batch))
      | [] =>
          if p_resultCh_closed s then
            match batch with
            | [] => Some (set_collector s CollectorDone)
            | _ => Some (set_collector s (CollectorSaving batch batch true))
            end
          else None
      end
  | CollectorSaving (info :: todo) batch final =>
      match UpsertFileInfo (p_db s) info with
      | (Some err, db') =>
          Some (logged (set_collector (set_db s db') (CollectorSaving todo batch final))
                       [EvError "Error upserting file info" (Path info)])
      | (None, db') =>
          Some (set_collector (set_db s db') (CollectorSaving todo batch final))
      end
  | CollectorSaving [] batch final =>
      Some (logged
              (set_count
                 (set_collector s (if final then CollectorDone else CollectorReceiving []))
                 (p_count s + Z.of_nat (length batch)))
              (progress_lines (p_count s) (p_totalFiles s) batch))
  | CollectorDone => None
  end.

(** One step of the program: the scheduler picks a goroutine that is not
    blocked.  Once the main goroutine has returned, the database is closed
    and the process ends: nothing runs any more. *)
Definition pipeline_step `{HashLib, RegexpLib} (args : SyncArgs) (os : OS)
    (a : Actor) (s : Pipeline) : option Pipeline :=
  match p_main s with
  | MainReturned => None
  | MainExited => None
  | _ =>
      match a with
      | ActMain => main_step args os s
      | ActWorker threadId => worker_step args os threadId s
      | ActCollector => collector_step args s
      end
  end.

(** A schedule: the goroutines in the order in which they take their steps. *)
Fixpoint run_schedule `{HashLib, RegexpLib} (args : SyncArgs) (os : OS)
    (schedule : list Actor) (s : Pipeline) : option Pipeline :=
  match schedule with
  | [] => Some s
  | a :: rest =>
      match pipeline_step args os a s with
      | Some s' => run_schedule args os rest s'
      | None => None
      end
  end.

(** [processDirectories] under a schedule, on a machine that shows the
    walks of the goroutines the tree it showed the count.  The catalog is
    opened between the two: [pipeline_start] takes the machine of the count
    and [run_schedule] the machine of the goroutines, so that a run in
    which they differ is [run_schedule args os' schedule (pipeline_start
    args os store)]. *)
Definition processDirectories `{HashLib, RegexpLib} (args : SyncArgs) (os : OS)
    (store : DB) (schedule : list Actor) : option Pipeline :=
  run_schedule args os schedule (pipeline_start args os store).

(** ** The merge engine ([merge dir]) *)

(** [FileHashes] *)
Record FileHashes : Type := mkFileHashes {
  hashes_MD5 : string;
  hashes_Blake3 : string
}.

(** The test both walks of [getFilesWithHashes] make before looking at a
    file: entries with an error, directories and paths ending in
    [fsak.db] are passed over. *)
Definition scanned_entry (path : string) (info : result FileStat) : option FileStat :=
  match info with
  | Err _ => None
  | Ok info =>
      if st_IsDir info then None
      else if strings_HasSuffix path "fsak.db" then None
      else Some info
  end.

(** What the second walk carries along: the database, the map being
    filled, the progress counter and what was printed. *)
Record Scan : Type := mkScan {
  scan_db : DB;
  scan_files_map : gmap string FileHashes;
  scan_processed : Z;
  scan_log : list event
}.

(** The callback of the second walk of [getFilesWithHashes]. *)
Definition hashes_walk_fn `{HashLib} (os : OS) (totalFiles : Z)
    (path : string) (info : result FileStat) (s : Scan) : Scan * option error :=
  match scanned_entry path info with
  | None => (s, None)
  | Some info =>
      let processedFiles := scan_processed s + 1 in
      let s := mkScan (scan_db s) (scan_files_map s) processedFiles (scan_log s) in
      match filepath_Abs os path with
      | Err err => (s, Some (ErrWrap ("error getting absolute path for " +:+ path) err))
      | Ok absPath =>
          let use_catalog :=
            match GetFileInfoByPath (scan_db s) absPath with
            | Ok dbFileInfo =>
                if negb (String.eqb (MD5 dbFileInfo) "")
                   && negb (String.eqb (Blake3 dbFileInfo) "")
                then Some dbFileInfo else None
            | Err _ => None
            end in
          match use_catalog with
          | Some dbFileInfo =>
              (mkScan (scan_db s)
                      (<[path := mkFileHashes (MD5 dbFileInfo) (Blake3 dbFileInfo)]>
                         (scan_files_map s))
                      processedFiles
                      (scan_log s ++ [EvProgress processedFiles totalFiles absPath]),
               None)
          | None =>
              match FileBlake3MD5 os path with
              | (_, _, Some err) =>
                  (s, Some (ErrWrap ("error calculating hashes for " +:+ path) err))
              | (blake3Hash, md5Hash, None) =>
                  let key := CalculateBlake3String absPath in
                  let dbRecord :=
                    {| ID := 0;
                       Key := key;
                       Name := filepath_Base path;
                       Path := absPath;
                       Status := 0;
                       MD5 := md5Hash;
                       Blake3 := blake3Hash;
                       Size := st_Size info;
                       Tag := "";
                       MTime := st_ModTime info;
                       CTime := GetCreationTime info |} in
                  match UpsertFileInfo (scan_db s) dbRecord with
                  | (Some err, db') =>
                      (mkScan db' (scan_files_map s) processedFiles (scan_log s),
                       Some (ErrWrap ("error upserting file info for " +:+ path) err))
                  | (None, db') =>
                      (mkScan db'
                              (<[path := mkFileHashes md5Hash blake3Hash]> (scan_files_map s))
                              processedFiles
                              (scan_log s ++ [EvProgress processedFiles totalFiles absPath]),
                       None)
                  end
              end
          end
      end
  end.

(** [getFilesWithHashes]: the map of the files found, with the database. *)
Definition getFilesWithHashes `{HashLib} (os : OS) (db : DB) (dir : string)
  : result (gmap string FileHashes) * DB * list event :=
  let '(totalFiles, _) :=
    filepath_Walk os dir
      (fun path info (totalFiles : Z) =>
         match scanned_entry path info with
         | None => (totalFiles, None)
         | Some _ => (totalFiles + 1, None)
         end) 0 in
  if totalFiles =? 0 then (Ok ∅, db, [])
  else
    match filepath_Walk os dir (hashes_walk_fn os totalFiles) (mkScan db ∅ 0 []) with
    | (s, Some err) => (Err err, scan_db s, scan_log s)
    | (s, None) => (Ok (scan_files_map s), scan_db s, scan_log s)
    end.

(** [copyFile]: the destination is created (and emptied), receives what
    the reads of the source deliver, and is synced. *)
Definition copyFile (os : OS) (src dst : string) : option error * OS :=
  match os_Open os src with
  | Err err => (Some (ErrWrap "error opening source file" err), os)
  | Ok srcFile =>
      match os_Create os dst with
      | (Some err, os') => (Some (ErrWrap "error creating destination file" err), os')
      | (None, os') =>
          let srcFile :=
            if String.eqb (resolve os src) (resolve os dst) then ReadEOF [] else srcFile in
          let '(written, err, _) := io_Copy (fun acc p => acc ++ p) [] srcFile in
          let os'' :=
            with_files os'
              (<[resolve os dst := mkFile (ReadEOF written) (now os) (Some (now os))]>
                 (files os')) in
          match err with
          | Some err => (Some (ErrWrap "error copying file contents" err), os'')
          | None =>
              match sys_fault os (SysSync dst) with
              | Some _ =>
                  (Some (ErrWrap "error syncing destination file" (ErrOS "sync" dst)), os'')
              | None => (None, os'')
              end
          end
      end
  end.

(** The loop that picks the files to copy: a source file is passed over
    when some target file has both its digests. *)
Definition found_in (targetFiles : list (string * FileHashes)) (srcHashes : FileHashes)
  : bool :=
  existsb (fun target =>
             String.eqb (hashes_MD5 srcHashes) (hashes_MD5 target.2)
             && String.eqb (hashes_Blake3 srcHashes) (hashes_Blake3 target.2))
          targetFiles.

Definition files_to_copy (sourceFiles targetFiles : list (string * FileHashes))
  : list string :=
  (List.filter (fun source => negb (found_in targetFiles source.2)) sourceFiles).*1.

(** One turn of the copy loop. *)
Definition copy_one `{HashLib} (sourceDir backupDir srcPath : string) (run : Run)
  : option error * Run :=
  match filepath_Rel sourceDir srcPath with
  | Err err =>
      (Some (ErrWrap ("error calculating relative path for " +:+ srcPath) err), run)
  | Ok relPath =>
      let dstPath := filepath_Join [backupDir; relPath] in
      let dstDir := filepath_Dir dstPath in
      match os_MkdirAll (run_os run) dstDir with
      | (Some err, os') =>
          (Some (ErrWrap ("error creating directory " +:+ dstDir) err), on_os run os')
      | (None, os') =>
          let run := say (on_os run os') [EvCopying srcPath dstPath] in
          match copyFile (run_os run) srcPath dstPath with
          | (Some err, os') =>
              (Some (ErrWrap ("error copying " +:+ srcPath +:+ " to " +:+ dstPath) err),
               on_os run os')
          | (None, os') =>
              let run := on_os run os' in
              match os_Stat (run_os run) srcPath with
              | Err err =>
                  (Some (ErrWrap ("error getting file info for " +:+ srcPath) err), run)
              | Ok fileInfo =>
                  match filepath_Abs (run_os run) dstPath with
                  | Err err =>
                      (Some (ErrWrap ("error getting absolute path for " +:+ dstPath) err),
                       run)
                  | Ok absDstPath =>
                      let key := CalculateBlake3String absDstPath in
                      match FileBlake3MD5 (run_os run) dstPath with
                      | (_, _, Some err) =>
                          (Some (ErrWrap ("error calculating hashes for " +:+ dstPath) err),
                           run)
                      | (blake3Hash, md5Hash, None) =>
                          let ctime := GetCreationTime fileInfo in
                          let dbRecord :=
                            {| ID := 0;
                               Key := key;
                               Name := filepath_Base dstPath;
                               Path := absDstPath;
                               Status := 0;
                               MD5 := md5Hash;
                               Blake3 := blake3Hash;
                               Size := st_Size fileInfo;
                               Tag := "";
                               MTime := st_ModTime fileInfo;
                               CTime := ctime |} in
                          match UpsertFileInfo (run_db run) dbRecord with
                          | (Some err, db') =>
                              (Some (ErrWrap ("error upserting file info for " +:+ dstPath)
                                             err),
                               on_db run db')
                          | (None, db') => (None, on_db run db')
                          end
                      end
                  end
              end
          end
      end
  end.

Fixpoint copy_all `{HashLib} (sourceDir backupDir : string) (filesToCopy : list string)
    (run : Run) : option error * Run :=
  match filesToCopy with
  | [] => (None, run)
  | srcPath :: rest =>
      match copy_one sourceDir backupDir srcPath run with
      | (Some err, run') => (Some err, run')
      | (None, run') => copy_all sourceDir backupDir rest run'
      end
  end.

(** The dated backup directory: [FSAK_<YYMMdd>] under the target. *)
Definition backup_dir (os : OS) (targetDir : string) : string :=
  filepath_Join [targetDir; "FSAK_" +:+ today os].

(** [performMerge] *)
Definition performMerge `{HashLib} (range : RangeOrder) (os : OS) (store : DB)
    (sourceDir targetDir : string) : option error * Run :=
  match Connect store with
  | Err err => (Some (ErrWrap "error connecting to database" err), mkRun os store [])
  | Ok db =>
      let backupDir := backup_dir os targetDir in
      match os_MkdirAll os backupDir with
      | (Some err, os') =>
          (Some (ErrWrap "error creating backup directory" err), mkRun os' db [])
      | (None, os') =>
          let log := [EvProcess ("Created backup directory: " +:+ backupDir)] in
          match getFilesWithHashes os' db sourceDir with
          | (Err err, db', evs) =>
              (Some (ErrWrap "error getting source files" err), mkRun os' db' (log ++ evs))
          | (Ok sourceFiles, db', evs) =>
              let log := log ++ evs ++ [EvProcess "Found files in source directory"] in
              match getFilesWithHashes os' db' targetDir with
              | (Err err, db'', evs) =>
                  (Some (ErrWrap "error getting target files" err),
                   mkRun os' db'' (log ++ evs))
              | (Ok targetFiles, db'', evs) =>
                  let log := log ++ evs ++ [EvProcess "Found files in target directory"] in
                  let filesToCopy :=
                    files_to_copy (range _ (map_to_list sourceFiles))
                                  (range _ (map_to_list targetFiles)) in
                  copy_all sourceDir backupDir filesToCopy
                           (mkRun os' db'' (log ++ [EvProcess "Found files to copy"]))
              end
          end
      end
  end.

(** ** Vocabulary of the properties *)







(** The regular files among the entries of a walk. *)
Definition walked_files (entries : list (string * result FileStat)) : list string :=
  omap (fun e => match e.2 with
                 | Ok info => if st_IsDir info then None else Some e.1
                 | Err _ => None
                 end) entries.

(** No row of the catalog has this key. *)
Definition key_absent (k : string) (db : DB) : Prop :=
  Forall (fun r => Key r <> k) (rows db).

(** The backend answers every statement. *)
Definition healthy (db : DB) : Prop :=
  forall c, backend_fault db c = None.

(** The unique index on [key]. *)
Definition unique_keys (db : DB) : Prop := NoDup (Key <$> rows db).

(** A row whose key is the key of none of the records to delete. *)
Definition keeps (doomed : list FileInfo) (r : FileInfo) : bool :=
  negb (existsb (fun d => String.eqb (Key r) (Key d)) doomed).

(** The main goroutine has printed its last line and returned. *)
Definition completion_reported (s : Pipeline) : Prop :=
  p_main s = MainReturned /\ EvSuccess "Sync operation completed." ∈ p_log s.

(** Every path the walks of a run send to the workers has a catalog row
    under its absolute path. *)
Definition catalog_covers `{RegexpLib} (args : SyncArgs) (os : OS) (db : DB) : Prop :=
  forall dir path,
    dir ∈ arg_dirs args ->
    path ∈ (filepath_Walk os dir (sync_walk_fn (arg_blacklistPatterns args)) []).1 ->
    exists absPath row,
      filepath_Abs os path = Ok absPath /\ GetFileInfoByPath db absPath = Ok row.

(** A run that has produced no record and written nothing: the catalog is
    the one the run started with, [resultCh] and the batch are empty, no
    worker holds a record, and every path still to be processed has a
    catalog row. *)
Record quiet_run `{RegexpLib} (args : SyncArgs) (os : OS) (db : DB) (s : Pipeline) : Prop := {
  quiet_db : p_db s = db;
  quiet_resultCh : p_resultCh s = [];
  quiet_workers : Forall (fun w => w = WorkerIdle \/ w = WorkerDone) (p_workers s);
  quiet_collector : p_collector s = CollectorReceiving [] \/ p_collector s = CollectorDone;
  quiet_fileCh :
    Forall (fun path => exists absPath row,
              filepath_Abs os path = Ok absPath /\ GetFileInfoByPath db absPath = Ok row)
           (p_fileCh s);
  quiet_main :
    match p_main s with
    | MainWalking pending dirs =>
        Forall (fun path => exists absPath row,
                  filepath_Abs os path = Ok absPath /\ GetFileInfoByPath db absPath = Ok row)
               pending
        /\ Forall (fun dir => dir ∈ arg_dirs args) dirs
    | _ => True
    end
}.

(** A path element as [Clean] leaves it: not empty, not [.] or [..], and
    without a separator. *)
Definition no_slash (e : string) : Prop :=
  Forall (fun c => c <> "/"%char) (list_ascii_of_string e).

Record proper (e : string) : Prop := {
  proper_nonempty : e <> "";
  proper_not_dot : e <> ".";
  proper_not_dotdot : e <> "..";
  proper_no_slash : no_slash e
}.

(** The text that follows the first element in [join_path]. *)
Definition tail_text (rest : list string) : string :=
  fold_right (fun x acc => "/" +:+ x +:+ acc) "" rest.

(** The copies a command announced, in order. *)
Definition copies (log : list event) : list (string * string) :=
  omap (fun e => match e with EvCopying src dst => Some (src, dst) | _ => None end) log.

(** Both digests agree. *)
Definition same_hashes (a b : FileHashes) : Prop :=
  hashes_MD5 a = hashes_MD5 b /\ hashes_Blake3 a = hashes_Blake3 b.

(** A scanned source file is novel when no scanned target file has both
    its digests. *)
Definition novel (sourceFiles targetFiles : gmap string FileHashes) (srcPath : string)
  : Prop :=
  exists srcHashes,
    sourceFiles !! srcPath = Some srcHashes
    /\ forall path targetHashes,
         targetFiles !! path = Some targetHashes -> ~ same_hashes srcHashes targetHashes.

(** A [range] visits every entry of the map once. *)
Definition visits_each_once (range : RangeOrder) : Prop :=
  forall (A : Type) (l : list A), range A l ≡ₚ l.

(** The paths a scan of [getFilesWithHashes] looks at. *)
Definition scanned_paths (entries : list (string * result FileStat)) : list string :=
  omap (fun e => match scanned_entry e.1 e.2 with
                 | Some _ => Some e.1
                 | None => None
                 end) entries.

(** ** Sample data *)

(** A store that answers every statement. *)
Definition no_fault : StoreCall -> option string := fun _ => None.

(** A catalog without rows. *)
Definition empty_store (fault : StoreCall -> option string) : DB := mkDB [] 1 fault.

(** A catalog row for a path. *)
Definition sample_row (id : Z) (key path md5 b3 : string) : FileInfo :=
  mkFileInfo id key "sample" path 0 md5 b3 1 "" 0 0.

(** A file delivered by one read. *)
Definition sample_file (bytes : list byte) : File :=
  mkFile (ReadEOF bytes) 0 None.

(** A machine with the given files, on which no system call fails. *)
Definition sample_os (fs : gmap string File) : OS :=
  mkOS fs ∅ "/home/u" (fun _ => "") (Ok "/home/u") 0 "261030"
       (fun _ => []) (fun _ => None).

(** Entries of a walk: a regular file of one byte, a directory. *)
Definition file_entry (path : string) : string * result FileStat :=
  (path, Ok (mkFileStat false 1 0 None)).

Definition dir_entry (path : string) : string * result FileStat :=
  (path, Ok stat_of_dir).

(** The line feed. *)
Definition newline : string := String "010"%char EmptyString.

(** A file of two bytes delivered by two reads. *)
Definition two_reads_os : OS :=
  sample_os {[ "/data/a.txt" := mkFile (ReadMore [x41] (ReadEOF [x42])) 0 None ]}.


(** A runtime that visits a map in the order of its list of entries. *)
Definition in_order : RangeOrder := fun _ l => l.

(** A selector that ticks every option. *)
Definition tick_all : Selector := fun _ options => Ok options.

(** Sample data: two files with the same contents under [/d], scanned as
    one duplicate group, and a selector that ticks every option. *)
Definition dup_os (fault : Syscall -> option string) : OS :=
  mkOS {[ "/d/a.txt" := sample_file [x58]; "/d/b.txt" := sample_file [x58] ]}
       {[ "/d" ]} "/home/u" (fun _ => "") (Ok "/home/u") 0 "261030"
       (fun root => if String.eqb root "/d"
                    then [dir_entry "/d"; file_entry "/d/a.txt"; file_entry "/d/b.txt"]
                    else [])
       fault.

(** The store refuses to delete the row of [/d/a.txt]. *)
Definition delete_a_fails : StoreCall -> option string :=
  fun c =>
    match c with
    | DeleteByKey key =>
        if String.eqb key (@CalculateBlake3String prefix_hashes "/d/a.txt")
        then Some "database is locked" else None
    | _ => None
    end.

(** The rename of [/d/a.txt] fails (the deleted folder is on another device). *)
Definition rename_a_fails : Syscall -> option string :=
  fun c =>
    match c with
    | SysRename oldpath _ =>
        if String.eqb oldpath "/d/a.txt" then Some "invalid cross-device link" else None
    | _ => None
    end.

(** The rows a scan of [dup_os] leaves in the catalog. *)
Definition dup_row (id : Z) (path : string) : FileInfo :=
  {| ID := id;
     Key := @CalculateBlake3String prefix_hashes path;
     Name := filepath_Base path;
     Path := path;
     Status := 0;
     MD5 := hex_EncodeToString (digest (prefix_hasher 16) [x58]);
     Blake3 := hex_EncodeToString (digest (prefix_hasher 32) [x58]);
     Size := 1;
     Tag := "";
     MTime := 0;
     CTime := 0 |}.

Definition dup_group : list FileInfo := [dup_row 1 "/d/a.txt"; dup_row 2 "/d/b.txt"].

Definition dup_store (fault : StoreCall -> option string) : DB := mkDB dup_group 3 fault.

(** Sample data for the sync pipeline: one file under [/d], one worker,
    batches of ten, no blacklist. *)
Definition sync_os : OS :=
  mkOS {[ "/d/a.txt" := sample_file [x58] ]} {[ "/d" ]}
       "/home/u" (fun _ => "") (Ok "/home/u") 0 "261030"
       (fun root => if String.eqb root "/d"
                    then [dir_entry "/d"; file_entry "/d/a.txt"] else [])
       (fun _ => None).

Definition sync_args : @SyncArgs small_regexp :=
  @mkSyncArgs small_regexp ["/d"] 1 "run" false [] 10.

(** The main goroutine walks, sends and closes [fileCh]; the worker
    fingerprints the file, sends its record and leaves; the main goroutine
    closes [resultCh] and returns.  The batching goroutine is never
    scheduled. *)
Definition early_return : list Actor :=
  [ActMain; ActMain; ActMain; ActWorker 0; ActWorker 0; ActWorker 0; ActMain; ActMain].

(** The same, with the batching goroutine scheduled before the return: it
    receives the record, sees the closed channel and saves the batch. *)
Definition drained : list Actor :=
  [ActMain; ActMain; ActMain; ActWorker 0; ActWorker 0; ActWorker 0; ActMain;
   ActCollector; ActCollector; ActCollector; ActCollector; ActMain].

(** A second run over a catalog that has the file: the worker skips it. *)
Definition second_run : list Actor :=
  [ActMain; ActMain; ActMain; ActWorker 0; ActWorker 0; ActMain; ActCollector; ActMain].

(** A tree in which [Lstat] fails on one entry. *)
Definition broken_entry_os : OS :=
  mkOS {[ "/d/a.txt" := sample_file [x58]; "/d/c.txt" := sample_file [x59] ]} {[ "/d" ]}
       "/home/u" (fun _ => "") (Ok "/home/u") 0 "261030"
       (fun root => if String.eqb root "/d"
                    then [dir_entry "/d"; file_entry "/d/a.txt";
                          ("/d/b.txt", Err (ErrOS "lstat" "/d/b.txt"));
                          file_entry "/d/c.txt"]
                    else [])
       (fun _ => None).

Definition broken_entry_args : @SyncArgs small_regexp :=
  @mkSyncArgs small_regexp ["/d"] 1 "run" false [] 10.

(** A tree named by a relative path: [photos], from [/home/u]. *)
Definition photos_os : OS :=
  mkOS {[ "/home/u/photos/a.jpg" := sample_file [x58] ]} {[ "/home/u/photos" ]}
       "/home/u" (fun _ => "") (Ok "/home/u") 0 "261030"
       (fun root => if String.eqb root "photos"
                    then [dir_entry "photos"; file_entry "photos/a.jpg"] else [])
       (fun _ => None).

Definition photos_args : @SyncArgs small_regexp :=
  @mkSyncArgs small_regexp ["photos"] 1 "" false [] 10.

(** Sample data for the merge: tree [/A] with [a.txt] ("X"), [b.txt]
    ("Y") and a file named [fsak.db] ("Z"); tree [/B] with [c.txt] ("X"). *)
Definition merge_os : OS :=
  mkOS {[ "/A/a.txt" := sample_file [x58];
          "/A/b.txt" := sample_file [x59];
          "/A/fsak.db" := sample_file [x5a];
          "/B/c.txt" := sample_file [x58] ]}
       {[ "/A"; "/B" ]} "/home/u" (fun _ => "") (Ok "/home/u") 0 "261030"
       (fun root =>
          if String.eqb root "/A"
          then [dir_entry "/A"; file_entry "/A/a.txt"; file_entry "/A/b.txt";
                file_entry "/A/fsak.db"]
          else if String.eqb root "/B"
          then [dir_entry "/B"; dir_entry "/B/FSAK_261030"; file_entry "/B/c.txt"]
          else [])
       (fun _ => None).

(** ** util: the database path, and [main] *)

(** [util.GetDBPath] (and [data.GetDBPath], which calls it): the
    directory [db] of the workspace is created and the path of [fsak.db]
    in it returned. *)
Definition GetDBPath (os : OS) : result string * OS :=
  match GetWorkspaceDir os with
  | (Err err, os') => (Err err, os')
  | (Ok wsDir, os') =>
      let dbDir := filepath_Join [wsDir; "db"] in
      match os_MkdirAll os' dbDir with
      | (Some err, os'') => (Err err, os'')
      | (None, os'') => (Ok (filepath_Join [dbDir; "fsak.db"]), os'')
      end
  end.

(** The start of [main]: the workspace directory is located (and made),
    and shown with the home directory abbreviated to [~] when it lies
    under it.  [Err] is the exit with status 1. *)
Definition main_banner (os : OS) : result string * OS :=
  match GetWorkspaceDir os with
  | (Err err, os') => (Err err, os')
  | (Ok wsDir, os') =>
      let shown :=
        match home os' with
        | Ok currentUser =>
            match filepath_Rel currentUser wsDir with
            | Ok relPath =>
                if negb (String.eqb relPath "..")
                   && negb (strings_HasPrefix relPath ("../"))
                then filepath_Join ["~"; relPath]
                else wsDir
            | Err _ => wsDir
            end
        | Err _ => wsDir
        end in
      (Ok shown, os')
  end.

(** ** core/clean.go: dirty files ([clean dirty]) *)

(** [DirtyFileType], an [int] with the constants of the [iota] block. *)
Definition DirtyFileType : Type := Z.

Definition EmptyFile : DirtyFileType := 0.
Definition SmallFile : DirtyFileType := 1.
Definition MacHiddenFile : DirtyFileType := 2.
Definition WindowsHiddenFile : DirtyFileType := 3.
Definition EmptyFolder : DirtyFileType := 4.
Definition LinuxHiddenFile : DirtyFileType := 5.
Definition OfficeTempFile : DirtyFileType := 6.

(** [DirtyFileType.String] *)
Definition DirtyFileType_String (d : DirtyFileType) : string :=
  if d =? EmptyFile then "Files with size 0"
  else if d =? SmallFile then "Files smaller than 1KB"
  else if d =? MacHiddenFile then "macOS .DS_Store files"
  else if d =? WindowsHiddenFile then "Windows Thumbs.db files"
  else if d =? EmptyFolder then "Empty folders"
  else if d =? LinuxHiddenFile then "Linux/MacOS hidden files (starting with .)"
  else if d =? OfficeTempFile then "Office temporary files"
  else "Unknown".

(** [filepath.Ext]: the suffix from the last dot of the last element. *)
Fixpoint ext_from_end (reversed : list ascii) (seen : list ascii) : list ascii :=
  match reversed with
  | [] => []
  | c :: rest =>
      if Ascii.eqb c "/" then []
      else if Ascii.eqb c "." then c :: seen
      else ext_from_end rest (c :: seen)
  end.

Definition filepath_Ext (path : string) : string :=
  string_of_list_ascii (ext_from_end (rev (list_ascii_of_string path)) []).

(** [strings.TrimSuffix] *)
Definition strings_TrimSuffix (s suffix : string) : string :=
  if strings_HasSuffix s suffix
  then substring 0 (String.length s - String.length suffix) s
  else s.

(** The case tables of [unicode], which [strings.ToLower] consults for a
    string that is not all ASCII: [strings.Map(unicode.ToLower, s)]. *)
Class UnicodeLib : Type := {
  strings_Map_ToLower : string -> string
}.

Definition is_ascii (c : ascii) : bool := (N_of_ascii c <? 128)%N.

Definition ascii_lower (c : ascii) : ascii :=
  let n := N_of_ascii c in
  if ((65 <=? n) && (n <=? 90))%N then ascii_of_N (n + 32) else c.

(** [strings.ToLower] *)
Definition strings_ToLower `{UnicodeLib} (s : string) : string :=
  if forallb is_ascii (list_ascii_of_string s)
  then string_of_list_ascii (ascii_lower <$> list_ascii_of_string s)
  else strings_Map_ToLower s.

(** [isOfficeTempFile] *)
Definition isOfficeTempFile `{UnicodeLib} (fileName : string) : bool :=
  if strings_HasPrefix fileName "~$" then true
  else
    let ext := strings_ToLower (filepath_Ext fileName) in
    let tempExtensions := [".tmp"; ".temp"; ".asd"; ".wbk"; ".xlk"; ".tmp2"] in
    if existsb (fun tempExt => String.eqb ext tempExt) tempExtensions then true
    else
      let nameWithoutExt := strings_TrimSuffix fileName (filepath_Ext fileName) in
      if strings_HasSuffix nameWithoutExt "~" then true
      else false.

(** What [os.ReadDir] shows of a directory: its entries by name, and with
    each entry that is a directory what the recursive call of
    [isEmptyFolder] on [filepath.Join(folderPath, entry.Name())] reads. *)
Inductive DirEntry : Type :=
| FileEntry (name : string)
| FolderEntry (name : string) (below : Listing)
with Listing : Type :=
| ListingErr (err : error)
| ListingOk (entries : list DirEntry).

(** [os.ReadDir] by path. *)
Definition ReadDir : Type := string -> Listing.

(** The body of [isEmptyFolder] on what [os.ReadDir] shows. *)
Fixpoint empty_listing (listing : Listing) : bool :=
  match listing with
  | ListingErr _ => false
  | ListingOk entries =>
      (fix loop (entries : list DirEntry) : bool :=
         match entries with
         | [] => true
         | FolderEntry _ below :: rest =>
             if negb (empty_listing below) then false else loop rest
         | FileEntry _ :: _ => false
         end) entries
  end.

(** [isEmptyFolder] *)
Definition isEmptyFolder (readdir : ReadDir) (folderPath : string) : bool :=
  empty_listing (readdir folderPath).

(** [isDirtyFile] *)
Definition isDirtyFile `{UnicodeLib} (readdir : ReadDir) (path : string) (info : FileStat)
  : bool :=
  if st_IsDir info then isEmptyFolder readdir path
  else
    let fileName := filepath_Base path in
    if st_Size info =? 0 then true
    else if st_Size info <? 1024 then true
    else if strings_HasPrefix fileName "." && negb (String.eqb fileName ".") then true
    else if isOfficeTempFile fileName then true
    else if String.eqb fileName ".DS_Store" then true
    else if String.eqb fileName "Thumbs.db" then true
    else false.

(** [dirtyFiles[t] = append(dirtyFiles[t], path)] *)
Definition list_under (t : DirtyFileType) (path : string)
    (dirtyFiles : gmap Z (list string)) : gmap Z (list string) :=
  <[t := default [] (dirtyFiles !! t) ++ [path]]> dirtyFiles.

Definition list_if (b : bool) (t : DirtyFileType) (path : string)
    (dirtyFiles : gmap Z (list string)) : gmap Z (list string) :=
  if b then list_under t path dirtyFiles else dirtyFiles.

(** The walk callback of [findDirtyFiles]. *)
Definition dirty_walk_fn `{UnicodeLib} (readdir : ReadDir)
    (path : string) (info : result FileStat) (dirtyFiles : gmap Z (list string))
  : gmap Z (list string) * option error :=
  match info with
  | Err _ => (dirtyFiles, None)
  | Ok info =>
      if st_IsDir info then
        (list_if (isEmptyFolder readdir path) EmptyFolder path dirtyFiles, None)
      else
        let fileName := filepath_Base path in
        let dirtyFiles := list_if (st_Size info =? 0) EmptyFile path dirtyFiles in
        let dirtyFiles :=
          list_if ((0 <? st_Size info) && (st_Size info <? 1024)) SmallFile path dirtyFiles in
        let dirtyFiles :=
          list_if (strings_HasPrefix fileName "." && negb (String.eqb fileName "."))
                  LinuxHiddenFile path dirtyFiles in
        let dirtyFiles := list_if (isOfficeTempFile fileName) OfficeTempFile path dirtyFiles in
        let dirtyFiles :=
          list_if (String.eqb fileName ".DS_Store") MacHiddenFile path dirtyFiles in
        let dirtyFiles :=
          list_if (String.eqb fileName "Thumbs.db") WindowsHiddenFile path dirtyFiles in
        (dirtyFiles, None)
  end.

(** [findDirtyFiles] *)
Fixpoint findDirtyFiles_from `{UnicodeLib} (readdir : ReadDir) (os : OS)
    (folderPaths : list string) (dirtyFiles : gmap Z (list string))
  : result (gmap Z (list string)) :=
  match folderPaths with
  | [] => Ok dirtyFiles
  | folderPath :: rest =>
      match filepath_Walk os folderPath (dirty_walk_fn readdir) dirtyFiles with
      | (_, Some err) => Err (ErrWrap ("error walking folder " +:+ folderPath) err)
      | (dirtyFiles, None) => findDirtyFiles_from readdir os rest dirtyFiles
      end
  end.

Definition findDirtyFiles `{UnicodeLib} (readdir : ReadDir) (os : OS)
    (folderPaths : list string) : result (gmap Z (list string)) :=
  findDirtyFiles_from readdir os folderPaths ∅.

(** The prompt behind [util.Confirm]: the answer, or the prompt's error. *)
Definition Confirmer : Type := string -> bool -> result bool.

(** What a command without a database holds while it runs. *)
Record Session : Type := mkSession {
  s_os : OS;
  s_log : list event
}.

Definition told (s : Session) (evs : list event) : Session :=
  mkSession (s_os s) (s_log s ++ evs).

(** How a call ends: it returns (an error or [nil]), it panics, or a loop
    of it is still running when the fuel of the model is used up. *)
Inductive Ending : Type :=
| Returns (err : option error)
| Panics (why : string)
| StillRunning.

Definition allDirtyTypes : list DirtyFileType :=
  [EmptyFile; SmallFile; MacHiddenFile; WindowsHiddenFile; EmptyFolder; LinuxHiddenFile;
   OfficeTempFile].

(** The types chosen: all of them when nothing is ticked, else, for each
    ticked option, the first type with that label. *)
Definition selected_types (selectedOptions : list string) : list DirtyFileType :=
  match selectedOptions with
  | [] => allDirtyTypes
  | _ =>
      omap (fun selectedOption =>
              List.find (fun dirtyType =>
                           String.eqb (DirtyFileType_String dirtyType) selectedOption)
                        allDirtyTypes)
           selectedOptions
  end.

(** [filteredDirtyFiles]: the lists of the chosen types. *)
Definition filter_types (selectedDirtyTypes : list DirtyFileType)
    (dirtyFiles : gmap Z (list string)) : gmap Z (list string) :=
  fold_left
    (fun filteredDirtyFiles dt =>
       match dirtyFiles !! dt with
       | Some files => <[dt := files]> filteredDirtyFiles
       | None => filteredDirtyFiles
       end)
    selectedDirtyTypes ∅.

(** The listing printed for one type, and its count. *)
Definition display_type (entry : Z * list string) : list event * Z :=
  match entry.2 with
  | [] => ([], 0)
  | files =>
      (EvProcess (DirtyFileType_String entry.1 +:+ " ("
                  +:+ pretty (Z.of_nat (length files)) +:+ "):")
       :: ((fun file => EvProcess ("  " +:+ file)) <$> files),
       Z.of_nat (length files))
  end.

(** The loop that looks for a destination not yet taken, for a directory. *)
Fixpoint fresh_dest (fuel : nat) (os : OS) (originalDestPath destPath : string)
    (counter : Z) : option string :=
  match fuel with
  | O => None
  | S fuel =>
      let taken :=
        match os_Stat os destPath with
        | Ok _ => true
        | Err err => negb (os_IsNotExist err)
        end in
      if taken then
        let ext := filepath_Ext originalDestPath in
        let name := strings_TrimSuffix originalDestPath ext in
        fresh_dest fuel os originalDestPath
                   (name +:+ "_" +:+ pretty counter +:+ ext) (counter + 1)
      else Some destPath
  end.

(** Where a dirty file is to go: its path relative to the first folder
    (its base name when there is none), below [deleteToDir]. *)
Definition dirty_target (first deleteToDir file : string) : string :=
  let relPath :=
    match filepath_Rel first file with
    | Ok relPath => relPath
    | Err _ => filepath_Base file
    end in
  filepath_Join [deleteToDir; relPath].

(** One turn of the deletion loop of [handleDirtyFiles]. *)
Definition move_dirty (fuel : nat) (folderPaths : list string) (deleteToDir file : string)
    (s : Session) (filesDeleted : Z) : option Ending * Session * Z :=
  match folderPaths with
  | [] => (Some (Panics "index out of range [0] with length 0"), s, filesDeleted)
  | first :: _ =>
      let destPath := dirty_target first deleteToDir file in
      let found :=
        match os_Stat (s_os s) file with
        | Ok info =>
            if st_IsDir info then fresh_dest fuel (s_os s) destPath destPath 1
            else Some destPath
        | Err _ => Some destPath
        end in
      match found with
      | None => (Some StillRunning, s, filesDeleted)
      | Some destPath =>
          let destDir := filepath_Dir destPath in
          match os_MkdirAll (s_os s) destDir with
          | (Some err, os') =>
              (None,
               mkSession os' (s_log s ++ [EvError "Error creating destination directory" file]),
               filesDeleted)
          | (None, os') =>
              match os_Rename os' file destPath with
              | (Some err, os'') =>
                  (None, mkSession os'' (s_log s ++ [EvError "Error moving" file]),
                   filesDeleted)
              | (None, os'') =>
                  (None, mkSession os'' (s_log s ++ [EvMoved file destPath]),
                   filesDeleted + 1)
              end
          end
      end
  end.

Fixpoint move_all (fuel : nat) (folderPaths : list string) (deleteToDir : string)
    (files : list string) (s : Session) (filesDeleted : Z) : option Ending * Session * Z :=
  match files with
  | [] => (None, s, filesDeleted)
  | file :: rest =>
      match move_dirty fuel folderPaths deleteToDir file s filesDeleted with
      | (Some ending, s', n) => (Some ending, s', n)
      | (None, s', n) => move_all fuel folderPaths deleteToDir rest s' n
      end
  end.

(** [handleDirtyFiles] *)
Definition handleDirtyFiles `{UnicodeLib} (display_order delete_order : RangeOrder)
    (ui : Selector) (confirm : Confirmer) (readdir : ReadDir) (fuel : nat)
    (os : OS) (folderPaths : list string) (listOnly : bool) (deleteToDir : string)
  : Ending * Session :=
  let options := DirtyFileType_String <$> allDirtyTypes in
  match SelectMultiple ui "Select types of dirty files to clean (default: all selected):"
                       options with
  | Err err => (Returns (Some (ErrWrap "error getting user selection" err)), mkSession os [])
  | Ok selectedOptions =>
      let selectedDirtyTypes := selected_types selectedOptions in
      match selectedDirtyTypes with
      | [] =>
          (Returns None,
           mkSession os [EvSuccess "No dirty file types selected. Nothing to do."])
      | _ =>
          match findDirtyFiles readdir os folderPaths with
          | Err err =>
              (Returns (Some (ErrWrap "error finding dirty files" err)), mkSession os [])
          | Ok dirtyFiles =>
              let filteredDirtyFiles := filter_types selectedDirtyTypes dirtyFiles in
              let shown := display_type <$> display_order _ (map_to_list filteredDirtyFiles) in
              let totalFiles := foldr Z.add 0 (shown.*2) in
              let s := mkSession os (concat (shown.*1)) in
              if totalFiles =? 0 then
                (Returns None,
                 told s [EvSuccess "No dirty files found matching your selection."])
              else
                let s := told s [EvProcess ("Total dirty files found: " +:+ pretty totalFiles)] in
                if listOnly then
                  (Returns None, told s [EvSuccess "Listing only - no files were deleted."])
                else
                  match confirm "Do you want to proceed with deletion? (y/N)" false with
                  | Err err =>
                      (Returns (Some (ErrWrap "error getting confirmation" err)), s)
                  | Ok false =>
                      (Returns None, told s [EvSuccess "Operation cancelled by user."])
                  | Ok true =>
                      match os_MkdirAll (s_os s) deleteToDir with
                      | (Some err, os') =>
                          (Returns (Some (ErrWrap ("error creating delete directory "
                                                   +:+ deleteToDir) err)),
                           mkSession os' (s_log s))
                      | (None, os') =>
                          let files :=
                            concat (delete_order _ (map_to_list filteredDirtyFiles)).*2 in
                          match move_all fuel folderPaths deleteToDir files
                                         (mkSession os' (s_log s)) 0 with
                          | (Some ending, s', _) => (ending, s')
                          | (None, s', filesDeleted) =>
                              (Returns None,
                               told s' [EvSuccess ("Successfully moved " +:+ pretty filesDeleted
                                                   +:+ " dirty files to " +:+ deleteToDir)])
                          end
                      end
                  end
          end
      end
  end.

(** ** util: the single hashes *)

(** [CalculateMD5] *)
Definition CalculateMD5 `{HashLib} (os : OS) (filePath : string) : result string :=
  match os_Open os filePath with
  | Err err => Err err
  | Ok file =>
      match io_Copy (h_write md5_New) (h_new md5_New) file with
      | (_, Some err, _) => Err err
      | (hash, None, _) => Ok (hex_EncodeToString (h_sum md5_New hash))
      end
  end.

(** [CalculateMD5String] *)
Definition CalculateMD5String `{HashLib} (data : string) : string :=
  hex_EncodeToString (digest md5_New (bytes_of_string data)).

(** ** Vocabulary of the further properties *)

(** The rows after an update of the row that holds the key of [fi]. *)
Definition overwrite_row (fi : FileInfo) (rs : list FileInfo) : list FileInfo :=
  (fun r => if String.eqb (Key r) (Key fi) then set_ID (ID r) fi else r) <$> rs.

(** The rows whose key is not [k]. *)
Definition other_rows (k : string) (rs : list FileInfo) : list FileInfo :=
  List.filter (fun r => negb (String.eqb (Key r) k)) rs.

(** Some row holds the key. *)
Definition key_present (k : string) (db : DB) : bool :=
  existsb (fun r => String.eqb (Key r) k) (rows db).

(** Every row with the path of [fi] has its key. *)
Definition path_has_key (fi : FileInfo) (db : DB) : Prop :=
  Forall (fun r => Path r = Path fi -> Key r = Key fi) (rows db).

(** A row keyed by the digest of its own path. *)
Definition keyed_by_path `{HashLib} (r : FileInfo) : Prop :=
  Key r = CalculateBlake3String (Path r).

(** A row keyed by the digest of its path, the path being absolute. *)
Definition keyed_by_abs_path `{HashLib} (r : FileInfo) : Prop :=
  keyed_by_path r /\ filepath_IsAbs (Path r) = true.

(** The records a worker holds to send. *)
Definition worker_record (w : Worker) : list FileInfo :=
  match w with WorkerSending fileInfo => [fileInfo] | _ => [] end.

(** The records the batching goroutine holds. *)
Definition collector_records (c : Collector) : list FileInfo :=
  match c with
  | CollectorReceiving batch => batch
  | CollectorSaving todo batch _ => todo ++ batch
  | CollectorDone => []
  end.

(** What holds of a run of the pipeline: the rows of the catalog
    satisfy [P], the records on their way to it satisfy [Q], and the paths
    on their way to the workers satisfy [W]. *)
Record run_ok `{RegexpLib} (args : SyncArgs) (P Q : FileInfo -> Prop) (W : string -> Prop)
    (s : Pipeline) : Prop := {
  ok_rows : Forall P (rows (p_db s));
  ok_resultCh : Forall Q (p_resultCh s);
  ok_workers : Forall (fun w => Forall Q (worker_record w)) (p_workers s);
  ok_collector : Forall Q (collector_records (p_collector s));
  ok_fileCh : Forall W (p_fileCh s);
  ok_main :
    match p_main s with
    | MainWalking pending dirs =>
        Forall W pending /\ Forall (fun dir => dir ∈ arg_dirs args) dirs
    | _ => True
    end
}.

(** A record made by this run for a regular file of one of its walks that
    no blacklist pattern matches. *)
Definition record_of_walk `{RegexpLib} (args : SyncArgs) (os : OS) (r : FileInfo) : Prop :=
  exists dir path info,
    dir ∈ arg_dirs args /\ (path, Ok info) ∈ walk os dir
    /\ st_IsDir info = false
    /\ shouldSkip (arg_blacklistPatterns args) path = false
    /\ filepath_Abs os path = Ok (Path r)
    /\ Tag r = arg_tag args.

(** The paths the walk of a directory sends to the workers. *)
Definition sent_paths `{RegexpLib} (os : OS) (blacklistPatterns : list Regexp) (dir : string)
  : list string :=
  (filepath_Walk os dir (sync_walk_fn blacklistPatterns) []).1.

(** The files a run still has to account for: those on their way through
    the channels and the goroutines, and those of the walks to come. *)
Definition in_flight `{RegexpLib} (args : SyncArgs) (os : OS) (s : Pipeline) : Z :=
  Z.of_nat
    (match p_main s with
     | MainWalking pending dirs =>
         length pending
         + length (dirs ≫= sent_paths os (arg_blacklistPatterns args))
     | _ => 0
     end
     + length (p_fileCh s)
     + length (p_workers s ≫= worker_record)
     + length (p_resultCh s)
     + match p_collector s with
       | CollectorReceiving batch => length batch
       | CollectorSaving _ batch _ => length batch
       | CollectorDone => 0
       end)%nat.

(** The [current] and [total] of the progress lines printed. *)
Definition progress_counts (log : list event) : list (Z * Z) :=
  omap (fun e => match e with EvProgress current total _ => Some (current, total)
                            | _ => None end) log.

(** The progress counter accounts for the files of the run: it and the
    files still on their way never pass the total counted at the start,
    and every progress line printed lies within the total. *)
Record progress_ok `{RegexpLib} (args : SyncArgs) (os : OS) (s : Pipeline) : Prop := {
  count_nonneg : 0 <= p_count s;
  count_in_flight : p_count s + in_flight args os s <= p_totalFiles s;
  log_within_total :
    Forall (fun ct => 0 < ct.1 <= ct.2 /\ ct.2 = p_totalFiles s)
           (progress_counts (p_log s))
}.


(** The bytes of the regular file at a path, if there is one. *)
Definition file_bytes (os : OS) (path : string) : option (list byte) :=
  (fun f => stream_bytes (f_reads f)) <$> files os !! resolve os path.

(** The copies announced so far have a row under the key of their
    destination. *)
Definition copies_catalogued `{HashLib} (os : OS) (run : Run) : Prop :=
  forall src dst, (src, dst) ∈ copies (run_log run) ->
    exists absDst, filepath_Abs os dst = Ok absDst
                   /\ CalculateBlake3String absDst ∈ Key <$> rows (run_db run).

(** The scanned files with a given grouping key, in the order of the scan. *)
Definition with_group_key (k : string) (visited : list FileInfo) : list FileInfo :=
  List.filter (fun fileInfo => String.eqb (group_key fileInfo) k) visited.

(** The moves a command reports, in order. *)
Definition moves (log : list event) : list (string * string) :=
  omap (fun e => match e with EvMoved from to => Some (from, to) | _ => None end) log.



(** The test [findDirtyFiles] makes for a type on an entry of the walk. *)
Definition dirty_criterion `{UnicodeLib} (readdir : ReadDir) (t : DirtyFileType)
    (path : string) (info : FileStat) : bool :=
  if st_IsDir info then (t =? EmptyFolder) && isEmptyFolder readdir path
  else
    let fileName := filepath_Base path in
    (t =? EmptyFile) && (st_Size info =? 0)
    || (t =? SmallFile) && ((0 <? st_Size info) && (st_Size info <? 1024))
    || (t =? LinuxHiddenFile)
       && (strings_HasPrefix fileName "." && negb (String.eqb fileName "."))
    || (t =? OfficeTempFile) && isOfficeTempFile fileName
    || (t =? MacHiddenFile) && String.eqb fileName ".DS_Store"
    || (t =? WindowsHiddenFile) && String.eqb fileName "Thumbs.db".

(** The entries of a walk that meet the test of a type, in walk order. *)
Definition listed_under `{UnicodeLib} (readdir : ReadDir) (t : DirtyFileType)
    (entries : list (string * result FileStat)) : list string :=
  omap (fun e => match e.2 with
                 | Ok info => if dirty_criterion readdir t e.1 info then Some e.1 else None
                 | Err _ => None
                 end) entries.

(** A map that holds, under each key, the list [L] gives for it, and no
    empty list. *)
Definition holds_lists (m : gmap Z (list string)) (L : Z -> list string) : Prop :=
  forall t, m !! t = match L t with [] => None | files => Some files end.

(** The failures a command reports, in order. *)
Definition failures (log : list event) : list string :=
  omap (fun e => match e with EvError _ path => Some path | _ => None end) log.

(** ** Further sample data *)

(** A catalog with one row. *)
Definition one_row_store : DB :=
  mkDB [sample_row 1 "k1" "/data/a.txt" "m" "b"] 2 no_fault.

(** A record for another file, not yet in the catalog. *)
Definition new_record : FileInfo := sample_row 0 "k2" "/data/b.txt" "m2" "b2".

(** A machine with nothing but the home directory, on which no system
    call fails. *)
Definition sample_os_home : OS := sample_os ∅.

(** A machine with the file [/A/a.txt] ("X") in the directory [/A]. *)
Definition copy_os : OS :=
  mkOS {[ "/A/a.txt" := sample_file [x58] ]} {[ "/A" ]}
       "/home/u" (fun _ => "") (Ok "/home/u") 7 "261030" (fun _ => []) (fun _ => None).

(** Case tables that leave a string that is not all ASCII as it is. *)
Definition no_case_tables : UnicodeLib := {| strings_Map_ToLower := fun s => s |}.

(** [os.ReadDir] on the tree of [dup_os]: two regular files in [/d]. *)
Definition dup_readdir : ReadDir :=
  fun path =>
    if String.eqb path "/d" then ListingOk [FileEntry "a.txt"; FileEntry "b.txt"]
    else ListingErr (ErrNotExist path).

(** A user who confirms every prompt. *)
Definition confirm_yes : Confirmer := fun _ _ => Ok true.

(* ================================================================== *)
(** * Part II: properties                                              *)
(* ================================================================== *)

(** ** The library models on the examples of their documentation *)

Example hex_EncodeToString_example :
  hex_EncodeToString [xde; xad; xbe; xef; x00; x0a] = "deadbeef000a".
Proof. reflexivity. Qed.

Example filepath_Clean_examples :
  filepath_Clean <$> ["a/c"; "a//c"; "a/c/."; "a/c/b/.."; "/../a/c"; "/../a/b/../././/c"; ""; "../x"]
  = ["a/c"; "a/c"; "a/c"; "a/c"; "/a/c"; "/a/c"; "."; "../x"].
Proof. vm_compute. reflexivity. Qed.

Example filepath_Join_examples :
  filepath_Join <$> [["a"; "b"; "c"]; ["a"; "b/c"]; ["a/b"; "c"]; ["a/b"; "/c"];
                     ["a/b"; "../../../xyz"]; [""; ""]; ["a"; ""]]
  = ["a/b/c"; "a/b/c"; "a/b/c"; "a/b/c"; "../xyz"; ""; "a"].
Proof. vm_compute. reflexivity. Qed.

Example filepath_Rel_examples :
  filepath_Rel "/a" <$> ["/a/b/c"; "/b/c"; "./b/c"; "/a"]
  = [Ok "b/c"; Ok "../b/c";
     Err (ErrMsg "Rel: can't make ./b/c relative to /a"); Ok "."].
Proof. vm_compute. reflexivity. Qed.

Example filepath_Base_Dir_examples :
  (fun p => (filepath_Base p, filepath_Dir p))
    <$> ["/foo/bar/baz.js"; "/foo/bar/baz"; "/foo/bar/baz/"; "dev.txt"; "../todo.txt"; "/"; ""]
  = [("baz.js", "/foo/bar"); ("baz", "/foo/bar"); ("baz", "/foo/bar/baz");
     ("dev.txt", "."); ("todo.txt", ".."); ("/", "/"); (".", ".")].
Proof. vm_compute. reflexivity. Qed.

Example strings_TrimSpace_example :
  strings_TrimSpace (" " +:+ String "009" ("Hello, Gophers " +:+ newline) +:+ " ")
  = "Hello, Gophers".
Proof. vm_compute. reflexivity. Qed.

Example scanner_lines_example :
  scanner_lines (ReadMore (bytes_of_string ("a" +:+ newline))
                          (ReadEOF (bytes_of_string (newline +:+ "b" +:+ String "013" newline
                                                     +:+ "last"))))
  = (["a"; ""; "b"; "last"], None).
Proof. vm_compute. reflexivity. Qed.

(** ** The catalog *)

Lemma with_rows_same (db : DB) : with_rows db (rows db) = db.
Proof. by destruct db. Qed.

Lemma filter_key_absent (k : string) (rs : list FileInfo) :
  Forall (fun r => Key r <> k) rs ->
  List.filter (fun r => negb (String.eqb (Key r) k)) rs = rs.
Proof.
  induction 1 as [|r rs Hr _ IH]; simpl; [done|].
  destruct (String.eqb_spec (Key r) k); simpl; [done|]. by rewrite IH.
Qed.

Lemma faulty_healthy (db : DB) (c : StoreCall) : healthy db -> faulty db c = None.
Proof. intros H. unfold faulty. by rewrite H. Qed.

(** C10.  Deleting a key that no row holds changes no row, and the only
    error [DeleteFileInfo] can then return is the backend's own failure of
    the statement: with the backend answering, the call succeeds and the
    catalog is the one it was. *)
Theorem DeleteFileInfo_absent_key (db : DB) (k : string) :
  key_absent k db ->
  rows (DeleteFileInfo db k).2 = rows db
  /\ (DeleteFileInfo db k).1 = faulty db (DeleteByKey k)
  /\ (backend_fault db (DeleteByKey k) = None -> DeleteFileInfo db k = (None, db)).
Proof.
  intros Habs. unfold DeleteFileInfo, faulty.
  destruct (backend_fault db (DeleteByKey k)) as [msg|] eqn:Hf; simpl.
  - repeat split; done.
  - rewrite (filter_key_absent k (rows db) Habs), with_rows_same. done.
Qed.

Lemma DeleteFileInfo_absent_key_witness :
  let db := mkDB [sample_row 1 "k1" "/data/a.txt" "m" "b"] 2 no_fault in
  rows (DeleteFileInfo db "k2").2 = rows db
  /\ (DeleteFileInfo db "k2").1 = faulty db (DeleteByKey "k2")
  /\ (backend_fault db (DeleteByKey "k2") = None -> DeleteFileInfo db "k2" = (None, db)).
Proof.
  apply (DeleteFileInfo_absent_key
           (mkDB [sample_row 1 "k1" "/data/a.txt" "m" "b"] 2 no_fault) "k2").
  repeat constructor. simpl. discriminate.
Defined.

(** *** Upserts keep the schema's invariant and the identity of a row *)

Lemma NoDup_fmap_inj_on {A B} (f : A -> B) (l : list A) (x y : A) :
  NoDup (f <$> l) -> x ∈ l -> y ∈ l -> f x = f y -> x = y.
Proof.
  induction l as [|a l IH]; intros Hnd Hx Hy Hxy; [by apply elem_of_nil in Hx|].
  rewrite fmap_cons in Hnd. apply NoDup_cons in Hnd as [Hna Hnd].
  apply elem_of_cons in Hx as [->|Hx]; apply elem_of_cons in Hy as [->|Hy].
  - done.
  - destruct Hna. rewrite Hxy. by apply list_elem_of_fmap_2.
  - destruct Hna. rewrite <- Hxy. by apply list_elem_of_fmap_2.
  - by apply IH.
Qed.

Lemma NoDup_fmap_filter {A B} (f : A -> B) (g : A -> bool) (l : list A) :
  NoDup (f <$> l) -> NoDup (f <$> List.filter g l).
Proof.
  induction l as [|x l IH]; simpl; [done|].
  rewrite NoDup_cons. intros [Hx Hl]. destruct (g x); [|by apply IH].
  rewrite fmap_cons. apply NoDup_cons. split; [|by apply IH].
  intros (y & Hy & Hin)%list_elem_of_fmap. apply Hx.
  apply list_elem_of_fmap. exists y. split; [done|].
  apply list_elem_of_In. apply list_elem_of_In, filter_In in Hin. tauto.
Qed.

Lemma DeleteFileInfo_wf (db : DB) (key : string) :
  catalog_wf db -> catalog_wf (DeleteFileInfo db key).2.
Proof.
  intros [Hids Hkeys Hnext]. unfold DeleteFileInfo.
  destruct (faulty db (DeleteByKey key)); [by split|].
  split; simpl.
  - by apply NoDup_fmap_filter.
  - by apply NoDup_fmap_filter.
  - apply Forall_forall. intros r Hr. rewrite Forall_forall in Hnext. apply Hnext.
    apply list_elem_of_In. apply list_elem_of_In, filter_In in Hr. tauto.
Qed.

Lemma find_some_elem {A} (f : A -> bool) (l : list A) (x : A) :
  List.find f l = Some x -> x ∈ l /\ f x = true.
Proof. intros H. apply find_some in H as [H1 H2]. by apply list_elem_of_In in H1. Qed.

Lemma existsb_false_forall {A} (f : A -> bool) (l : list A) :
  existsb f l = false <-> forall x, x ∈ l -> f x = false.
Proof.
  induction l as [|a l IH]; simpl.
  - split; [|done]. intros _ x Hx. by apply elem_of_nil in Hx.
  - rewrite orb_false_iff, IH. split.
    + intros [Ha Hl] x [->|Hx]%elem_of_cons; auto.
    + intros H. split; [apply H; by left|]. intros x Hx. apply H. by right.
Qed.

Lemma Create_wf (db : DB) (fi : FileInfo) :
  catalog_wf db -> catalog_wf (Create db fi).2.
Proof.
  intros [Hids Hkeys Hnext]. unfold Create.
  destruct (faulty db (InsertRow (Key fi))); [by split|].
  set (id := if ID fi =? 0 then next_id db else ID fi).
  destruct (existsb _ (rows db)) eqn:Hex; [by split|].
  pose proof (proj1 (existsb_false_forall _ _) Hex) as Hfree.
  split; simpl.
  - rewrite fmap_app. apply NoDup_app. split; [done|]. split; [|apply NoDup_singleton].
    intros x (r & -> & Hr)%list_elem_of_fmap Heq%list_elem_of_singleton.
    specialize (Hfree r Hr). apply orb_false_iff in Hfree as [Hid _].
    simpl in Heq. fold id in Heq. lia.
  - rewrite fmap_app. apply NoDup_app. split; [done|]. split; [|apply NoDup_singleton].
    intros x (r & -> & Hr)%list_elem_of_fmap Heq%list_elem_of_singleton.
    specialize (Hfree r Hr). apply orb_false_iff in Hfree as [_ Hk].
    simpl in Heq. rewrite Heq, String.eqb_refl in Hk. discriminate.
  - apply Forall_app. split.
    + eapply Forall_impl; [exact Hnext|]. simpl. intros r Hr. lia.
    + constructor; [|constructor]. simpl. lia.
Qed.

Lemma fmap_map_same {A B} (proj : A -> B) (g : A -> A) (l : list A) :
  (forall x, x ∈ l -> proj (g x) = proj x) ->
  proj <$> List.map g l = proj <$> l.
Proof.
  induction l as [|a l IH]; intros H; [done|].
  cbn [List.map]. rewrite !fmap_cons, IH, H; [done|by left|].
  intros x Hx. apply H. by right.
Qed.

Lemma Save_existing_wf (db : DB) (fi : FileInfo) (existing : FileInfo) :
  catalog_wf db ->
  existing ∈ rows db ->
  Key existing = Key fi ->
  catalog_wf (Save db (set_ID (ID existing) fi)).2
  /\ length (rows (Save db (set_ID (ID existing) fi)).2) = length (rows db)
  /\ ID <$> rows (Save db (set_ID (ID existing) fi)).2 = ID <$> rows db.
Proof.
  intros [Hids Hkeys Hnext] Hin Hkey. unfold Save. cbn [ID Key set_ID].
  destruct (faulty db _); [by repeat split|].
  destruct (existsb _ (rows db)) eqn:Hother; [by repeat split|].
  assert (Hhas : existsb (fun r => ID r =? ID existing) (rows db) = true).
  { apply existsb_exists. exists existing. split; [by apply list_elem_of_In|].
    apply Z.eqb_refl. }
  rewrite Hhas. cbn [snd with_rows rows next_id].
  assert (Hsame : forall r, r ∈ rows db -> ID r = ID existing -> r = existing).
  { intros r Hr Hid. by apply (NoDup_fmap_inj_on ID (rows db)). }
  assert (Hidmap : ID <$> List.map (fun r => if ID r =? ID existing
                                             then set_ID (ID existing) fi else r) (rows db)
                   = ID <$> rows db).
  { apply fmap_map_same. intros r _.
    destruct (Z.eqb_spec (ID r) (ID existing)); [|done]. by simpl. }
  assert (Hkeymap : Key <$> List.map (fun r => if ID r =? ID existing
                                               then set_ID (ID existing) fi else r) (rows db)
                    = Key <$> rows db).
  { apply fmap_map_same. intros r Hr.
    destruct (Z.eqb_spec (ID r) (ID existing)) as [Heq|]; [|done].
    simpl. rewrite (Hsame r Hr Heq). congruence. }
  split; [split; simpl|].
  - by rewrite Hidmap.
  - by rewrite Hkeymap.
  - apply Forall_forall. intros r Hr. apply list_elem_of_In, in_map_iff in Hr.
    destruct Hr as (r0 & <- & Hr0). apply list_elem_of_In in Hr0.
    rewrite Forall_forall in Hnext.
    destruct (Z.eqb_spec (ID r0) (ID existing)) as [Heq|]; [|by apply Hnext].
    simpl. rewrite <- Heq. by apply Hnext.
  - split; [by rewrite length_map|done].
Qed.

(** [UpsertFileInfo] keeps primary keys and [key] values unique. *)
Lemma UpsertFileInfo_wf (db : DB) (fileInfo : FileInfo) :
  catalog_wf db -> catalog_wf (UpsertFileInfo db fileInfo).2.
Proof.
  intros Hwf. unfold UpsertFileInfo, first_by_key, faulty.
  destruct (backend_fault db (SelectByKey (Key fileInfo))); [exact Hwf|].
  cbn [fmap option_fmap option_map].
  destruct (List.find _ (rows db)) as [existing|] eqn:Hfind.
  - apply find_some_elem in Hfind as [Hin Hkey]. apply String.eqb_eq in Hkey.
    by apply Save_existing_wf.
  - simpl. by apply Create_wf.
Qed.

(** Re-cataloguing a key the catalog holds overwrites that row and keeps
    its primary key: no row is added, and the primary keys of the table are
    the ones they were. *)
Lemma UpsertFileInfo_existing_key (db : DB) (fileInfo existing : FileInfo) :
  catalog_wf db ->
  existing ∈ rows db ->
  Key existing = Key fileInfo ->
  length (rows (UpsertFileInfo db fileInfo).2) = length (rows db)
  /\ ID <$> rows (UpsertFileInfo db fileInfo).2 = ID <$> rows db
  /\ (healthy db ->
      (UpsertFileInfo db fileInfo).1 = None
      /\ set_ID (ID existing) fileInfo ∈ rows (UpsertFileInfo db fileInfo).2).
Proof.
  intros Hwf Hin Hkey. unfold UpsertFileInfo, first_by_key, faulty.
  destruct (backend_fault db (SelectByKey (Key fileInfo))) eqn:Hf.
  { split; [done|]. split; [done|]. intros Hh. by rewrite Hh in Hf. }
  cbn [fmap option_fmap option_map].
  destruct (List.find _ (rows db)) as [found|] eqn:Hfind.
  2: { exfalso. pose proof (find_none _ _ Hfind existing) as Hno.
       simpl in Hno. rewrite Hkey, String.eqb_refl in Hno.
       apply list_elem_of_In in Hin. by specialize (Hno Hin). }
  apply find_some_elem in Hfind as [Hfin Hfkey]. apply String.eqb_eq in Hfkey.
  assert (found = existing) as ->.
  { apply (NoDup_fmap_inj_on Key (rows db)); [apply Hwf|done..|congruence]. }
  destruct (Save_existing_wf db fileInfo existing Hwf Hin Hkey) as (_ & Hlen & Hids).
  split; [done|]. split; [done|]. intros Hh.
  unfold Save. cbn [ID Key set_ID]. rewrite (faulty_healthy _ _ Hh).
  assert (Hother : existsb (fun r => negb (ID r =? ID existing)
                                     && String.eqb (Key r) (Key fileInfo)) (rows db) = false).
  { apply existsb_false_forall. intros r Hr.
    destruct (String.eqb_spec (Key r) (Key fileInfo)) as [Heq|]; [|by rewrite andb_false_r].
    assert (r = existing) as ->
      by (apply (NoDup_fmap_inj_on Key (rows db)); [apply Hwf|done..|congruence]).
    by rewrite Z.eqb_refl. }
  rewrite Hother.
  assert (Hhas : existsb (fun r => ID r =? ID existing) (rows db) = true).
  { apply existsb_exists. exists existing. split; [by apply list_elem_of_In|].
    apply Z.eqb_refl. }
  rewrite Hhas. split; [done|]. cbn [snd with_rows rows].
  apply list_elem_of_In, in_map_iff. exists existing.
  rewrite Z.eqb_refl. split; [done|by apply list_elem_of_In].
Qed.

(** ** The cleaning pass *)

Lemma check_records_fst (os : OS) (total i : Z) (rs : list FileInfo) :
  (check_records os total i rs).1 = List.filter (path_is_gone os) rs.
Proof.
  revert i. induction rs as [|r rs IH]; intros i; simpl; [done|].
  specialize (IH (i + 1)). destruct (check_records os total (i + 1) rs) as [l lg].
  simpl in *. by rewrite IH.
Qed.

Lemma filter_filter_keeps (d : FileInfo) (doomed rs : list FileInfo) :
  List.filter (keeps doomed) (List.filter (fun r => negb (String.eqb (Key r) (Key d))) rs)
  = List.filter (keeps (d :: doomed)) rs.
Proof.
  induction rs as [|r rs IH]; simpl; [done|].
  unfold keeps at 2. simpl.
  destruct (String.eqb (Key r) (Key d)); simpl; [done|].
  fold (keeps doomed r). destruct (keeps doomed r); by rewrite IH.
Qed.

Lemma filter_keeps_nil (rs : list FileInfo) : List.filter (keeps []) rs = rs.
Proof. induction rs as [|r rs IH]; simpl; [done|]. by rewrite IH. Qed.

Lemma delete_records_healthy (db : DB) (doomed : list FileInfo) (n : Z) :
  healthy db ->
  exists log,
    delete_records db doomed n
    = (None, with_rows db (List.filter (keeps doomed) (rows db)),
       n + Z.of_nat (length doomed), log).
Proof.
  intros Hh. revert db n Hh. induction doomed as [|d doomed IH]; intros db n Hh.
  - exists []. simpl. rewrite filter_keeps_nil, with_rows_same, Z.add_0_r. done.
  - cbn [delete_records]. unfold DeleteFileInfo.
    rewrite (faulty_healthy db _ Hh).
    set (db1 := with_rows db _).
    destruct (IH db1 (n + 1)) as [log Hlog]; [intros c; apply Hh|].
    rewrite Hlog. eexists.
    replace (n + 1 + Z.of_nat (length doomed)) with (n + Z.of_nat (length (d :: doomed)))
      by (simpl length; lia).
    unfold db1, with_rows. simpl rows. rewrite filter_filter_keeps. simpl. reflexivity.
Qed.

Lemma keeps_gone_rows (os : OS) (rs : list FileInfo) :
  NoDup (Key <$> rs) ->
  List.filter (keeps (List.filter (path_is_gone os) rs)) rs
  = List.filter (fun r => negb (path_is_gone os r)) rs.
Proof.
  intros Hnd. apply filter_ext_in_iff. intros r Hr.
  unfold keeps. f_equal.
  destruct (path_is_gone os r) eqn:Hg.
  - apply existsb_exists. exists r. split; [|apply String.eqb_refl].
    apply filter_In. done.
  - apply not_true_is_false. intros [d [Hd Heq]]%existsb_exists.
    apply filter_In in Hd as [Hd Hgd]. apply String.eqb_eq in Heq.
    assert (r = d) as ->; [|congruence].
    apply list_elem_of_In in Hr, Hd.
    eapply (NoDup_fmap_inj_on Key rs); eauto.
Qed.

Lemma delete_records_done (db db' : DB) (doomed : list FileInfo) (n n' : Z)
    (log : list event) :
  delete_records db doomed n = (None, db', n', log) ->
  rows db' = List.filter (keeps doomed) (rows db).
Proof.
  revert db n n' log. induction doomed as [|d doomed IH]; intros db n n' log Hd.
  - injection Hd as <- _ _. by rewrite filter_keeps_nil.
  - cbn [delete_records] in Hd. unfold DeleteFileInfo in Hd.
    destruct (faulty db (DeleteByKey (Key d))); [discriminate|].
    destruct (delete_records _ doomed (n + 1)) as [[[err db1] n1] log1] eqn:Hrest.
    injection Hd as -> <- _ _. apply IH in Hrest. rewrite Hrest.
    cbn [with_rows rows]. apply filter_filter_keeps.
Qed.

(** C9.  On a catalog whose keys are unique (the schema's unique index),
    a cleaning pass that returns without error leaves the table it found
    without the rows whose path [os.Stat] reports as not existing: every
    other row is still there, with all its columns and in its place.  With
    the backend answering, the pass does return without error. *)
Theorem cleanFileInfoTable_removes_exactly_gone (os : OS) (db : DB) :
  unique_keys db ->
  (forall db' log,
      cleanFileInfoTable os db = (None, db', log) ->
      rows db' = List.filter (fun r => negb (path_is_gone os r)) (rows db))
  /\ (healthy db ->
      exists log,
        cleanFileInfoTable os db
        = (None, with_rows db (List.filter (fun r => negb (path_is_gone os r)) (rows db)),
           log)).
Proof.
  intros Hk. split.
  - intros db' log. unfold cleanFileInfoTable, Connect, GetAllFileInfos.
    destruct (faulty db OpenDatabase); [discriminate|].
    destruct (faulty db SelectAll); [discriminate|].
    pose proof (check_records_fst os (Z.of_nat (length (rows db))) 0 (rows db)) as Hc.
    destruct (check_records _ _ _ _) as [doomed log1]. simpl in Hc. subst doomed.
    destruct (delete_records db _ 0) as [[[err db1] n1] log2] eqn:Hd.
    intros [= -> <- _]. apply delete_records_done in Hd.
    by rewrite Hd, (keeps_gone_rows os (rows db) Hk).
  - intros Hh. unfold cleanFileInfoTable, Connect, GetAllFileInfos.
    rewrite !(faulty_healthy db _ Hh).
    pose proof (check_records_fst os (Z.of_nat (length (rows db))) 0 (rows db)) as Hc.
    destruct (check_records _ _ _ _) as [doomed log1]. simpl in Hc. subst doomed.
    destruct (delete_records_healthy db (List.filter (path_is_gone os) (rows db)) 0 Hh)
      as [log2 Hd].
    rewrite Hd, (keeps_gone_rows os (rows db) Hk). eexists. reflexivity.
Qed.

Lemma cleanFileInfoTable_removes_exactly_gone_witness :
  let os := sample_os {[ "/data/a.txt" := sample_file [x41] ]} in
  let db := mkDB [sample_row 1 "k1" "/data/a.txt" "m" "b";
                  sample_row 2 "k2" "/data/gone.txt" "m" "b"] 3 no_fault in
  (exists log,
     cleanFileInfoTable os db
     = (None, with_rows db (List.filter (fun r => negb (path_is_gone os r)) (rows db)), log))
  /\ List.filter (fun r => negb (path_is_gone os r)) (rows db)
     = [sample_row 1 "k1" "/data/a.txt" "m" "b"].
Proof.
  split.
  - apply (cleanFileInfoTable_removes_exactly_gone
             (sample_os {[ "/data/a.txt" := sample_file [x41] ]})
             (mkDB [sample_row 1 "k1" "/data/a.txt" "m" "b";
                    sample_row 2 "k2" "/data/gone.txt" "m" "b"] 3 no_fault)).
    + unfold unique_keys. simpl. apply (bool_decide_unpack _). vm_compute. exact I.
    + intros c. reflexivity.
  - vm_compute. reflexivity.
Defined.

(** ** The fingerprint engine *)

Lemma hex_EncodeToString_length (src : list byte) :
  String.length (hex_EncodeToString src) = (2 * length src)%nat.
Proof. induction src as [|v src IH]; simpl; [done|]. rewrite IH. lia. Qed.

Lemma hex_digits_lower (v : byte) :
  is_lower_hex (hex_digit (N.shiftr (Byte.to_N v) 4)) = true
  /\ is_lower_hex (hex_digit (N.land (Byte.to_N v) 15)) = true.
Proof. destruct v; split; vm_compute; reflexivity. Qed.

Lemma hex_EncodeToString_lower (src : list byte) :
  lower_hex_string (hex_EncodeToString src).
Proof.
  unfold lower_hex_string. induction src as [|v src IH]; simpl; [constructor|].
  destruct (hex_digits_lower v) as [Hhi Hlo]. repeat constructor; assumption.
Qed.

Lemma stream_error_intact (s : ReadStream) :
  stream_error s = None <-> stream_intact s = true.
Proof. induction s; simpl; try tauto. split; discriminate. Qed.

Section Fingerprint.
Context `{HL : HashLib}.
Hypothesis blake3_laws : HasherLaws blake3_New32 32.
Hypothesis md5_laws : HasherLaws md5_New 16.

(** One pass over the handle feeds each hasher the whole contents, in
    order, and reads every chunk once. *)
Lemma io_Copy_MultiWriter (f : ReadStream) (b : h_state blake3_New32) (m : h_state md5_New) :
  io_Copy (io_MultiWriter blake3_New32 md5_New) (b, m) f
  = ((h_write blake3_New32 b (stream_bytes f), h_write md5_New m (stream_bytes f)),
     stream_error f, stream_reads f).
Proof.
  assert (Hput : forall (b : h_state blake3_New32) (m : h_state md5_New) chunk,
             match chunk with
             | [] => (b, m)
             | _ => io_MultiWriter blake3_New32 md5_New (b, m) chunk
             end = (h_write blake3_New32 b chunk, h_write md5_New m chunk)).
  { intros b' m' [|x chunk]; [|done].
    by rewrite (write_nil _ _ blake3_laws), (write_nil _ _ md5_laws). }
  revert b m. induction f as [chunk rest IH|chunk|chunk why]; intros b m;
    cbn [io_Copy stream_bytes stream_error stream_reads]; rewrite Hput; [|done..].
  rewrite IH, (write_app _ _ blake3_laws), (write_app _ _ md5_laws). done.
Qed.

(** C6.  For a path that opens and whose reads all succeed,
    [FileBlake3MD5] returns the hexadecimal encodings of the Blake3 and
    MD5 digests of the file's whole contents, 64 and 32 lowercase
    hexadecimal characters, after one open and one pass of reads over the
    handle; the result depends on the bytes alone (two files with the same
    bytes, however their reads are cut, get the same pair); and when the
    open or a read fails the result is the error with two empty
    strings. *)
Theorem FileBlake3MD5_fingerprint (os : OS) (path : string) :
  (forall f, os_Open os path = Ok f -> stream_intact f = true ->
     let b3 := hex_EncodeToString (digest blake3_New32 (stream_bytes f)) in
     let m5 := hex_EncodeToString (digest md5_New (stream_bytes f)) in
     FileBlake3MD5 os path = (b3, m5, None)
     /\ FileBlake3MD5_ops os path
        = ((b3, m5, None), OpOpen path :: stream_reads f ++ [OpClose path])
     /\ String.length b3 = 64%nat /\ lower_hex_string b3
     /\ String.length m5 = 32%nat /\ lower_hex_string m5)
  /\ (forall f os' path' f',
        os_Open os path = Ok f -> stream_intact f = true ->
        os_Open os' path' = Ok f' -> stream_intact f' = true ->
        stream_bytes f = stream_bytes f' ->
        FileBlake3MD5 os path = FileBlake3MD5 os' path')
  /\ (forall e, os_Open os path = Err e ->
        FileBlake3MD5 os path = ("", "", Some e))
  /\ (forall f, os_Open os path = Ok f -> stream_intact f = false ->
        exists e, FileBlake3MD5 os path = ("", "", Some e)).
Proof.
  assert (Hok : forall os path f, os_Open os path = Ok f -> stream_intact f = true ->
            FileBlake3MD5_ops os path
            = ((hex_EncodeToString (digest blake3_New32 (stream_bytes f)),
                hex_EncodeToString (digest md5_New (stream_bytes f)), None),
               OpOpen path :: stream_reads f ++ [OpClose path])).
  { intros os0 path0 f Hopen Hint. unfold FileBlake3MD5_ops.
    rewrite Hopen, io_Copy_MultiWriter.
    apply stream_error_intact in Hint. rewrite Hint. done. }
  repeat split.
  - unfold FileBlake3MD5. by erewrite Hok.
  - by apply Hok.
  - rewrite hex_EncodeToString_length. unfold digest.
    by rewrite (sum_length _ _ blake3_laws).
  - apply hex_EncodeToString_lower.
  - rewrite hex_EncodeToString_length. unfold digest.
    by rewrite (sum_length _ _ md5_laws).
  - apply hex_EncodeToString_lower.
  - intros f os' path' f' H1 H2 H3 H4 Hb. unfold FileBlake3MD5.
    rewrite (Hok _ _ _ H1 H2), (Hok _ _ _ H3 H4), Hb. done.
  - intros e He. unfold FileBlake3MD5, FileBlake3MD5_ops. by rewrite He.
  - intros f Hopen Hbad. unfold FileBlake3MD5, FileBlake3MD5_ops.
    rewrite Hopen, io_Copy_MultiWriter.
    destruct (stream_error f) as [e|] eqn:He.
    + by exists e.
    + apply stream_error_intact in He. congruence.
Qed.
End Fingerprint.

Lemma prefix_hasher_laws (size : nat) : HasherLaws (prefix_hasher size) size.
Proof.
  split; simpl.
  - intros s. apply app_nil_r.
  - intros s p q. by rewrite <- app_assoc.
  - intros s. rewrite length_take, length_app, length_replicate. lia.
Qed.

Lemma FileBlake3MD5_fingerprint_witness :
  @FileBlake3MD5 prefix_hashes two_reads_os "/data/a.txt"
  = ("4142000000000000000000000000000000000000000000000000000000000000",
     "41420000000000000000000000000000", None)
  /\ @FileBlake3MD5_ops prefix_hashes two_reads_os "/data/a.txt"
     = (("4142000000000000000000000000000000000000000000000000000000000000",
         "41420000000000000000000000000000", None),
        [OpOpen "/data/a.txt"; OpRead 1; OpRead 1; OpClose "/data/a.txt"]).
Proof.
  destruct (@FileBlake3MD5_fingerprint prefix_hashes
              (prefix_hasher_laws 32) (prefix_hasher_laws 16)
              two_reads_os "/data/a.txt") as [Hread _].
  destruct (Hread (ReadMore [x41] (ReadEOF [x42]))) as (Hpair & Heq & _);
    [vm_compute; reflexivity | reflexivity |].
  split; [rewrite Hpair|rewrite Heq]; vm_compute; reflexivity.
Defined.

(** ** The blacklist *)



(** *** The small regexp library keeps the contract of [QuoteMeta] *)






Section Blacklist.
Context `{RL : RegexpLib}.

(** The contract of [regexp.QuoteMeta] between [^] and [$]: the
    expression compiles and matches the quoted text and nothing else. *)
Hypothesis QuoteMeta_exact : forall t,
  exists re, regexp_Compile ("^" +:+ regexp_QuoteMeta t +:+ "$") = Ok re
             /\ forall s, regexp_MatchString re s = true <-> s = t.




End Blacklist.




(** ** The duplicate resolver *)

Lemma os_Rename_file (os os' : OS) (oldpath newpath : string) (f : File) :
  os_Rename os oldpath newpath = (None, os') ->
  files os !! resolve os oldpath = Some f ->
  files os' = <[resolve os newpath := f]> (delete (resolve os oldpath) (files os)).
Proof.
  unfold os_Rename. intros Hr Hf. rewrite Hf in Hr.
  destruct (sys_fault os _); [done|].
  destruct (negb _); [done|].
  destruct (bool_decide _); [done|]. by injection Hr as <-.
Qed.

(** C8.  When a chosen file has been moved and the delete of its catalog
    row fails, the loop over the chosen files goes on with the remaining
    ones from the state in which the file sits at its destination and the
    warning has been printed: no error is returned for it, the count of
    processed files is not raised, and the file is no longer at its
    original path. *)
Theorem delete_failure_after_move_is_a_warning `{HL : HashLib}
    (folderPaths : list string) (deletedDir : string) (sortedGroup : list FileInfo)
    (selectedOption : string) (rest : list string) (fileInfo : FileInfo)
    (run : Run) (n : Z) (destPath : string) (warned : list event)
    (os1 os2 : OS) (err : error) (db' : DB) :
  List.find (fun fi => String.eqb (option_text fi) selectedOption) sortedGroup
  = Some fileInfo ->
  deleted_path folderPaths deletedDir fileInfo = (destPath, warned) ->
  os_MkdirAll (run_os run) (filepath_Dir destPath) = (None, os1) ->
  os_Rename os1 (Path fileInfo) destPath = (None, os2) ->
  DeleteFileInfo (run_db run) (CalculateBlake3String (Path fileInfo)) = (Some err, db') ->
  process_selected folderPaths deletedDir sortedGroup (selectedOption :: rest) run n
  = process_selected folderPaths deletedDir sortedGroup rest
      (mkRun os2 db'
         (run_log run ++ warned
          ++ [EvMoved (Path fileInfo) destPath;
              EvWarning "Could not delete record from database" (Path fileInfo)]))
      n
  /\ forall f, files os1 !! resolve os1 (Path fileInfo) = Some f ->
       files os2 !! resolve os1 destPath = Some f
       /\ (resolve os1 (Path fileInfo) <> resolve os1 destPath ->
           files os2 !! resolve os1 (Path fileInfo) = None).
Proof.
  intros Hfind Hdest Hmk Hmv Hdel. split.
  - cbn [process_selected]. rewrite Hfind. unfold remove_chosen.
    rewrite Hdest. cbn [say run_os run_db run_log on_os on_db].
    rewrite Hmk, Hmv. cbn [say run_os run_db run_log on_os on_db].
    rewrite Hdel. cbn [say run_os run_db run_log on_os on_db].
    unfold say, on_db, on_os. simpl. rewrite <- ?app_assoc. simpl. reflexivity.
  - intros f Hf. rewrite (os_Rename_file _ _ _ _ _ Hmv Hf). split.
    + apply lookup_insert_eq.
    + intros Hne. rewrite lookup_insert_ne by done. apply lookup_delete_eq.
Qed.

Lemma delete_failure_after_move_is_a_warning_witness :
  let run := mkRun (dup_os (fun _ => None)) (dup_store delete_a_fails) [] in
  let out := @process_selected prefix_hashes ["/d"] "/trash" dup_group
               (option_text <$> dup_group) run 0 in
  out.1.1 = None
  /\ out.2 = 1
  /\ (map_to_list (files (run_os out.1.2))).*1 = ["/trash/d/a.txt"; "/trash/d/b.txt"]
  /\ Path <$> rows (run_db out.1.2) = ["/d/a.txt"]
  /\ run_log out.1.2
     = [EvMoved "/d/a.txt" "/trash/d/a.txt";
        EvWarning "Could not delete record from database" "/d/a.txt";
        EvMoved "/d/b.txt" "/trash/d/b.txt"].
Proof.
  edestruct (@delete_failure_after_move_is_a_warning prefix_hashes
               ["/d"] "/trash" dup_group (option_text (dup_row 1 "/d/a.txt"))
               [option_text (dup_row 2 "/d/b.txt")] (dup_row 1 "/d/a.txt")
               (mkRun (dup_os (fun _ => None)) (dup_store delete_a_fails) []) 0)
    as [Hstep _];
    [vm_compute; reflexivity ..|].
  cbv zeta. change (option_text <$> dup_group)
    with [option_text (dup_row 1 "/d/a.txt"); option_text (dup_row 2 "/d/b.txt")].
  rewrite Hstep. vm_compute. repeat split.
Defined.

(** ** The sync pipeline *)

(** Nothing runs after the return of [processDirectories]. *)
Lemma no_step_after_return `{HashLib, RegexpLib} (args : SyncArgs) (os : OS)
    (a : Actor) (s : Pipeline) :
  p_main s = MainReturned -> pipeline_step args os a s = None.
Proof. intros Hm. unfold pipeline_step. by rewrite Hm. Qed.

(** The main goroutine never waits for the batching goroutine: from
    [MainReporting] it returns whatever the batching goroutine holds. *)
Lemma main_returns_without_collector `{HashLib, RegexpLib} (args : SyncArgs) (os : OS)
    (s : Pipeline) :
  p_main s = MainReporting ->
  exists s', pipeline_step args os ActMain s = Some s'
             /\ p_main s' = MainReturned
             /\ p_collector s' = p_collector s
             /\ p_resultCh s' = p_resultCh s
             /\ p_db s' = p_db s.
Proof.
  intros Hm. unfold pipeline_step, main_step. rewrite Hm. eexists. split; [done|]. done.
Qed.

(** C1.  [processDirectories] on a tree with one file, with one worker
    and batches of ten, has a schedule in which the main goroutine reports
    completion and returns while the file's record is still in [resultCh]:
    the batching goroutine has received nothing and the catalog is empty.
    In the schedule that differs only in the batching goroutine running
    before the return, the file is upserted. *)
Theorem completion_reported_before_final_batch :
  (exists s,
     @processDirectories prefix_hashes small_regexp sync_args sync_os
       (empty_store no_fault) early_return = Some s
     /\ completion_reported s
     /\ Path <$> p_resultCh s = ["/d/a.txt"]
     /\ p_collector s = CollectorReceiving []
     /\ rows (p_db s) = [])
  /\ (exists s,
        @processDirectories prefix_hashes small_regexp sync_args sync_os
          (empty_store no_fault) drained = Some s
        /\ completion_reported s
        /\ p_resultCh s = []
        /\ p_collector s = CollectorDone
        /\ Path <$> rows (p_db s) = ["/d/a.txt"]).
Proof.
  split; eexists; (split; [vm_compute; reflexivity|]); cbn;
    repeat split; apply list_elem_of_In; cbn; tauto.
Qed.

(** With [force] unset, a path whose absolute path has a catalog row is
    skipped: no fingerprint is taken and no record is produced. *)
Lemma processFileInfoOnly_skips_existing `{HashLib} (os : OS) (db : DB)
    (filePath tag absPath : string) (info : FileStat) (row : FileInfo) :
  os_Stat os filePath = Ok info ->
  filepath_Abs os filePath = Ok absPath ->
  GetFileInfoByPath db absPath = Ok row ->
  processFileInfoOnly os db filePath tag false
  = (Ok None, [EvWarning "Skipping existing file" filePath]).
Proof.
  intros Hstat Habs Hget. unfold processFileInfoOnly.
  rewrite Hstat, Habs. simpl. by rewrite Hget.
Qed.

Section QuietRun.
Context `{HL : HashLib} `{RL : RegexpLib}.
Variables (args : SyncArgs) (os : OS) (db : DB).
Hypothesis not_forced : arg_force args = false.
Hypothesis covered : catalog_covers args os db.

Lemma covered_path_gives_no_record (path : string) (absPath : string) (row : FileInfo) :
  filepath_Abs os path = Ok absPath ->
  GetFileInfoByPath db absPath = Ok row ->
  forall fileInfo evs,
    processFileInfoOnly os db path (arg_tag args) false <> (Ok (Some fileInfo), evs).
Proof.
  intros Habs Hget fileInfo evs. unfold processFileInfoOnly.
  destruct (os_Stat os path); [|discriminate].
  rewrite Habs. simpl. rewrite Hget. discriminate.
Qed.

Lemma quiet_start : quiet_run args os db (pipeline_start args os db).
Proof.
  unfold pipeline_start.
  destruct (countFiles _ _ _ _); [|split; simpl; auto].
  unfold Connect. destruct (faulty db OpenDatabase); [split; simpl; auto|].
  split; simpl; auto.
  - apply Forall_forall. intros w Hw%elem_of_replicate. tauto.
  - split; [constructor|]. by apply Forall_forall.
Qed.

Lemma quiet_step (a : Actor) (s s' : Pipeline) :
  quiet_run args os db s ->
  pipeline_step args os a s = Some s' ->
  quiet_run args os db s'.
Proof.
  intros [Hdb Hres Hwk Hcol Hch Hmain] Hstep. unfold pipeline_step in Hstep.
  destruct a as [|threadId|].
  - (* the main goroutine *)
    unfold main_step in Hstep.
    destruct (p_main s) as [[|path pending] [|dir dirs]| | | |] eqn:Hm;
      try discriminate.
    + injection Hstep as <-. split; simpl; auto.
    + destruct (filepath_Walk os dir _ []) as [sent err] eqn:Hw.
      injection Hstep as <-. destruct Hmain as [_ Hdirs].
      apply Forall_cons in Hdirs as [Hdir Hdirs].
      split; simpl; auto. split; [|done].
      apply Forall_forall. intros path Hpath. apply (covered dir path Hdir).
      by rewrite Hw.
    + destruct (channel_has_room _ _); [|discriminate]. injection Hstep as <-.
      destruct Hmain as [Hp Hd]. apply Forall_cons in Hp as [Hpath Hp].
      split; simpl; auto. apply Forall_app. split; [done|]. by constructor.
    + destruct (channel_has_room _ _); [|discriminate]. injection Hstep as <-.
      destruct Hmain as [Hp Hd]. apply Forall_cons in Hp as [Hpath Hp].
      split; simpl; auto. apply Forall_app. split; [done|]. by constructor.
    + destruct (forallb _ _); [|discriminate]. injection Hstep as <-.
      split; simpl; auto.
    + injection Hstep as <-. split; simpl; auto.
  - (* a worker *)
    assert (Hw : worker_step args os threadId s = Some s')
      by (destruct (p_main s); done).
    clear Hstep. unfold worker_step in Hw.
    destruct (p_workers s !! threadId) as [w|] eqn:Hlook; [|discriminate].
    rewrite Forall_forall in Hwk.
    destruct (Hwk w) as [-> | ->]; [by eapply list_elem_of_lookup_2| |discriminate].
    destruct (p_fileCh s) as [|path rest] eqn:Hf.
    + destruct (p_fileCh_closed s); [|discriminate]. injection Hw as <-.
      split; simpl; auto; [|by rewrite Hf].
      apply Forall_forall. intros w' Hw'.
      apply list_elem_of_lookup in Hw' as [i Hi].
      destruct (decide (i = threadId)) as [->|Hne].
      * rewrite list_lookup_insert_eq in Hi by (by eapply lookup_lt_Some).
        injection Hi as <-. tauto.
      * rewrite list_lookup_insert_ne in Hi by done.
        apply Hwk. by eapply list_elem_of_lookup_2.
    + apply Forall_cons in Hch as [(absPath & row & Habs & Hget) Hch].
      cbn [set_fileCh p_db] in Hw. rewrite Hdb, not_forced in Hw.
      pose proof (covered_path_gives_no_record path absPath row Habs Hget) as Hno.
      destruct (processFileInfoOnly os db path (arg_tag args) false)
        as [[[fileInfo|]|err] evs] eqn:Hp.
      * by destruct (Hno fileInfo evs).
      * injection Hw as <-. split; simpl; auto. by apply Forall_forall.
      * injection Hw as <-. split; simpl; auto. by apply Forall_forall.
  - (* the batching goroutine *)
    assert (Hc : collector_step args s = Some s')
      by (destruct (p_main s); done).
    clear Hstep. unfold collector_step in Hc. rewrite Hres in Hc.
    destruct Hcol as [Hcol|Hcol]; rewrite Hcol in Hc; [|discriminate].
    destruct (p_resultCh_closed s); [|discriminate]. injection Hc as <-.
    split; simpl; auto.
Qed.

(** A run over a catalog that has a row for every path it walks writes
    nothing, whatever the schedule. *)
Lemma covered_run_upserts_nothing (schedule : list Actor) (s : Pipeline) :
  processDirectories args os db schedule = Some s ->
  p_db s = db.
Proof.
  unfold processDirectories. pose proof quiet_start as Hq. revert Hq.
  generalize (pipeline_start args os db). intros s0 Hq Hrun.
  revert s0 Hq Hrun. induction schedule as [|a schedule IH]; intros s0 Hq Hrun.
  - injection Hrun as <-. apply Hq.
  - cbn [run_schedule] in Hrun.
    destruct (pipeline_step args os a s0) as [s1|] eqn:Hstep; [|discriminate].
    eapply IH; [|exact Hrun]. by eapply quiet_step.
Qed.
End QuietRun.

(** C5.  With [force] unset, a run over a catalog that has a row for
    every path it walks writes nothing, under every schedule; but a first
    run that returned before its batch was saved leaves the catalog without
    the file, and the second run over the unchanged tree then upserts it.
    After a first run whose batch was saved, the second run skips the file
    and leaves the catalog as it was. *)
Theorem second_run_upserts_what_first_run_lost :
  (forall (HL : HashLib) (RL : RegexpLib) (args : SyncArgs) (os : OS) (db : DB)
          (schedule : list Actor) (s : Pipeline),
      arg_force args = false ->
      catalog_covers args os db ->
      processDirectories args os db schedule = Some s ->
      p_db s = db)
  /\ (exists s1 s2,
        @processDirectories prefix_hashes small_regexp sync_args sync_os
          (empty_store no_fault) early_return = Some s1
        /\ completion_reported s1
        /\ @processDirectories prefix_hashes small_regexp sync_args sync_os
             (p_db s1) drained = Some s2
        /\ completion_reported s2
        /\ rows (p_db s1) = []
        /\ Path <$> rows (p_db s2) = ["/d/a.txt"])
  /\ (exists s2 s3,
        @processDirectories prefix_hashes small_regexp sync_args sync_os
          (empty_store no_fault) drained = Some s2
        /\ @processDirectories prefix_hashes small_regexp sync_args sync_os
             (p_db s2) second_run = Some s3
        /\ completion_reported s3
        /\ rows (p_db s3) = rows (p_db s2)
        /\ EvWarning "Skipping existing file" "/d/a.txt" ∈ p_log s3).
Proof.
  split; [intros; by eapply covered_run_upserts_nothing|].
  split.
  - eexists. eexists. split; [vm_compute; reflexivity|].
    split; [split; [reflexivity|apply list_elem_of_In; cbn; tauto]|].
    split; [vm_compute; reflexivity|].
    split; [split; [reflexivity|apply list_elem_of_In; cbn; tauto]|].
    split; reflexivity.
  - eexists. eexists. split; [vm_compute; reflexivity|].
    split; [vm_compute; reflexivity|].
    split; [split; [reflexivity|apply list_elem_of_In; cbn; tauto]|].
    split; [reflexivity|apply list_elem_of_In; cbn; tauto].
Qed.


(** ** Errors on one file *)

(** A failed [os.Rename] of a chosen file returns from
    [handleDuplicateFiles]: the chosen files after it are not looked at. *)
Lemma rename_failure_ends_selection `{HL : HashLib}
    (folderPaths : list string) (deletedDir : string) (sortedGroup : list FileInfo)
    (selectedOption : string) (rest : list string) (fileInfo : FileInfo)
    (run : Run) (n : Z) (destPath : string) (warned : list event)
    (os1 os2 : OS) (err : error) :
  List.find (fun fi => String.eqb (option_text fi) selectedOption) sortedGroup
  = Some fileInfo ->
  deleted_path folderPaths deletedDir fileInfo = (destPath, warned) ->
  os_MkdirAll (run_os run) (filepath_Dir destPath) = (None, os1) ->
  os_Rename os1 (Path fileInfo) destPath = (Some err, os2) ->
  process_selected folderPaths deletedDir sortedGroup (selectedOption :: rest) run n
  = (Some (ErrWrap ("error moving file " +:+ Path fileInfo +:+ " to " +:+ destPath) err),
     mkRun os2 (run_db run) (run_log run ++ warned), n).
Proof.
  intros Hfind Hdest Hmk Hmv. cbn [process_selected]. rewrite Hfind.
  unfold remove_chosen. rewrite Hdest. cbn [say run_os run_db run_log on_os on_db].
  rewrite Hmk, Hmv. reflexivity.
Qed.

(** An entry that [filepath.Walk] delivers with an error ends the walk of
    [processDirectories] and of [countFiles]: the entries after it are not
    visited. *)
Lemma sync_walk_stops_at_error `{RL : RegexpLib} (ps : list Regexp)
    (before after : list (string * result FileStat)) (path : string) (err : error)
    (sent sent' : list string) :
  walk_entries (sync_walk_fn ps) before sent = (sent', None) ->
  walk_entries (sync_walk_fn ps) (before ++ (path, Err err) :: after) sent
  = (sent', Some err).
Proof.
  revert sent. induction before as [|[p info] before IH]; intros sent Hb.
  - simpl in Hb. injection Hb as <-. reflexivity.
  - cbn [app walk_entries] in *.
    destruct (sync_walk_fn ps p info sent) as [s1 [e|]]; [discriminate|]. by apply IH.
Qed.

(** C3.  Two failures of one file that end the run instead of being
    skipped.  In the duplicate resolver, with both members of a group
    chosen, the failed move of the first returns the error from
    [handleDuplicateFiles] and the second member stays where it was, with
    its catalog row.  In the sync command, an entry of the walk that cannot
    be stat'd ends the walk ([/d/c.txt] is never sent) and makes
    [countFiles] fail, on which the process exits before any file is
    processed; the walk of the duplicate resolver skips the same entry and
    goes on. *)
Theorem failure_on_one_file_ends_the_run :
  ((@handleDuplicateFiles prefix_hashes in_order tick_all (dup_os rename_a_fails)
      (empty_store no_fault) ["/d"] "/trash").1
   = Some (ErrWrap "error moving file /d/a.txt to /trash/d/a.txt"
                   (ErrOS "rename" "/d/a.txt"))
   /\ (map_to_list (files (run_os
         (@handleDuplicateFiles prefix_hashes in_order tick_all (dup_os rename_a_fails)
            (empty_store no_fault) ["/d"] "/trash").2))).*1
      = ["/d/a.txt"; "/d/b.txt"]
   /\ Path <$> rows (run_db
         (@handleDuplicateFiles prefix_hashes in_order tick_all (dup_os rename_a_fails)
            (empty_store no_fault) ["/d"] "/trash").2)
      = ["/d/a.txt"; "/d/b.txt"])
  /\ (filepath_Walk broken_entry_os "/d" (@sync_walk_fn small_regexp []) []
      = (["/d/a.txt"], Some (ErrOS "lstat" "/d/b.txt"))
      /\ @countFiles small_regexp broken_entry_os ["/d"] [] 0
         = Err (ErrOS "lstat" "/d/b.txt")
      /\ p_main (@pipeline_start small_regexp broken_entry_args broken_entry_os
                   (empty_store no_fault))
         = MainExited)
  /\ getAllFilesInFolder broken_entry_os "/d" = (["/d/a.txt"; "/d/c.txt"], None).
Proof. repeat split; vm_compute; reflexivity. Qed.

(** ** Keys *)

(** The row the duplicate scan makes for an uncatalogued path has the
    path as the walk delivered it, and the Blake3 digest of that string as
    its key. *)
Lemma scan_file_keys_walk_path `{HL : HashLib} (filePath : string) (i total : Z)
    (run run' : Run) (m m' : gmap string FileInfo) :
  GetFileInfoByPath (run_db run) filePath = Err ErrRecordNotFound ->
  scan_file filePath i total run m = (None, run', m') ->
  m' = m
  \/ exists fileInfo,
       m' = <[filePath := fileInfo]> m
       /\ Path fileInfo = filePath
       /\ Key fileInfo = CalculateBlake3String filePath
       /\ (UpsertFileInfo (run_db run) fileInfo).2 = run_db run'.
Proof.
  intros Hget Hscan. unfold scan_file in Hscan.
  cbn [say run_db run_os] in Hscan. rewrite Hget in Hscan. cbn in Hscan.
  destruct (FileBlake3MD5 (run_os run) filePath) as [[b3 m5] [err|]].
  { injection Hscan as _ <-. by left. }
  destruct (os_Stat (run_os run) filePath) as [st|err].
  2: { injection Hscan as _ <-. by left. }
  match type of Hscan with
  | context [UpsertFileInfo _ ?fi] => set (fileInfo := fi) in *
  end.
  destruct (UpsertFileInfo (run_db run) fileInfo) as [[err|] db'] eqn:Hup; [discriminate|].
  injection Hscan as <- <-. right. exists fileInfo. by rewrite Hup.
Qed.

(** C4.  The duplicate scan derives the key from the path as the walk
    delivers it, which is relative when the folder argument is: after a
    sync of [photos] from [/home/u] has filed [a.jpg] under the key of
    [/home/u/photos/a.jpg], the scan of [photos] files the same file a
    second time, under the key of [photos/a.jpg]. *)
Theorem duplicate_scan_keys_the_relative_path :
  exists s,
    @processDirectories prefix_hashes small_regexp photos_args photos_os
      (empty_store no_fault) drained = Some s
    /\ (fun r => (ID r, Path r, Key r)) <$> rows (p_db s)
       = [(1, "/home/u/photos/a.jpg",
           @CalculateBlake3String prefix_hashes "/home/u/photos/a.jpg")]
    /\ (@handleDuplicateFiles prefix_hashes in_order tick_all photos_os (p_db s)
          ["photos"] "").1 = None
    /\ (fun r => (ID r, Path r, Key r))
         <$> rows (run_db (@handleDuplicateFiles prefix_hashes in_order tick_all
                             photos_os (p_db s) ["photos"] "").2)
       = [(1, "/home/u/photos/a.jpg",
           @CalculateBlake3String prefix_hashes "/home/u/photos/a.jpg");
          (2, "photos/a.jpg", @CalculateBlake3String prefix_hashes "photos/a.jpg")]
    /\ @CalculateBlake3String prefix_hashes "photos/a.jpg"
       <> @CalculateBlake3String prefix_hashes "/home/u/photos/a.jpg".
Proof.
  eexists. split; [vm_compute; reflexivity|].
  repeat split; try (vm_compute; reflexivity). vm_compute. discriminate.
Qed.

(** ** Paths *)

Lemma append_cons (c : ascii) (a b : string) : String c a +:+ b = String c (a +:+ b).
Proof. reflexivity. Qed.

Lemma append_nil_r (s : string) : s +:+ "" = s.
Proof. induction s as [|c s IH]; [done|]. by rewrite append_cons, IH. Qed.

Lemma append_assoc (a b c : string) : (a +:+ b) +:+ c = a +:+ (b +:+ c).
Proof. induction a as [|x a IH]; [done|]. by rewrite !append_cons, IH. Qed.

Lemma join_path_cons (e : string) (rest : list string) :
  join_path (e :: rest) = e +:+ tail_text rest.
Proof.
  unfold join_path. revert e. induction rest as [|x rest IH]; intros e; simpl.
  - by rewrite append_nil_r.
  - rewrite IH. by rewrite !append_assoc.
Qed.

Lemma tail_text_app (l1 l2 : list string) :
  tail_text (l1 ++ l2) = tail_text l1 +:+ tail_text l2.
Proof.
  induction l1 as [|x l1 IH]; simpl; [done|]. rewrite IH. by rewrite !append_assoc.
Qed.

Lemma split_path_no_slash (cur e s : string) :
  no_slash e -> split_path cur (e +:+ s) = split_path (cur +:+ e) s.
Proof.
  unfold no_slash. revert cur. induction e as [|c e IH]; intros cur He.
  - change ("" +:+ s) with s. by rewrite append_nil_r.
  - cbn [list_ascii_of_string] in He. apply Forall_cons in He as [Hc He].
    rewrite append_cons. cbn [split_path].
    destruct (Ascii.eqb_spec c "/"); [done|].
    rewrite IH by done. f_equal. by rewrite append_assoc.
Qed.

Lemma split_path_tail (cur : string) (rest : list string) :
  Forall no_slash rest -> split_path cur (tail_text rest) = cur :: rest.
Proof.
  revert cur. induction rest as [|x rest IH]; intros cur Hr; [done|].
  apply Forall_cons in Hr as [Hx Hr]. cbn [tail_text fold_right].
  change ("/" +:+ x +:+ fold_right (fun x acc => "/" +:+ x +:+ acc) "" rest)
    with (String "/" (x +:+ tail_text rest)).
  cbn [split_path]. rewrite Ascii.eqb_refl.
  rewrite split_path_no_slash by done. change ("" +:+ x) with x. by rewrite IH.
Qed.

Lemma clean_elems_proper (rooted : bool) (elems out : list string) :
  Forall proper elems -> clean_elems rooted elems out = rev out ++ elems.
Proof.
  revert out. induction elems as [|e elems IH]; intros out He; simpl.
  - by rewrite app_nil_r.
  - apply Forall_cons in He as [[H1 H2 H3 _] He].
    apply String.eqb_neq in H1, H2, H3. rewrite H1, H2, H3. simpl.
    rewrite IH by done. simpl. by rewrite <- app_assoc.
Qed.

Lemma filepath_IsAbs_slash (s : string) : filepath_IsAbs (String "/" s) = true.
Proof. by destruct s. Qed.

Lemma split_path_join (cur : string) (elems : list string) :
  Forall no_slash elems -> elems <> [] ->
  split_path cur (join_path elems)
  = match elems with e :: rest => (cur +:+ e) :: rest | [] => [] end.
Proof.
  intros He Hne. destruct elems as [|e rest]; [done|].
  apply Forall_cons in He as [He Hrest].
  rewrite join_path_cons, split_path_no_slash by done. by apply split_path_tail.
Qed.

Lemma Forall_proper_no_slash (elems : list string) :
  Forall proper elems -> Forall no_slash elems.
Proof. intros H. eapply Forall_impl; [exact H|]. by intros ? []. Qed.

Lemma path_elems_render (elems : list string) :
  Forall proper elems -> path_elems (render_path true elems) = elems.
Proof.
  intros He. unfold path_elems, render_path.
  change ("/" +:+ join_path elems) with (String "/" (join_path elems)).
  rewrite filepath_IsAbs_slash. cbn [split_path]. rewrite Ascii.eqb_refl.
  destruct elems as [|e rest]; [reflexivity|].
  rewrite split_path_join; [|by apply Forall_proper_no_slash|done].
  change ("" +:+ e) with e.
  change (clean_elems true ("" :: e :: rest) []) with (clean_elems true (e :: rest) []).
  rewrite clean_elems_proper by done. reflexivity.
Qed.

Lemma render_path_abs (elems : list string) :
  filepath_IsAbs (render_path true elems) = true.
Proof. apply filepath_IsAbs_slash. Qed.

Lemma filepath_Clean_render (elems : list string) :
  Forall proper elems -> filepath_Clean (render_path true elems) = render_path true elems.
Proof.
  intros He. unfold filepath_Clean. by rewrite path_elems_render, render_path_abs.
Qed.

Lemma drop_common_app (base rest : list string) :
  drop_common base (base ++ rest) = ([], rest).
Proof.
  induction base as [|b base IH]; simpl; [by destruct rest|].
  by rewrite String.eqb_refl.
Qed.

Lemma filepath_Rel_below (base rest : list string) :
  Forall proper base -> Forall proper rest -> rest <> [] ->
  filepath_Rel (render_path true base) (render_path true (base ++ rest))
  = Ok (join_path rest).
Proof.
  intros Hb Hr Hne. unfold filepath_Rel.
  assert (Hbr : Forall proper (base ++ rest)) by (by apply Forall_app).
  rewrite !filepath_Clean_render by done.
  destruct (String.eqb_spec (render_path true (base ++ rest)) (render_path true base)) as [Heq|_].
  { apply (f_equal path_elems) in Heq. rewrite !path_elems_render in Heq by done.
    rewrite <- (app_nil_r base) in Heq at 2. by apply app_inv_head in Heq. }
  rewrite !render_path_abs. cbn [Bool.eqb negb].
  rewrite !path_elems_render by done. by rewrite drop_common_app.
Qed.

Lemma join_path_nonempty (e : string) (rest : list string) :
  e <> "" -> join_path (e :: rest) <> "".
Proof. intros He. rewrite join_path_cons. by destruct e. Qed.

Lemma filepath_Join_below (base rest : list string) :
  Forall proper base -> Forall proper rest -> rest <> [] ->
  filepath_Join [render_path true base; join_path rest] = render_path true (base ++ rest).
Proof.
  intros Hb Hr Hne. destruct rest as [|r rest]; [done|]. clear Hne.
  assert (Hbr : Forall proper (base ++ r :: rest)) by (by apply Forall_app).
  assert (Hr0 : r <> "") by (apply Forall_cons in Hr as [[] _]; done).
  unfold filepath_Join. cbn [List.filter].
  replace (String.eqb (render_path true base) "") with false by reflexivity.
  pose proof (join_path_nonempty r rest Hr0) as Hj. apply String.eqb_neq in Hj.
  rewrite Hj. cbn [negb].
  rewrite <- (filepath_Clean_render (base ++ r :: rest)) by done.
  destruct base as [|b base].
  - unfold filepath_Clean, path_elems, render_path, join_path at 1 3. cbn [fold_left app].
    change ("/" +:+ "" +:+ "/" +:+ join_path (r :: rest))
      with (String "/" (String "/" (join_path (r :: rest)))).
    change ("/" +:+ join_path (r :: rest)) with (String "/" (join_path (r :: rest))).
    rewrite !filepath_IsAbs_slash. cbn [split_path]. rewrite !Ascii.eqb_refl.
    cbn [clean_elems]. rewrite String.eqb_refl. cbn [orb]. done.
  - f_equal. unfold render_path.
    change (join_path [("/" +:+ join_path (b :: base)); join_path (r :: rest)])
      with (("/" +:+ join_path (b :: base)) +:+ "/" +:+ join_path (r :: rest)).
    cbn [app].
    rewrite (join_path_cons b), (join_path_cons r), (join_path_cons b (base ++ r :: rest)).
    rewrite tail_text_app. cbn [tail_text fold_right]. by rewrite !append_assoc.
Qed.

(** ** Making directories *)

(** Whether it succeeds or fails, [os.MkdirAll] does nothing but add
    directories. *)
Lemma os_MkdirAll_keeps (os : OS) (path : string) :
  exists made, (os_MkdirAll os path).2 = with_dirs os (dirs os ∪ list_to_set made).
Proof. unfold os_MkdirAll. destruct (mkdir_chain _ _) as [err made]. by exists made. Qed.

(** When it succeeds, it has passed or made every directory of the chain,
    and none of them is a regular file. *)
Lemma mkdir_chain_done (os : OS) (chain made : list string) :
  mkdir_chain os chain = (None, made) ->
  made = chain /\ Forall (fun d => files os !! d = None) chain.
Proof.
  revert made. induction chain as [|d rest IH]; intros made; cbn [mkdir_chain].
  - by intros [= <-].
  - destruct (files os !! d) eqn:Hd; [done|].
    rewrite bool_decide_eq_false_2 by (by intros [? ?]).
    destruct (if is_dir os d then None else sys_fault os (SysMkdirAll d)); [done|].
    destruct (mkdir_chain os rest) as [err made']. intros [= -> <-].
    destruct (IH made' eq_refl) as [-> Hrest]. split; [done|by constructor].
Qed.

(** What it made is a front part of the chain. *)
Lemma mkdir_chain_made (os : OS) (chain : list string) :
  (mkdir_chain os chain).2 `prefix_of` chain.
Proof.
  induction chain as [|d rest IH]; cbn [mkdir_chain]; [done|].
  destruct (bool_decide _); [apply prefix_nil|].
  destruct (if is_dir os d then None else sys_fault os (SysMkdirAll d)); [apply prefix_nil|].
  destruct (mkdir_chain os rest) as [err made]. cbn [snd] in *. by apply prefix_cons.
Qed.

Lemma os_MkdirAll_on_the_way (os : OS) (path d : string) :
  d ∈ dirs (os_MkdirAll os path).2 ->
  d ∈ dirs os \/ d ∈ path_and_ancestors (resolve os path).
Proof.
  unfold os_MkdirAll.
  pose proof (mkdir_chain_made os (path_and_ancestors (resolve os path))) as Hpre.
  destruct (mkdir_chain _ _) as [err made]. cbn [snd dirs with_dirs] in *.
  intros [Hin|Hin]%elem_of_union; [by left|right].
  apply elem_of_list_to_set in Hin. destruct Hpre as [k ->]. by apply elem_of_app; left.
Qed.

Lemma os_MkdirAll_done (os os' : OS) (path : string) :
  os_MkdirAll os path = (None, os') ->
  os' = with_dirs os (dirs os ∪ list_to_set (path_and_ancestors (resolve os path))).
Proof.
  unfold os_MkdirAll.
  destruct (mkdir_chain _ _) as [err made] eqn:Hc. intros [= -> <-].
  by apply mkdir_chain_done in Hc as [-> _].
Qed.

(** ** The merge engine *)

Lemma copies_app (l1 l2 : list event) : copies (l1 ++ l2) = copies l1 ++ copies l2.
Proof. unfold copies. apply omap_app. Qed.

Lemma copy_one_log `{HL : HashLib} (sourceDir backupDir srcPath : string) (run run' : Run) :
  copy_one sourceDir backupDir srcPath run = (None, run') ->
  exists relPath,
    filepath_Rel sourceDir srcPath = Ok relPath
    /\ run_log run' = run_log run ++ [EvCopying srcPath (filepath_Join [backupDir; relPath])].
Proof.
  unfold copy_one. intros Hc.
  destruct (filepath_Rel sourceDir srcPath) as [relPath|]; [|discriminate].
  exists relPath. split; [done|].
  destruct (os_MkdirAll _ _) as [[?|] os1]; [discriminate|].
  cbn [say on_os on_db run_os run_db run_log] in Hc.
  destruct (copyFile _ _ _) as [[?|] os2]; [discriminate|].
  destruct (os_Stat _ _); [|discriminate].
  destruct (filepath_Abs _ _); [|discriminate].
  destruct (FileBlake3MD5 _ _) as [[? ?] [?|]]; [discriminate|].
  destruct (UpsertFileInfo _ _) as [[?|] db']; [discriminate|].
  by injection Hc as <-.
Qed.

Lemma copy_all_log `{HL : HashLib} (sourceDir backupDir : string)
    (filesToCopy : list string) (run run' : Run) :
  copy_all sourceDir backupDir filesToCopy run = (None, run') ->
  Forall (fun srcPath => exists relPath, filepath_Rel sourceDir srcPath = Ok relPath)
         filesToCopy
  /\ Forall2 (fun srcPath c =>
                c.1 = srcPath
                /\ exists relPath, filepath_Rel sourceDir srcPath = Ok relPath
                                   /\ c.2 = filepath_Join [backupDir; relPath])
             filesToCopy
             (drop (length (copies (run_log run))) (copies (run_log run')))
  /\ take (length (copies (run_log run))) (copies (run_log run')) = copies (run_log run).
Proof.
  revert run. induction filesToCopy as [|srcPath rest IH]; intros run Hc.
  - injection Hc as <-. rewrite drop_all, firstn_all. repeat split; constructor.
  - cbn [copy_all] in Hc.
    destruct (copy_one sourceDir backupDir srcPath run) as [[?|] run1] eqn:H1; [discriminate|].
    destruct (copy_one_log _ _ _ _ _ H1) as (relPath & Hrel & Hlog).
    destruct (IH run1 Hc) as (Hall & Hcopies & Hkeep).
    rewrite Hlog, copies_app in Hcopies, Hkeep. cbn [copies omap list_omap] in Hcopies, Hkeep.
    fold copies in *.
    rewrite length_app in Hcopies, Hkeep. simpl length in Hcopies, Hkeep.
    assert (Hsplit : copies (run_log run')
                     = copies (run_log run)
                       ++ (srcPath, filepath_Join [backupDir; relPath])
                       :: drop (length (copies (run_log run)) + 1) (copies (run_log run'))).
    { rewrite <- (take_drop (length (copies (run_log run)) + 1) (copies (run_log run'))) at 1.
      rewrite Hkeep, <- app_assoc. done. }
    split; [constructor; eauto|]. split.
    + rewrite Hsplit at 1. rewrite drop_app_length. constructor; [|done].
      split; [done|]. eauto.
    + rewrite Hsplit. by rewrite take_app_length.
Qed.

Lemma hashes_walk_fn_spec `{HL : HashLib} (os : OS) (total : Z) (path : string)
    (info : result FileStat) (s s' : Scan) :
  hashes_walk_fn os total path info s = (s', None) ->
  copies (scan_log s') = copies (scan_log s)
  /\ match scanned_entry path info with
     | None => scan_files_map s' = scan_files_map s
     | Some _ => exists h, scan_files_map s' = <[path := h]> (scan_files_map s)
     end.
Proof.
  unfold hashes_walk_fn. intros Hw.
  destruct (scanned_entry path info) as [st|]; [|by injection Hw as <-].
  destruct (filepath_Abs os path) as [absPath|]; [|discriminate].
  cbn [scan_db scan_files_map scan_log scan_processed] in Hw.
  match type of Hw with
  | context [match ?u with Some _ => _ | None => _ end] => destruct u as [row|]
  end.
  - injection Hw as <-. cbn. rewrite copies_app. cbn. rewrite app_nil_r. eauto.
  - destruct (FileBlake3MD5 os path) as [[b3 m5] [?|]]; [discriminate|].
    destruct (UpsertFileInfo _ _) as [[?|] db']; [discriminate|].
    injection Hw as <-. cbn. rewrite copies_app. cbn. rewrite app_nil_r. eauto.
Qed.

Lemma hashes_walk_spec `{HL : HashLib} (os : OS) (total : Z)
    (entries : list (string * result FileStat)) (s s' : Scan) :
  walk_entries (hashes_walk_fn os total) entries s = (s', None) ->
  copies (scan_log s') = copies (scan_log s)
  /\ forall path, is_Some (scan_files_map s' !! path)
                  <-> is_Some (scan_files_map s !! path) \/ path ∈ scanned_paths entries.
Proof.
  revert s. induction entries as [|[p info] entries IH]; intros s Hw.
  - injection Hw as <-. split; [done|]. intros path. unfold scanned_paths. simpl.
    rewrite elem_of_nil. tauto.
  - cbn [walk_entries] in Hw.
    destruct (hashes_walk_fn os total p info s) as [s1 [?|]] eqn:H1; [discriminate|].
    destruct (hashes_walk_fn_spec _ _ _ _ _ _ H1) as [Hlog1 Hmap1].
    destruct (IH s1 Hw) as [Hlog Hmap]. split; [congruence|].
    intros path. rewrite Hmap. unfold scanned_paths. cbn [omap list_omap fst snd].
    destruct (scanned_entry p info) as [st|].
    + destruct Hmap1 as [h ->]. rewrite elem_of_cons.
      destruct (decide (path = p)) as [->|Hne].
      * rewrite lookup_insert_eq. split; [auto|]. intros _. left. by eexists.
      * rewrite lookup_insert_ne by done. tauto.
    + rewrite Hmap1. tauto.
Qed.

Lemma count_walk_spec (entries : list (string * result FileStat)) (n : Z) :
  walk_entries
    (fun path info (totalFiles : Z) =>
       match scanned_entry path info with
       | None => (totalFiles, None)
       | Some _ => (totalFiles + 1, None)
       end) entries n
  = (n + Z.of_nat (length (scanned_paths entries)), None).
Proof.
  revert n. induction entries as [|[p info] entries IH]; intros n.
  - simpl. by rewrite Z.add_0_r.
  - cbn [walk_entries]. unfold scanned_paths. cbn [omap list_omap fst snd].
    destruct (scanned_entry p info); rewrite IH; [|done].
    f_equal. unfold scanned_paths. simpl length. lia.
Qed.

(** A successful scan maps exactly the paths it looked at, and announces
    no copy. *)
Lemma getFilesWithHashes_spec `{HL : HashLib} (os : OS) (db db' : DB) (dir : string)
    (m : gmap string FileHashes) (evs : list event) :
  getFilesWithHashes os db dir = (Ok m, db', evs) ->
  copies evs = []
  /\ forall path, is_Some (m !! path) <-> path ∈ scanned_paths (walk os dir).
Proof.
  unfold getFilesWithHashes, filepath_Walk. rewrite count_walk_spec. intros Hg.
  destruct (0 + Z.of_nat (length (scanned_paths (walk os dir))) =? 0) eqn:Hz.
  - injection Hg as <- <- <-. split; [done|]. intros path.
    apply Z.eqb_eq in Hz. destruct (scanned_paths (walk os dir)); [|simpl in Hz; lia].
    rewrite lookup_empty, elem_of_nil. split; [by intros [? ?]|done].
  - destruct (walk_entries _ _ _) as [s [?|]] eqn:Hw; [discriminate|].
    injection Hg as <- <- <-.
    destruct (hashes_walk_spec _ _ _ _ _ Hw) as [Hlog Hmap]. split; [done|].
    intros path. rewrite Hmap. cbn. rewrite lookup_empty.
    split; [intros [[? ?]|?]; done|auto].
Qed.

Lemma found_in_spec (targetFiles : list (string * FileHashes)) (srcHashes : FileHashes) :
  found_in targetFiles srcHashes = false
  <-> forall target, target ∈ targetFiles -> ~ same_hashes srcHashes target.2.
Proof.
  unfold found_in. induction targetFiles as [|t ts IH]; simpl.
  - split; [|done]. intros _ target Hin. by apply elem_of_nil in Hin.
  - rewrite orb_false_iff, IH. split.
    + intros [Ht Hts] target [->|Hin]%elem_of_cons; [|by apply Hts].
      intros [Hm Hb]. rewrite Hm, Hb, !String.eqb_refl in Ht. discriminate.
    + intros Hall. split; [|intros target Hin; apply Hall; by right].
      apply not_true_is_false. intros [Hm Hb]%andb_true_iff.
      apply String.eqb_eq in Hm, Hb. apply (Hall t); [by left|done].
Qed.

Lemma NoDup_fst_filter {A B} (f : A * B -> bool) (l : list (A * B)) :
  NoDup l.*1 -> NoDup (List.filter f l).*1.
Proof.
  induction l as [|x l IH]; simpl; [done|].
  rewrite NoDup_cons. intros [Hx Hl]. destruct (f x); simpl; [|by apply IH].
  apply NoDup_cons. split; [|by apply IH].
  intros ([a b] & Heq & Hin)%list_elem_of_fmap. apply Hx.
  apply list_elem_of_fmap. exists (a, b). split; [done|].
  apply list_elem_of_In. apply list_elem_of_In, filter_In in Hin. tauto.
Qed.

(** The loop over the source map picks exactly the novel files, each once,
    in whatever order the maps are visited. *)
Lemma files_to_copy_spec (range : RangeOrder)
    (sourceFiles targetFiles : gmap string FileHashes) :
  visits_each_once range ->
  let filesToCopy :=
    files_to_copy (range _ (map_to_list sourceFiles)) (range _ (map_to_list targetFiles)) in
  NoDup filesToCopy
  /\ forall srcPath, srcPath ∈ filesToCopy <-> novel sourceFiles targetFiles srcPath.
Proof.
  intros Hrange filesToCopy. unfold filesToCopy, files_to_copy. split.
  - apply NoDup_fst_filter.
    rewrite (Hrange _ (map_to_list sourceFiles)). apply NoDup_fst_map_to_list.
  - intros srcPath. rewrite list_elem_of_fmap. unfold novel. split.
    + intros ([p h] & -> & Hin). apply list_elem_of_In, filter_In in Hin as [Hin Hf].
      apply list_elem_of_In in Hin. rewrite (Hrange _ (map_to_list sourceFiles)) in Hin.
      apply elem_of_map_to_list in Hin. exists h. split; [done|].
      apply negb_true_iff in Hf. cbn [snd] in Hf.
      pose proof (proj1 (found_in_spec _ _) Hf) as Hnone.
      intros q th Hq. apply (Hnone (q, th)).
      rewrite (Hrange _ (map_to_list targetFiles)). by apply elem_of_map_to_list.
    + intros (h & Hs & Hnone). exists (srcPath, h). split; [done|].
      apply list_elem_of_In, filter_In. split.
      * apply list_elem_of_In. rewrite (Hrange _ (map_to_list sourceFiles)).
        by apply elem_of_map_to_list.
      * apply negb_true_iff. cbn [snd]. apply found_in_spec. intros [q th] Hin.
        rewrite (Hrange _ (map_to_list targetFiles)) in Hin.
        apply elem_of_map_to_list in Hin. by apply (Hnone q).
Qed.

Lemma announced_sources (sourceDir backupDir : string) (filesToCopy : list string)
    (cs : list (string * string)) :
  Forall2 (fun srcPath c =>
             c.1 = srcPath
             /\ exists relPath, filepath_Rel sourceDir srcPath = Ok relPath
                                /\ c.2 = filepath_Join [backupDir; relPath])
          filesToCopy cs ->
  cs.*1 = filesToCopy
  /\ forall srcPath dstPath, (srcPath, dstPath) ∈ cs ->
       exists relPath, filepath_Rel sourceDir srcPath = Ok relPath
                       /\ dstPath = filepath_Join [backupDir; relPath].
Proof.
  induction 1 as [|p [a b] l cs [Hp (relPath & Hrel & Hdst)] _ IH]; simpl in *.
  - split; [done|]. intros ? ? Hin. by apply elem_of_nil in Hin.
  - destruct IH as [IH1 IH2]. subst p. split; [by f_equal|].
    intros srcPath dstPath [[= -> ->]|Hin]%elem_of_cons; eauto.
Qed.

(** What a merge run that returns without error has announced as copied:
    each once, exactly the scanned source files (the regular files the
    walk of the source delivers whose path does not end in [fsak.db])
    whose digest pair, as the scan obtained it, is the digest pair of no
    scanned target file; and each to its path relative to the source root
    under the dated backup directory of the target: the file [below] under
    the source root goes to [FSAK_<date>/below] under the target root. *)
Lemma performMerge_copies_the_novel_files `{HL : HashLib} (range : RangeOrder)
    (os : OS) (store : DB) (sourceDir targetDir : string) (run : Run) :
  visits_each_once range ->
  performMerge range os store sourceDir targetDir = (None, run) ->
  exists os' db' db'' evs evs' sourceFiles targetFiles,
    os_MkdirAll os (backup_dir os targetDir) = (None, os')
    /\ getFilesWithHashes os' store sourceDir = (Ok sourceFiles, db', evs)
    /\ getFilesWithHashes os' db' targetDir = (Ok targetFiles, db'', evs')
    /\ (forall path, is_Some (sourceFiles !! path)
                     <-> path ∈ scanned_paths (walk os sourceDir))
    /\ (forall path, is_Some (targetFiles !! path)
                     <-> path ∈ scanned_paths (walk os targetDir))
    /\ NoDup (copies (run_log run)).*1
    /\ (forall srcPath, srcPath ∈ (copies (run_log run)).*1
                        <-> novel sourceFiles targetFiles srcPath)
    /\ (forall srcPath dstPath, (srcPath, dstPath) ∈ copies (run_log run) ->
          exists relPath,
            filepath_Rel sourceDir srcPath = Ok relPath
            /\ dstPath = filepath_Join [backup_dir os targetDir; relPath])
    /\ (forall srcPath dstPath source below target,
          (srcPath, dstPath) ∈ copies (run_log run) ->
          Forall proper source -> Forall proper below -> below <> [] ->
          Forall proper target -> proper ("FSAK_" +:+ today os) ->
          sourceDir = render_path true source ->
          srcPath = render_path true (source ++ below) ->
          targetDir = render_path true target ->
          dstPath = render_path true (target ++ ["FSAK_" +:+ today os] ++ below)).
Proof.
  intros Hrange Hm. unfold performMerge, Connect in Hm.
  destruct (faulty store OpenDatabase); [discriminate|].
  destruct (os_MkdirAll os (backup_dir os targetDir)) as [[?|] os'] eqn:Hmk; [discriminate|].
  assert (Hwalk : walk os' = walk os).
  { apply os_MkdirAll_done in Hmk. by subst os'. }
  destruct (getFilesWithHashes os' store sourceDir) as [[[sourceFiles|?] db'] evs] eqn:Hs;
    [|discriminate].
  destruct (getFilesWithHashes os' db' targetDir) as [[[targetFiles|?] db''] evs'] eqn:Ht;
    [|discriminate].
  destruct (getFilesWithHashes_spec _ _ _ _ _ _ Hs) as [Hcs Hds].
  destruct (getFilesWithHashes_spec _ _ _ _ _ _ Ht) as [Hct Hdt].
  rewrite Hwalk in Hds, Hdt.
  apply copy_all_log in Hm as (_ & Hcopies & _).
  cbn [run_log] in Hcopies.
  rewrite !copies_app, Hcs, Hct in Hcopies. cbn in Hcopies.
  rewrite drop_0 in Hcopies.
  apply announced_sources in Hcopies as [Hfst Hdst].
  pose proof (files_to_copy_spec range sourceFiles targetFiles Hrange) as Hsel.
  cbv zeta in Hsel. destruct Hsel as [Hnd Hnovel].
  exists os', db', db'', evs, evs', sourceFiles, targetFiles.
  rewrite Hfst. do 3 (split; [first [reflexivity|assumption]|]).
  split; [exact Hds|]. split; [exact Hdt|]. split; [exact Hnd|].
  split; [exact Hnovel|]. split; [exact Hdst|].
  intros srcPath dstPath source below target Hin Hs0 Hb Hne Ht0 Hday -> -> ->.
  destruct (Hdst _ _ Hin) as (relPath & Hrel & ->).
  rewrite filepath_Rel_below in Hrel by done. injection Hrel as <-.
  assert (Hday' : Forall proper ["FSAK_" +:+ today os])
    by (constructor; [exact Hday|constructor]).
  pose proof (filepath_Join_below target ["FSAK_" +:+ today os] Ht0 Hday') as Hbackup.
  cbn [join_path fold_left] in Hbackup. unfold backup_dir. rewrite Hbackup by done.
  rewrite filepath_Join_below; [by rewrite <- app_assoc| |done..].
  by apply Forall_app.
Qed.

(** C2.  A merge of the tree [/A], with the files [a.txt] ("X"), [b.txt]
    ("Y") and a file named [fsak.db] ("Z"), into the tree [/B], with the
    file [c.txt] ("X"), on a machine whose catalog is stored in the
    workspace under the home directory.  The file [/A/fsak.db] is not the
    catalog's file, and its digest pair is that of no file under [/B]; yet
    the merge, which returns without error, copies [b.txt] and nothing
    else: the file table afterwards is the one of before with the copy of
    [b.txt] in the backup directory, and the catalog has rows for the
    three files scanned and for the copy, none for [/A/fsak.db]. *)
Theorem merge_skips_a_novel_source_file :
  let merged :=
    @performMerge prefix_hashes in_order merge_os (empty_store no_fault) "/A" "/B" in
  (GetDBPath merge_os).1 = Ok "/home/u/.local/share/fsak/db/fsak.db"
  /\ merged.1 = None
  /\ walked_files (walk merge_os "/A") = ["/A/a.txt"; "/A/b.txt"; "/A/fsak.db"]
  /\ @FileBlake3MD5 prefix_hashes merge_os "/A/fsak.db"
     = ("5a00000000000000000000000000000000000000000000000000000000000000",
        "5a000000000000000000000000000000", None)
  /\ (fun path => @FileBlake3MD5 prefix_hashes merge_os path)
       <$> walked_files (walk merge_os "/B")
     = [("5800000000000000000000000000000000000000000000000000000000000000",
         "58000000000000000000000000000000", None)]
  /\ copies (run_log merged.2) = [("/A/b.txt", "/B/FSAK_261030/b.txt")]
  /\ files (run_os merged.2)
     = <["/B/FSAK_261030/b.txt" := mkFile (ReadEOF [x59]) 0 (Some 0)]> (files merge_os)
  /\ Path <$> rows (run_db merged.2)
     = ["/A/a.txt"; "/A/b.txt"; "/B/c.txt"; "/B/FSAK_261030/b.txt"].
Proof. repeat split; vm_compute; reflexivity. Qed.

(** Discharges [proper e] and [Forall proper elems] for literal elements. *)
Ltac literal_proper :=
  repeat first
    [ apply List.Forall_nil
    | apply List.Forall_cons
    | split; [discriminate | discriminate | discriminate
             | unfold no_slash; cbn; repeat constructor; discriminate] ].

(** ** The catalog: what the methods keep and how they compose *)

Lemma key_present_false (k : string) (db : DB) :
  key_present k db = false <-> key_absent k db.
Proof.
  unfold key_present, key_absent. rewrite existsb_false_forall, Forall_forall.
  split; intros Hx r Hr; specialize (Hx r Hr).
  - intros Heq. by rewrite Heq, String.eqb_refl in Hx.
  - by apply String.eqb_neq.
Qed.

Lemma find_key_absent (k : string) (db : DB) :
  key_absent k db -> List.find (fun r => String.eqb (Key r) k) (rows db) = None.
Proof.
  unfold key_absent. induction 1 as [|r rs Hr _ IH]; simpl; [done|].
  apply String.eqb_neq in Hr. by rewrite Hr.
Qed.

Lemma find_none_key_absent (k : string) (db : DB) :
  List.find (fun r => String.eqb (Key r) k) (rows db) = None -> key_absent k db.
Proof.
  intros Hf. apply Forall_forall. intros r Hr Heq.
  pose proof (find_none _ _ Hf r) as Hno. simpl in Hno.
  rewrite Heq, String.eqb_refl in Hno. apply list_elem_of_In in Hr. by specialize (Hno Hr).
Qed.

(** What a successful upsert did: it appended the record under a fresh
    primary key, or it overwrote the one row that held the key. *)
Lemma UpsertFileInfo_success (db db' : DB) (fi : FileInfo) :
  catalog_wf db ->
  UpsertFileInfo db fi = (None, db') ->
  backend_fault db' = backend_fault db
  /\ ((key_absent (Key fi) db
       /\ rows db' = rows db ++ [set_ID (if ID fi =? 0 then next_id db else ID fi) fi]
       /\ next_id db < next_id db')
      \/ (exists existing, existing ∈ rows db /\ Key existing = Key fi
          /\ rows db' = overwrite_row fi (rows db)
          /\ next_id db' = next_id db)).
Proof.
  intros Hwf. unfold UpsertFileInfo, first_by_key, faulty.
  destruct (backend_fault db (SelectByKey (Key fi))); [done|].
  cbn [fmap option_fmap option_map].
  destruct (List.find _ (rows db)) as [existing|] eqn:Hfind.
  - apply find_some_elem in Hfind as [Hin Hkey]. apply String.eqb_eq in Hkey.
    unfold Save. cbn [ID Key set_ID]. unfold faulty.
    destruct (backend_fault db (UpdateRow (ID existing))); [done|].
    cbn [fmap option_fmap option_map].
    destruct (existsb _ (rows db)); [done|].
    assert (Hhas : existsb (fun r => ID r =? ID existing) (rows db) = true).
    { apply existsb_exists. exists existing. split; [by apply list_elem_of_In|].
      apply Z.eqb_refl. }
    rewrite Hhas. intros [= <-]. split; [done|]. right. exists existing.
    split; [done|]. split; [done|]. split; [|done].
    cbn [rows with_rows]. unfold overwrite_row.
    apply list_eq_Forall2, Forall2_fmap, Forall_Forall2_diag, Forall_forall.
    intros r Hr.
    destruct (Z.eqb_spec (ID r) (ID existing)) as [Hid|Hid].
    + assert (r = existing) as -> by
        (apply (NoDup_fmap_inj_on ID (rows db)); [apply Hwf|done..]).
      by rewrite Hkey, String.eqb_refl.
    + destruct (String.eqb_spec (Key r) (Key fi)) as [Hk|]; [|done].
      destruct Hid. f_equal.
      apply (NoDup_fmap_inj_on Key (rows db)); [apply Hwf|done..|congruence].
  - cbn [is_record_not_found]. unfold Create, faulty.
    destruct (backend_fault db (InsertRow (Key fi))); [done|].
    cbn [fmap option_fmap option_map].
    destruct (existsb _ (rows db)); [done|].
    intros [= <-]. split; [done|]. left.
    split; [by apply find_none_key_absent|]. split; [done|]. cbn [next_id]. lia.
Qed.

Lemma overwrite_row_keys (fi : FileInfo) (rs : list FileInfo) :
  Key <$> overwrite_row fi rs = Key <$> rs.
Proof.
  unfold overwrite_row. rewrite <- list_fmap_compose. apply list_fmap_ext.
  intros i r _. simpl. destruct (String.eqb_spec (Key r) (Key fi)); [|done]. by simpl.
Qed.

Lemma other_rows_overwrite (fi : FileInfo) (rs : list FileInfo) :
  other_rows (Key fi) (overwrite_row fi rs) = other_rows (Key fi) rs.
Proof.
  unfold other_rows, overwrite_row. induction rs as [|r rs IH]; [done|].
  rewrite fmap_cons. simpl.
  destruct (String.eqb_spec (Key r) (Key fi)) as [Hk|Hk]; simpl.
  - rewrite String.eqb_refl. simpl. exact IH.
  - apply String.eqb_neq in Hk. rewrite Hk. simpl. f_equal. exact IH.
Qed.

Lemma other_rows_absent (k : string) (db : DB) :
  key_absent k db -> other_rows k (rows db) = rows db.
Proof. apply filter_key_absent. Qed.

Lemma other_rows_app (k : string) (l1 l2 : list FileInfo) :
  other_rows k (l1 ++ l2) = other_rows k l1 ++ other_rows k l2.
Proof. apply List.filter_app. Qed.

Lemma other_rows_own (fi : FileInfo) (id : Z) :
  other_rows (Key fi) [set_ID id fi] = [].
Proof. unfold other_rows. simpl. by rewrite String.eqb_refl. Qed.

(** X1.  On a catalog in which primary keys and keys are unique and every
    primary key is below the AUTOINCREMENT counter, [UpsertFileInfo] and
    [DeleteFileInfo] leave a catalog of which the same holds, whether the call
    succeeds or fails. *)
Theorem catalog_methods_keep_the_schema (db : DB) (fileInfo : FileInfo) (key : string) :
  catalog_wf db ->
  catalog_wf (UpsertFileInfo db fileInfo).2 /\ catalog_wf (DeleteFileInfo db key).2.
Proof. intros Hwf. split; [by apply UpsertFileInfo_wf|by apply DeleteFileInfo_wf]. Qed.

Lemma catalog_methods_keep_the_schema_witness :
  catalog_wf (UpsertFileInfo one_row_store new_record).2
  /\ catalog_wf (DeleteFileInfo one_row_store "k1").2.
Proof.
  apply (catalog_methods_keep_the_schema one_row_store new_record "k1").
  split; cbn; [apply NoDup_singleton|apply NoDup_singleton|repeat constructor].
Defined.

(** X2.  On a catalog that satisfies the schema's invariant, [UpsertFileInfo]
    changes no row with another key: the rows whose key differs from the
    record's are the same, in the same order, after the call as before it.
    When the call succeeds the table has one row more if no row held the key,
    and as many rows as before if one did. *)
Theorem UpsertFileInfo_touches_one_key (db : DB) (fileInfo : FileInfo) :
  catalog_wf db ->
  other_rows (Key fileInfo) (rows (UpsertFileInfo db fileInfo).2)
  = other_rows (Key fileInfo) (rows db)
  /\ ((UpsertFileInfo db fileInfo).1 = None ->
      length (rows (UpsertFileInfo db fileInfo).2)
      = if key_present (Key fileInfo) db then length (rows db) else S (length (rows db))).
Proof.
  intros Hwf. destruct (UpsertFileInfo db fileInfo) as [[e|] db'] eqn:Hup.
  - split; [|done]. cbn [snd].
    assert (db' = db) as ->; [|done].
    revert Hup. unfold UpsertFileInfo, first_by_key, faulty.
    destruct (backend_fault db (SelectByKey (Key fileInfo))); [by intros [= _ <-]|].
    cbn [fmap option_fmap option_map].
    destruct (List.find _ (rows db)) as [existing|].
    + unfold Save, Create, faulty. cbn [ID Key set_ID].
      destruct (backend_fault db (UpdateRow (ID existing))); [by intros [= _ <-]|].
      cbn [fmap option_fmap option_map].
      destruct (existsb _ (rows db)); [by intros [= _ <-]|].
      destruct (existsb _ (rows db)); [done|].
      destruct (backend_fault db (InsertRow (Key fileInfo))); [by intros [= _ <-]|].
      cbn [fmap option_fmap option_map].
      destruct (existsb _ (rows db)); [by intros [= _ <-]|done].
    + cbn [is_record_not_found]. unfold Create, faulty.
      destruct (backend_fault db (InsertRow (Key fileInfo))); [by intros [= _ <-]|].
      cbn [fmap option_fmap option_map].
      destruct (existsb _ (rows db)); [by intros [= _ <-]|done].
  - cbn [fst snd].
    destruct (UpsertFileInfo_success db db' fileInfo Hwf Hup)
      as (_ & [(Habs & -> & _)|(existing & Hin & Hkey & -> & _)]).
    + split.
      * by rewrite other_rows_app, other_rows_own, app_nil_r.
      * intros _. rewrite (proj2 (key_present_false _ _) Habs), length_app. simpl. lia.
    + split; [apply other_rows_overwrite|].
      intros _.
      assert (key_present (Key fileInfo) db = true) as ->.
      { apply existsb_exists. exists existing. split; [by apply list_elem_of_In|].
        by apply String.eqb_eq. }
      unfold overwrite_row. by rewrite length_fmap.
Qed.

Lemma UpsertFileInfo_touches_one_key_witness :
  other_rows "k2" (rows (UpsertFileInfo one_row_store new_record).2)
  = [sample_row 1 "k1" "/data/a.txt" "m" "b"]
  /\ length (rows (UpsertFileInfo one_row_store new_record).2) = 2%nat.
Proof.
  destruct (UpsertFileInfo_touches_one_key one_row_store new_record) as [H1 H2].
  - split; cbn; [apply NoDup_singleton|apply NoDup_singleton|repeat constructor].
  - split; [exact H1|]. apply H2. reflexivity.
Defined.

Lemma find_unique {A} (f : A -> bool) (l : list A) (x : A) :
  x ∈ l -> f x = true -> (forall y, y ∈ l -> f y = true -> y = x) ->
  List.find f l = Some x.
Proof.
  intros Hx Hfx Huniq.
  destruct (List.find f l) as [y|] eqn:Hfind.
  - apply find_some_elem in Hfind as [Hy Hfy]. f_equal. by apply Huniq.
  - pose proof (find_none _ _ Hfind x) as Hno. apply list_elem_of_In in Hx.
    specialize (Hno Hx). congruence.
Qed.

(** X3.  After a successful [UpsertFileInfo] of a record, on a catalog that
    satisfies the schema's invariant, in which every row with the record's
    path has the record's key and whose backend answers the select by path,
    [GetFileInfoByPath] on the record's path returns the record as it was
    given, with a primary key; that primary key is the one of the row that
    held the key before, when there was one. *)
Theorem UpsertFileInfo_then_GetFileInfoByPath (db db' : DB) (fileInfo : FileInfo) :
  catalog_wf db ->
  path_has_key fileInfo db ->
  UpsertFileInfo db fileInfo = (None, db') ->
  backend_fault db (SelectByPath (Path fileInfo)) = None ->
  exists id,
    GetFileInfoByPath db' (Path fileInfo) = Ok (set_ID id fileInfo)
    /\ (forall existing, existing ∈ rows db -> Key existing = Key fileInfo ->
        id = ID existing).
Proof.
  intros Hwf Hpath Hup Hsel.
  pose proof (UpsertFileInfo_wf db fileInfo Hwf) as Hwf'. rewrite Hup in Hwf'. cbn [snd] in Hwf'.
  destruct (UpsertFileInfo_success db db' fileInfo Hwf Hup)
    as (Hfault & [(Habs & Hrows & _)|(existing & Hin & Hkey & Hrows & _)]).
  - exists (if ID fileInfo =? 0 then next_id db else ID fileInfo). split.
    + unfold GetFileInfoByPath, faulty. rewrite Hfault, Hsel.
      cbn [fmap option_fmap option_map]. rewrite Hrows.
      erewrite find_unique; [done| | |].
      * apply elem_of_app. right. by apply list_elem_of_singleton.
      * simpl. apply String.eqb_refl.
      * intros y [Hy|Hy%list_elem_of_singleton]%elem_of_app Hp; [|done].
        apply String.eqb_eq in Hp. unfold path_has_key in Hpath.
        rewrite Forall_forall in Hpath. specialize (Hpath y Hy Hp).
        unfold key_absent in Habs. rewrite Forall_forall in Habs. by destruct (Habs y Hy).
    + intros e He Hk. unfold key_absent in Habs. rewrite Forall_forall in Habs.
      by destruct (Habs e He).
  - exists (ID existing). split.
    + unfold GetFileInfoByPath, faulty. rewrite Hfault, Hsel.
      cbn [fmap option_fmap option_map]. rewrite Hrows.
      assert (Hmine : set_ID (ID existing) fileInfo ∈ overwrite_row fileInfo (rows db)).
      { unfold overwrite_row. apply list_elem_of_fmap. exists existing.
        by rewrite Hkey, String.eqb_refl. }
      erewrite find_unique; [done|exact Hmine|simpl; apply String.eqb_refl|].
      intros y Hy Hp. apply String.eqb_eq in Hp.
      apply (NoDup_fmap_inj_on Key (rows db')); [apply Hwf'|by rewrite Hrows..|].
      cbn [Key set_ID].
      unfold overwrite_row in Hy. apply list_elem_of_fmap in Hy as (r & -> & Hr).
      destruct (String.eqb_spec (Key r) (Key fileInfo)) as [Hk|Hk]; [done|].
      unfold path_has_key in Hpath. rewrite Forall_forall in Hpath. by apply Hpath.
    + intros e He Hk. f_equal.
      apply (NoDup_fmap_inj_on Key (rows db)); [apply Hwf|done..|congruence].
Qed.

Lemma UpsertFileInfo_then_GetFileInfoByPath_witness :
  exists id,
    GetFileInfoByPath (UpsertFileInfo one_row_store new_record).2 "/data/b.txt"
    = Ok (set_ID id new_record)
    /\ (forall existing, existing ∈ rows one_row_store -> Key existing = "k2" ->
        id = ID existing).
Proof.
  apply (UpsertFileInfo_then_GetFileInfoByPath one_row_store
           (UpsertFileInfo one_row_store new_record).2 new_record).
  - split; cbn; [apply NoDup_singleton|apply NoDup_singleton|repeat constructor].
  - repeat constructor. cbn. discriminate.
  - reflexivity.
  - reflexivity.
Defined.

(** X4.  On a catalog that satisfies the schema's invariant, inserting a
    record under a key that no row holds and then deleting that key gives back
    the rows there were, but not the counter: the next primary key is higher
    than before and above every primary key the table held in between, so the
    primary key of the deleted row is not given again. *)
Theorem DeleteFileInfo_undoes_an_insert (db db1 db2 : DB) (fileInfo : FileInfo) :
  catalog_wf db ->
  key_absent (Key fileInfo) db ->
  UpsertFileInfo db fileInfo = (None, db1) ->
  DeleteFileInfo db1 (Key fileInfo) = (None, db2) ->
  rows db2 = rows db
  /\ next_id db < next_id db2
  /\ Forall (fun r => ID r < next_id db2) (rows db1).
Proof.
  intros Hwf Habs Hup Hdel.
  pose proof (UpsertFileInfo_wf db fileInfo Hwf) as Hwf1. rewrite Hup in Hwf1. cbn [snd] in Hwf1.
  destruct (UpsertFileInfo_success db db1 fileInfo Hwf Hup)
    as (Hfault & [(_ & Hrows & Hnext)|(existing & Hin & Hkey & _)]).
  2: { unfold key_absent in Habs. rewrite Forall_forall in Habs. by destruct (Habs existing Hin). }
  revert Hdel. unfold DeleteFileInfo, faulty.
  destruct (backend_fault db1 (DeleteByKey (Key fileInfo))); [done|].
  cbn [fmap option_fmap option_map]. intros [= <-]. cbn [rows next_id with_rows].
  split; [|split; [done|apply Hwf1]].
  rewrite Hrows. fold (other_rows (Key fileInfo) (rows db ++ [set_ID (if ID fileInfo =? 0 then next_id db else ID fileInfo) fileInfo])).
  by rewrite other_rows_app, other_rows_own, app_nil_r, other_rows_absent.
Qed.

Lemma DeleteFileInfo_undoes_an_insert_witness :
  rows (DeleteFileInfo (UpsertFileInfo one_row_store new_record).2 "k2").2
  = rows one_row_store.
Proof.
  apply (DeleteFileInfo_undoes_an_insert one_row_store
           (UpsertFileInfo one_row_store new_record).2
           (DeleteFileInfo (UpsertFileInfo one_row_store new_record).2 "k2").2
           new_record).
  - split; cbn; [apply NoDup_singleton|apply NoDup_singleton|repeat constructor].
  - repeat constructor. cbn. discriminate.
  - reflexivity.
  - reflexivity.
Defined.

(** X5.  On a catalog that satisfies the schema's invariant and whose backend
    answers every statement, a second [UpsertFileInfo] of the same record
    after a successful first one succeeds and leaves the catalog exactly as
    the first one left it. *)
Theorem UpsertFileInfo_twice (db db1 : DB) (fileInfo : FileInfo) :
  catalog_wf db ->
  healthy db ->
  UpsertFileInfo db fileInfo = (None, db1) ->
  UpsertFileInfo db1 fileInfo = (None, db1).
Proof.
  intros Hwf Hh Hup.
  pose proof (UpsertFileInfo_wf db fileInfo Hwf) as Hwf1. rewrite Hup in Hwf1. cbn [snd] in Hwf1.
  destruct (UpsertFileInfo_success db db1 fileInfo Hwf Hup) as (Hfault & Hcases).
  assert (Hh1 : healthy db1) by (intros c; by rewrite Hfault).
  assert (exists mine, mine ∈ rows db1 /\ mine = set_ID (ID mine) fileInfo) as (mine & Hin & Hmine).
  { destruct Hcases as [(_ & Hrows & _)|(existing & Hin & Hkey & Hrows & _)].
    - eexists. split; [rewrite Hrows; apply elem_of_app; right; by apply list_elem_of_singleton|].
      done.
    - exists (set_ID (ID existing) fileInfo). split; [|done]. rewrite Hrows.
      unfold overwrite_row. apply list_elem_of_fmap. exists existing.
      by rewrite Hkey, String.eqb_refl. }
  assert (Hkey : Key mine = Key fileInfo) by (by rewrite Hmine).
  destruct (UpsertFileInfo_existing_key db1 fileInfo mine Hwf1 Hin Hkey) as (_ & _ & Hok).
  destruct (Hok Hh1) as [Hnone _].
  destruct (UpsertFileInfo db1 fileInfo) as [e db2] eqn:Hup2. cbn [fst] in Hnone. subst e.
  f_equal.
  destruct (UpsertFileInfo_success db1 db2 fileInfo Hwf1 Hup2)
    as (Hfault2 & [(Habs & _)|(existing & _ & _ & Hrows & Hnext)]).
  { unfold key_absent in Habs. rewrite Forall_forall in Habs. by destruct (Habs mine Hin). }
  destruct db1 as [rs1 n1 f1], db2 as [rs2 n2 f2]. cbn [rows next_id backend_fault] in *.
  subst. f_equal.
  unfold overwrite_row. rewrite <- (list_fmap_id rs1) at 2.
  apply list_eq_Forall2, Forall2_fmap, Forall_Forall2_diag, Forall_forall.
  intros r Hr. simpl.
  destruct (String.eqb_spec (Key r) (Key fileInfo)) as [Hk|]; [|done].
  assert (r = mine) as ->
    by (apply (NoDup_fmap_inj_on Key rs1); [apply Hwf1|done..|congruence]).
  by rewrite <- Hmine.
Qed.

Lemma UpsertFileInfo_twice_witness :
  UpsertFileInfo (UpsertFileInfo one_row_store new_record).2 new_record
  = (None, (UpsertFileInfo one_row_store new_record).2).
Proof.
  apply (UpsertFileInfo_twice one_row_store).
  - split; cbn; [apply NoDup_singleton|apply NoDup_singleton|repeat constructor].
  - intros c. reflexivity.
  - reflexivity.
Defined.

(** ** Keys of the rows a command writes *)

Lemma UpsertFileInfo_Forall (P : FileInfo -> Prop) (db : DB) (fi : FileInfo) :
  (forall id, P (set_ID id fi)) ->
  Forall P (rows db) -> Forall P (rows (UpsertFileInfo db fi).2).
Proof.
  intros Hfi Hrows. unfold UpsertFileInfo, first_by_key, faulty.
  assert (Hcreate : forall fi', (forall id, P (set_ID id fi')) ->
                                Forall P (rows (Create db fi').2)).
  { intros fi' Hfi'. unfold Create, faulty.
    destruct (backend_fault db (InsertRow (Key fi'))); [done|].
    cbn [fmap option_fmap option_map].
    destruct (existsb _ (rows db)); [done|]. cbn [snd rows].
    apply Forall_app. split; [done|]. constructor; [apply Hfi'|constructor]. }
  destruct (backend_fault db (SelectByKey (Key fi))); [done|].
  cbn [fmap option_fmap option_map].
  destruct (List.find _ (rows db)) as [existing|].
  - unfold Save, faulty. cbn [ID Key set_ID].
    destruct (backend_fault db (UpdateRow (ID existing))); [done|].
    cbn [fmap option_fmap option_map].
    destruct (existsb _ (rows db)); [done|].
    destruct (existsb _ (rows db)).
    + cbn [snd rows with_rows]. apply Forall_forall. intros r Hr.
      apply list_elem_of_In, in_map_iff in Hr as (r0 & <- & Hr0).
      destruct (ID r0 =? ID existing); [apply Hfi|].
      rewrite Forall_forall in Hrows. apply Hrows. by apply list_elem_of_In.
    + apply Hcreate. intros id. destruct fi; apply (Hfi id).
  - cbn [is_record_not_found]. by apply Hcreate.
Qed.


Lemma filepath_Clean_IsAbs (path : string) :
  filepath_IsAbs path = true -> filepath_IsAbs (filepath_Clean path) = true.
Proof.
  intros Habs. unfold filepath_Clean, render_path. rewrite Habs.
  exact (filepath_IsAbs_slash _).
Qed.

Lemma filepath_IsAbs_inv (path : string) :
  filepath_IsAbs path = true -> exists rest, path = String "/" rest.
Proof.
  destruct path as [|c rest]; [done|].
  unfold filepath_IsAbs, strings_HasPrefix. cbn [String.prefix].
  destruct (Ascii.ascii_dec "/" c) as [<-|]; [eauto|done].
Qed.

Lemma filepath_Abs_IsAbs (os : OS) (path absPath : string) :
  filepath_IsAbs (cwd os) = true ->
  filepath_Abs os path = Ok absPath -> filepath_IsAbs absPath = true.
Proof.
  intros Hcwd. unfold filepath_Abs.
  destruct (filepath_IsAbs path) eqn:Habs.
  - intros [= <-]. by apply filepath_Clean_IsAbs.
  - unfold os_Getwd. destruct (sys_fault os SysGetwd); [done|]. intros [= <-].
    apply filepath_IsAbs_inv in Hcwd as [wd Hwd]. rewrite Hwd.
    unfold filepath_Join. cbn [List.filter String.eqb negb].
    destruct (String.eqb path ""); cbn [negb]; apply filepath_Clean_IsAbs.
    + cbn [join_path fold_left]. apply filepath_IsAbs_slash.
    + cbn [join_path fold_left]. rewrite !append_cons. apply filepath_IsAbs_slash.
Qed.

Lemma keyed_set_ID `{HashLib} (id : Z) (r : FileInfo) :
  keyed_by_abs_path r -> keyed_by_abs_path (set_ID id r).
Proof. by intros [Hk Ha]. Qed.

(** A record a worker produces is keyed by the digest of the absolute path
    of the file it was made for. *)
Lemma processFileInfoOnly_record `{HashLib} (os : OS) (db : DB) (filePath tag : string)
    (force : bool) (fileInfo : FileInfo) (evs : list event) :
  processFileInfoOnly os db filePath tag force = (Ok (Some fileInfo), evs) ->
  filepath_Abs os filePath = Ok (Path fileInfo)
  /\ Key fileInfo = CalculateBlake3String (Path fileInfo)
  /\ Name fileInfo = filepath_Base filePath
  /\ Tag fileInfo = tag
  /\ ID fileInfo = 0.
Proof.
  unfold processFileInfoOnly.
  destruct (os_Stat os filePath) as [info|]; [|done].
  destruct (filepath_Abs os filePath) as [absPath|]; [|done].
  assert (Hprint : forall r : result (option FileInfo),
            match FileBlake3MD5 os filePath with
            | (_, _, Some err) =>
                Err (ErrWrap ("error calculating hashes for " +:+ filePath) err)
            | (blake3Hash, md5Hash, None) =>
                Ok (Some {| ID := 0; Key := CalculateBlake3String absPath;
                            Name := filepath_Base filePath; Path := absPath; Status := 0;
                            MD5 := md5Hash; Blake3 := blake3Hash; Size := st_Size info;
                            Tag := tag; MTime := st_ModTime info;
                            CTime := GetCreationTime info |})
            end = r -> r = Ok (Some fileInfo) ->
            Ok absPath = Ok (Path fileInfo)
            /\ Key fileInfo = CalculateBlake3String (Path fileInfo)
            /\ Name fileInfo = filepath_Base filePath
            /\ Tag fileInfo = tag /\ ID fileInfo = 0).
  { intros r <-. destruct (FileBlake3MD5 os filePath) as [[b m] [e|]]; [done|].
    by intros [= <-]. }
  destruct (negb force).
  - destruct (GetFileInfoByPath db absPath) as [|e]; [done|].
    destruct (negb (is_record_not_found e)); [done|].
    intros [= Hr _]. by eapply Hprint.
  - intros [= Hr _]. by eapply Hprint.
Qed.

Section SyncRecords.
Context `{HL : HashLib} `{RL : RegexpLib}.
Variables (args : SyncArgs) (os : OS).
Variables (P Q : FileInfo -> Prop) (W : string -> Prop).
Hypothesis Q_saved : forall id r, Q r -> P (set_ID id r).
Hypothesis W_walk : forall dir path,
  dir ∈ arg_dirs args ->
  path ∈ (filepath_Walk os dir (sync_walk_fn (arg_blacklistPatterns args)) []).1 ->
  W path.
Hypothesis Q_worker : forall db filePath fileInfo evs,
  W filePath ->
  processFileInfoOnly os db filePath (arg_tag args) (arg_force args)
  = (Ok (Some fileInfo), evs) -> Q fileInfo.

Lemma run_ok_start (store : DB) :
  Forall P (rows store) -> run_ok args P Q W (pipeline_start args os store).
Proof.
  intros Hrows. unfold pipeline_start.
  destruct (countFiles os (arg_dirs args) (arg_blacklistPatterns args) 0).
  2: { by split. }
  unfold Connect. destruct (faulty store OpenDatabase); [by split|].
  split; cbn; try done.
  - apply Forall_replicate. constructor.
  - split; [done|]. by apply Forall_forall.
Qed.

Lemma main_step_ok (s s' : Pipeline) :
  run_ok args P Q W s -> main_step args os s = Some s' -> run_ok args P Q W s'.
Proof.
  intros [Hrows Hch Hws Hc Hfc Hm]. unfold main_step.
  destruct (p_main s) as [pending dirs| | | |]; try done.
  - destruct Hm as [Hpending Hdirs]. destruct pending as [|path pending].
    + destruct dirs as [|dir dirs].
      * intros [= <-]. by split.
      * apply Forall_cons in Hdirs as [Hdir Hdirs].
        destruct (filepath_Walk os dir _ []) as [sent err] eqn:Hwalk. intros [= <-].
        split; cbn -[app]; try done. split; [|done].
        apply Forall_forall. intros path Hpath. apply (W_walk dir); [done|].
        by rewrite Hwalk.
    + apply Forall_cons in Hpending as [Hpath Hpending].
      destruct (channel_has_room _ _); [|done]. intros [= <-].
      split; cbn -[app]; try done. apply Forall_app. split; [done|].
      by apply Forall_singleton.
  - destruct (forallb _ _); [|done]. intros [= <-]. by split.
  - intros [= <-]. by split.
Qed.

Lemma worker_step_ok (threadId : nat) (s s' : Pipeline) :
  run_ok args P Q W s -> worker_step args os threadId s = Some s' -> run_ok args P Q W s'.
Proof.
  intros [Hrows Hch Hws Hc Hfc Hm]. unfold worker_step.
  destruct (p_workers s !! threadId) as [[|fileInfo|]|] eqn:Hw; try done.
  - destruct (p_fileCh s) as [|path rest] eqn:Hfile.
    + destruct (p_fileCh_closed s); [|done]. intros [= <-].
      split; cbn -[app]; rewrite ?Hfile; try done.
      apply Forall_insert; [done|constructor].
    + apply Forall_cons in Hfc as [Hpath Hrest]. cbn [p_db set_fileCh].
      destruct (processFileInfoOnly os (p_db s) path (arg_tag args) (arg_force args))
        as [[[fi|]|e] evs] eqn:Hp; intros [= <-]; split; cbn -[app]; try done.
      apply Forall_insert; [done|]. apply Forall_singleton. by eapply Q_worker.
  - destruct (channel_has_room _ _); [|done]. intros [= <-].
    pose proof (proj1 (Forall_lookup _ _) Hws _ _ Hw) as Hfi. cbn in Hfi.
    split; cbn -[app]; try done.
    + apply Forall_app. by split.
    + apply Forall_insert; [done|constructor].
Qed.

Lemma collector_step_ok (s s' : Pipeline) :
  run_ok args P Q W s -> collector_step args s = Some s' -> run_ok args P Q W s'.
Proof.
  intros [Hrows Hch Hws Hc Hfc Hm]. unfold collector_step.
  destruct (p_collector s) as [batch|todo batch final|] eqn:Hcol; [| |done];
    cbn -[app] in Hc.
  - destruct (p_resultCh s) as [|fileInfo rest] eqn:Hres.
    + destruct (p_resultCh_closed s); [|done].
      destruct batch; intros [= <-]; split; cbn -[app]; try done; try by rewrite Hres.
      apply Forall_app. by split.
    + apply Forall_cons in Hch as [Hfi Hrest].
      assert (Forall Q (batch ++ [fileInfo])) as Hb
          by (apply Forall_app; split; [done|by apply Forall_singleton]).
      destruct (arg_batchSize args <=? _); intros [= <-]; split; cbn -[app]; try done.
      apply Forall_app. by split.
  - apply Forall_app in Hc as [Htodo Hbatch].
    destruct todo as [|info todo].
    + intros [= <-]. split; cbn -[app]; try done. destruct final; cbn; done.
    + apply Forall_cons in Htodo as [Hinfo Htodo].
      pose proof (UpsertFileInfo_Forall P (p_db s) info
                    (fun id => Q_saved id info Hinfo) Hrows) as Hup.
      destruct (UpsertFileInfo (p_db s) info) as [[e|] db'];
        intros [= <-]; split; cbn -[app]; try done; apply Forall_app; by split.
Qed.

Lemma run_ok_step (a : Actor) (s s' : Pipeline) :
  run_ok args P Q W s -> pipeline_step args os a s = Some s' -> run_ok args P Q W s'.
Proof.
  intros Hok. unfold pipeline_step.
  destruct (p_main s); try done;
    destruct a; eauto using main_step_ok, worker_step_ok, collector_step_ok.
Qed.

Lemma run_ok_schedule (schedule : list Actor) (s s' : Pipeline) :
  run_ok args P Q W s -> run_schedule args os schedule s = Some s' -> run_ok args P Q W s'.
Proof.
  revert s. induction schedule as [|a schedule IH]; intros s Hok; simpl.
  - by intros [= <-].
  - destruct (pipeline_step args os a s) as [s1|] eqn:Hstep; [|done].
    apply IH. by eapply run_ok_step.
Qed.
End SyncRecords.

(** X6.  When the working directory is absolute and every row of the catalog
    has an absolute path and the Blake3 digest of that path as its key, then
    after any schedule of [processDirectories] the same holds of every row of
    the catalog and of every record still in [resultCh] or held by the
    batching goroutine. *)
Theorem sync_keys_rows_by_absolute_path `{HL : HashLib} `{RL : RegexpLib}
    (args : SyncArgs) (os : OS) (store : DB) (schedule : list Actor) (s : Pipeline) :
  filepath_IsAbs (cwd os) = true ->
  Forall keyed_by_abs_path (rows store) ->
  processDirectories args os store schedule = Some s ->
  Forall keyed_by_abs_path (rows (p_db s))
  /\ Forall keyed_by_abs_path (p_resultCh s)
  /\ Forall keyed_by_abs_path (collector_records (p_collector s)).
Proof.
  intros Hcwd Hstore Hrun.
  assert (run_ok args keyed_by_abs_path keyed_by_abs_path (fun _ => True) s)
    as [H1 H2 _ H3 _ _]; [|done].
  eapply (run_ok_schedule args os); [| | |by apply run_ok_start|exact Hrun].
  - intros id r. apply keyed_set_ID.
  - done.
  - intros db filePath fileInfo evs _ Hp.
    apply processFileInfoOnly_record in Hp as (Habs & Hkey & _).
    split; [done|]. by eapply filepath_Abs_IsAbs.
Qed.

Lemma sync_keys_rows_by_absolute_path_witness :
  exists s,
    @processDirectories prefix_hashes small_regexp sync_args sync_os
                        (empty_store no_fault) drained = Some s
    /\ Forall (@keyed_by_abs_path prefix_hashes) (rows (p_db s))
    /\ length (rows (p_db s)) = 1%nat.
Proof.
  eexists. split; [vm_compute; reflexivity|]. split.
  - eapply (@sync_keys_rows_by_absolute_path prefix_hashes small_regexp sync_args sync_os
              (empty_store no_fault) drained).
    + reflexivity.
    + constructor.
    + vm_compute. reflexivity.
  - reflexivity.
Defined.

Lemma sync_walk_fn_sent `{RL : RegexpLib} (ps : list Regexp)
    (entries : list (string * result FileStat)) (sent : list string) (path : string) :
  path ∈ (walk_entries (sync_walk_fn ps) entries sent).1 ->
  path ∈ sent
  \/ exists info, (path, Ok info) ∈ entries /\ st_IsDir info = false
                  /\ shouldSkip ps path = false.
Proof.
  revert sent. induction entries as [|[p info] entries IH]; intros sent; [by left|].
  cbn [walk_entries]. unfold sync_walk_fn at 1.
  destruct info as [info|e]; [|by left].
  assert (Hrest : path ∈ (walk_entries (sync_walk_fn ps) entries sent).1 ->
                  path ∈ sent
                  \/ exists info0, (path, Ok info0) ∈ (p, Ok info) :: entries
                                   /\ st_IsDir info0 = false /\ shouldSkip ps path = false).
  { intros [Hs|(i & Hi & Hd & Hk)]%IH; [by left|]. right. exists i.
    split; [by right|done]. }
  destruct (st_IsDir info) eqn:Hdir; [exact Hrest|].
  destruct (shouldSkip ps p) eqn:Hskip; [exact Hrest|].
  intros [[Hs|Heq%list_elem_of_singleton]%elem_of_app|(i & Hi & Hd & Hk)]%IH.
  - by left.
  - subst path. right. exists info. split; [by left|done].
  - right. exists i. split; [by right|done].
Qed.

(** A record made for a file of the walk that no blacklist pattern matches. *)
(** X7.  Whatever the schedule, every row in the catalog after
    [processDirectories] was in it before the run or is a record of this run:
    its path is the absolute path of a regular file met by the walk of one of
    the directories given, which no blacklist pattern matches, and its tag is
    the tag given. *)
Theorem sync_catalogues_only_walked_files `{HL : HashLib} `{RL : RegexpLib}
    (args : SyncArgs) (os : OS) (store : DB) (schedule : list Actor) (s : Pipeline) :
  processDirectories args os store schedule = Some s ->
  Forall (fun r => r ∈ rows store \/ record_of_walk args os r) (rows (p_db s)).
Proof.
  intros Hrun.
  assert (run_ok args (fun r => r ∈ rows store \/ record_of_walk args os r)
                 (record_of_walk args os)
                 (fun path => exists dir info,
                      dir ∈ arg_dirs args /\ (path, Ok info) ∈ walk os dir
                      /\ st_IsDir info = false
                      /\ shouldSkip (arg_blacklistPatterns args) path = false) s)
    as [H1 _ _ _ _ _]; [|done].
  eapply (run_ok_schedule args os); [| | |apply run_ok_start|exact Hrun].
  - intros id r (dir & path & info & H). right. exists dir, path, info. exact H.
  - intros dir path Hdir Hpath. unfold filepath_Walk in Hpath.
    apply sync_walk_fn_sent in Hpath as [Hnil|(info & Hin & Hd & Hk)].
    + by apply elem_of_nil in Hnil.
    + by exists dir, info.
  - intros db filePath fileInfo evs (dir & info & Hdir & Hin & Hd & Hk) Hp.
    apply processFileInfoOnly_record in Hp as (Habs & _ & _ & Htag & _).
    by exists dir, filePath, info.
  - apply Forall_forall. intros r Hr. by left.
Qed.

Lemma sync_catalogues_only_walked_files_witness :
  exists s,
    @processDirectories prefix_hashes small_regexp sync_args sync_os
                        (empty_store no_fault) drained = Some s
    /\ Forall (fun r => r ∈ rows (empty_store no_fault)
                      \/ @record_of_walk small_regexp sync_args sync_os r)
              (rows (p_db s))
    /\ Path <$> rows (p_db s) = ["/d/a.txt"].
Proof.
  eexists. split; [vm_compute; reflexivity|]. split.
  - eapply (@sync_catalogues_only_walked_files prefix_hashes small_regexp sync_args sync_os
              (empty_store no_fault) drained).
    vm_compute. reflexivity.
  - reflexivity.
Defined.

(** *** The merge engine *)

Lemma walk_entries_inv {S : Type} (I : S -> Prop)
    (fn : string -> result FileStat -> S -> S * option error)
    (entries : list (string * result FileStat)) (s : S) :
  (forall path info s, I s -> I (fn path info s).1) ->
  I s -> I (walk_entries fn entries s).1.
Proof.
  intros Hfn. revert s. induction entries as [|[path info] entries IH]; intros s Hs; [done|].
  simpl. pose proof (Hfn path info s Hs) as H1.
  destruct (fn path info s) as [s1 [e|]]; [done|]. by apply IH.
Qed.

Lemma os_MkdirAll_cwd (os : OS) (path : string) : cwd (os_MkdirAll os path).2 = cwd os.
Proof.
  destruct (os_MkdirAll_keeps os path) as [made ->]. done.
Qed.

Lemma os_Create_cwd (os : OS) (path : string) : cwd (os_Create os path).2 = cwd os.
Proof.
  unfold os_Create. destruct (sys_fault os _); [done|].
  destruct (negb _); [done|]. by destruct (bool_decide _).
Qed.

Lemma copyFile_cwd (os : OS) (src dst : string) : cwd (copyFile os src dst).2 = cwd os.
Proof.
  unfold copyFile. destruct (os_Open os src); [|done].
  pose proof (os_Create_cwd os dst) as Hc.
  destruct (os_Create os dst) as [[e|] os']; [done|]. cbn [snd] in Hc.
  destruct (io_Copy _ _ _) as [[written err] ops].
  destruct err; [done|]. by destruct (sys_fault os _).
Qed.

Section MergeRecords.
Context `{HL : HashLib}.

Lemma hashes_walk_fn_rows (os : OS) (totalFiles : Z) (path : string)
    (info : result FileStat) (s : Scan) :
  filepath_IsAbs (cwd os) = true ->
  Forall keyed_by_abs_path (rows (scan_db s)) ->
  Forall keyed_by_abs_path (rows (scan_db (hashes_walk_fn os totalFiles path info s).1)).
Proof.
  intros Hcwd Hrows. unfold hashes_walk_fn.
  destruct (scanned_entry path info) as [st|]; [|done]. cbn [scan_db].
  destruct (filepath_Abs os path) as [absPath|] eqn:Habs; [|done].
  destruct (match GetFileInfoByPath (scan_db s) absPath with
            | Ok dbFileInfo => _ | Err _ => None end); [done|].
  destruct (FileBlake3MD5 os path) as [[b m] [e|]]; [done|].
  match goal with
  | |- context [UpsertFileInfo ?db ?fi] =>
      pose proof (UpsertFileInfo_Forall keyed_by_abs_path db fi) as Hup;
      destruct (UpsertFileInfo db fi) as [[e|] db']
  end; cbn [fst snd scan_db] in *; apply Hup; try done;
    intros id; (split; [done|by eapply filepath_Abs_IsAbs]).
Qed.

Lemma getFilesWithHashes_rows (os : OS) (db : DB) (dir : string) :
  filepath_IsAbs (cwd os) = true ->
  Forall keyed_by_abs_path (rows db) ->
  Forall keyed_by_abs_path (rows (getFilesWithHashes os db dir).1.2).
Proof.
  intros Hcwd Hrows. unfold getFilesWithHashes.
  destruct (filepath_Walk os dir _ 0) as [totalFiles e0].
  destruct (totalFiles =? 0); [done|].
  pose proof (walk_entries_inv
                (fun s => Forall keyed_by_abs_path (rows (scan_db s)))
                (hashes_walk_fn os totalFiles) (walk os dir) (mkScan db ∅ 0 [])
                (fun path info s => hashes_walk_fn_rows os totalFiles path info s Hcwd)
                Hrows) as Hw.
  unfold filepath_Walk.
  by destruct (walk_entries _ _ _) as [s [e|]].
Qed.

Lemma copy_one_rows (sourceDir backupDir srcPath : string) (run : Run) :
  filepath_IsAbs (cwd (run_os run)) = true ->
  Forall keyed_by_abs_path (rows (run_db run)) ->
  filepath_IsAbs (cwd (run_os (copy_one sourceDir backupDir srcPath run).2)) = true
  /\ Forall keyed_by_abs_path (rows (run_db (copy_one sourceDir backupDir srcPath run).2)).
Proof.
  intros Hcwd Hrows. unfold copy_one.
  destruct (filepath_Rel sourceDir srcPath) as [relPath|]; [|done].
  pose proof (os_MkdirAll_cwd (run_os run)
                (filepath_Dir (filepath_Join [backupDir; relPath]))) as Hc1.
  destruct (os_MkdirAll (run_os run) _) as [[e|] os1]; cbn [snd] in Hc1.
  { cbn [snd run_os run_db on_os]. by rewrite Hc1. }
  cbn [run_os run_db say on_os].
  pose proof (copyFile_cwd os1 srcPath (filepath_Join [backupDir; relPath])) as Hc2.
  destruct (copyFile os1 srcPath _) as [[e|] os2]; cbn [snd] in Hc2.
  { cbn [snd run_os run_db on_os]. by rewrite Hc2, Hc1. }
  cbn [run_os run_db say on_os].
  assert (Hcwd2 : filepath_IsAbs (cwd os2) = true) by (by rewrite Hc2, Hc1).
  destruct (os_Stat os2 srcPath) as [fileInfo|]; [|done].
  destruct (filepath_Abs os2 _) as [absDstPath|] eqn:Habs; [|done].
  destruct (FileBlake3MD5 os2 _) as [[b m] [e|]]; [done|].
  match goal with
  | |- context [UpsertFileInfo ?db ?fi] =>
      pose proof (UpsertFileInfo_Forall keyed_by_abs_path db fi) as Hup;
      destruct (UpsertFileInfo db fi) as [[e|] db']
  end; cbn [fst snd run_db run_os on_db] in *; (split; [done|]); apply Hup; try done;
    intros id; (split; [done|by eapply filepath_Abs_IsAbs]).
Qed.

Lemma copy_all_rows (sourceDir backupDir : string) (filesToCopy : list string) (run : Run) :
  filepath_IsAbs (cwd (run_os run)) = true ->
  Forall keyed_by_abs_path (rows (run_db run)) ->
  Forall keyed_by_abs_path (rows (run_db (copy_all sourceDir backupDir filesToCopy run).2)).
Proof.
  revert run. induction filesToCopy as [|srcPath rest IH]; intros run Hcwd Hrows; [done|].
  simpl. destruct (copy_one_rows sourceDir backupDir srcPath run Hcwd Hrows) as [H1 H2].
  destruct (copy_one sourceDir backupDir srcPath run) as [[e|] run']; [done|].
  by apply IH.
Qed.

(** X8.  When the working directory is absolute and every row of the catalog
    has an absolute path and the Blake3 digest of that path as its key, the
    same holds of the catalog [performMerge] leaves, whether it returns an
    error or not. *)
Theorem merge_keys_rows_by_absolute_path (range : RangeOrder) (os : OS) (store : DB)
    (sourceDir targetDir : string) :
  filepath_IsAbs (cwd os) = true ->
  Forall keyed_by_abs_path (rows store) ->
  Forall keyed_by_abs_path (rows (run_db (performMerge range os store sourceDir targetDir).2)).
Proof.
  intros Hcwd Hrows. unfold performMerge, Connect.
  destruct (faulty store OpenDatabase); [done|].
  pose proof (os_MkdirAll_cwd os (backup_dir os targetDir)) as Hc1.
  destruct (os_MkdirAll os _) as [[e|] os1]; cbn [snd] in Hc1; [done|].
  assert (Hcwd1 : filepath_IsAbs (cwd os1) = true) by (by rewrite Hc1).
  pose proof (getFilesWithHashes_rows os1 store sourceDir Hcwd1 Hrows) as H1.
  destruct (getFilesWithHashes os1 store sourceDir) as [[[sourceFiles|e] db1] evs1];
    cbn [fst snd] in H1; [|done].
  pose proof (getFilesWithHashes_rows os1 db1 targetDir Hcwd1 H1) as H2.
  destruct (getFilesWithHashes os1 db1 targetDir) as [[[targetFiles|e] db2] evs2];
    cbn [fst snd] in H2; [|done].
  by apply copy_all_rows.
Qed.
End MergeRecords.

Lemma merge_keys_rows_by_absolute_path_witness :
  Forall (@keyed_by_abs_path prefix_hashes)
         (rows (run_db (@performMerge prefix_hashes in_order merge_os
                          (empty_store no_fault) "/A" "/B").2)).
Proof.
  apply (@merge_keys_rows_by_absolute_path prefix_hashes in_order merge_os
           (empty_store no_fault) "/A" "/B").
  - reflexivity.
  - constructor.
Defined.

(** *** The duplicate resolver *)

Section DupRecords.
Context `{HL : HashLib}.







End DupRecords.


(** ** The count and the progress of the sync pipeline *)

Section Counting.
Context `{RL : RegexpLib}.

Lemma count_and_sync_walk (ps : list Regexp) (entries : list (string * result FileStat))
    (n : Z) (sent : list string) :
  (walk_entries (count_walk_fn ps) entries n).2
  = (walk_entries (sync_walk_fn ps) entries sent).2
  /\ ((walk_entries (count_walk_fn ps) entries n).2 = None ->
      (walk_entries (count_walk_fn ps) entries n).1 - n
      = Z.of_nat (length (walk_entries (sync_walk_fn ps) entries sent).1)
        - Z.of_nat (length sent)).
Proof.
  revert n sent. induction entries as [|[path info] entries IH]; intros n sent.
  - cbn. split; [done|]. lia.
  - cbn [walk_entries].
    destruct info as [info|e]; cbn [count_walk_fn sync_walk_fn]; [|by split].
    destruct (st_IsDir info); [apply IH|].
    destruct (shouldSkip ps path); [apply IH|].
    destruct (IH (n + 1) (sent ++ [path])) as [He Hn]. split; [done|].
    intros Hnone. specialize (Hn Hnone). rewrite length_app in Hn. simpl in Hn. lia.
Qed.

Lemma countFiles_total (os : OS) (dirs : list string) (ps : list Regexp) (n total : Z) :
  countFiles os dirs ps n = Ok total ->
  total = n + Z.of_nat (length (dirs ≫= sent_paths os ps))
  /\ Forall (fun dir => (filepath_Walk os dir (sync_walk_fn ps) []).2 = None) dirs.
Proof.
  revert n. induction dirs as [|dir dirs IH]; intros n.
  - cbn. intros [= <-]. split; [lia|done].
  - cbn [countFiles]. unfold filepath_Walk.
    destruct (count_and_sync_walk ps (walk os dir) n []) as [He Hn].
    destruct (walk_entries (count_walk_fn ps) (walk os dir) n) as [n' [e|]]; [done|].
    cbn [fst snd] in *. specialize (Hn eq_refl).
    change (walk_entries (sync_walk_fn ps) (walk os dir) []).1
      with (sent_paths os ps dir) in Hn.
    intros Hc. apply IH in Hc as [Ht Hall]. split.
    + cbn [mbind list_bind]. rewrite length_app. cbn [length] in Hn. lia.
    + constructor; [by symmetry|done].
Qed.

Lemma countFiles_error (os : OS) (dirs : list string) (ps : list Regexp) (n : Z) (e : error) :
  countFiles os dirs ps n = Err e ->
  exists dir, dir ∈ dirs /\ (filepath_Walk os dir (sync_walk_fn ps) []).2 = Some e.
Proof.
  revert n. induction dirs as [|dir dirs IH]; intros n; [done|].
  cbn [countFiles]. unfold filepath_Walk.
  destruct (count_and_sync_walk ps (walk os dir) n []) as [He _].
  destruct (walk_entries (count_walk_fn ps) (walk os dir) n) as [n' [e'|]].
  - intros [= ->]. exists dir. split; [by left|]. by rewrite <- He.
  - intros (d & Hd & Hw)%IH. exists d. split; [by right|done].
Qed.

(** Two machines on which the walk of a directory delivers the same
    entries: the walk sends the same paths and ends the same way. *)
Lemma sync_walk_same (counted os : OS) (ps : list Regexp) (dir : string) :
  walk os dir = walk counted dir ->
  filepath_Walk os dir (sync_walk_fn ps) [] = filepath_Walk counted dir (sync_walk_fn ps) [].
Proof. unfold filepath_Walk. by intros ->. Qed.

Lemma sent_paths_same (counted os : OS) (ps : list Regexp) (dirs : list string) :
  Forall (fun dir => walk os dir = walk counted dir) dirs ->
  dirs ≫= sent_paths os ps = dirs ≫= sent_paths counted ps.
Proof.
  induction 1 as [|dir dirs Hdir _ IH]; [done|].
  cbn [mbind list_bind]. unfold sent_paths at 1 3.
  by rewrite (sync_walk_same counted os ps dir Hdir), IH.
Qed.
End Counting.

(** X10.  [processDirectories] counts the files with [countFiles] before it
    opens the catalog and walks the directories after it.  When the walks of
    the directories deliver on the machine of after what they delivered on
    the machine of the count, the two agree: a total that [countFiles]
    returns is the number of paths the walks send to the workers, and none
    of these walks ends with an error; an error that [countFiles] returns is
    the error with which the walk of one of the directories ends. *)
Theorem countFiles_counts_what_the_walk_sends `{RL : RegexpLib} (counted os : OS)
    (dirs : list string) (blacklistPatterns : list Regexp) :
  Forall (fun dir => walk os dir = walk counted dir) dirs ->
  match countFiles counted dirs blacklistPatterns 0 with
  | Ok totalFiles =>
      totalFiles = Z.of_nat (length (dirs ≫= sent_paths os blacklistPatterns))
      /\ Forall (fun dir =>
                   (filepath_Walk os dir (sync_walk_fn blacklistPatterns) []).2 = None) dirs
  | Err err =>
      exists dir, dir ∈ dirs
                  /\ (filepath_Walk os dir (sync_walk_fn blacklistPatterns) []).2 = Some err
  end.
Proof.
  intros Hsame.
  destruct (countFiles counted dirs blacklistPatterns 0) as [total|e] eqn:Hc.
  - apply countFiles_total in Hc as [-> Hall]. split.
    + rewrite (sent_paths_same counted os) by done. lia.
    + rewrite Forall_forall in Hall, Hsame |- *. intros dir Hdir.
      rewrite (sync_walk_same counted os) by auto. auto.
  - apply countFiles_error in Hc as (dir & Hdir & Hwalk). exists dir. split; [done|].
    rewrite Forall_forall in Hsame. by rewrite (sync_walk_same counted os) by auto.
Qed.

Lemma countFiles_counts_what_the_walk_sends_witness :
  @countFiles small_regexp sync_os ["/d"] [] 0 = Ok 1
  /\ ["/d"] ≫= @sent_paths small_regexp (GetDBPath sync_os).2 [] = ["/d/a.txt"]
  /\ (@filepath_Walk (list string) (GetDBPath sync_os).2 "/d"
                     (@sync_walk_fn small_regexp []) []).2 = None.
Proof.
  pose proof (@countFiles_counts_what_the_walk_sends small_regexp sync_os
                (GetDBPath sync_os).2 ["/d"] []) as Hcount.
  assert (Hok : @countFiles small_regexp sync_os ["/d"] [] 0 = Ok 1)
    by (vm_compute; reflexivity).
  rewrite Hok in Hcount.
  destruct Hcount as [_ Hall]; [repeat constructor|].
  split; [exact Hok|]. split; [vm_compute; reflexivity|]. exact (List.Forall_inv Hall).
Defined.

(** *** Progress never passes the total *)

Lemma bind_insert_length {A B} (f : A -> list B) (l : list A) (i : nat) (old new : A) :
  l !! i = Some old ->
  (length (<[i := new]> l ≫= f) + length (f old) = length (l ≫= f) + length (f new))%nat.
Proof.
  revert i. induction l as [|x l IH]; intros i Hi; [done|].
  destruct i as [|i]; cbn in Hi.
  - injection Hi as ->. cbn [mbind list_bind]. cbn. rewrite !length_app. lia.
  - cbn [mbind list_bind]. cbn. rewrite !length_app. specialize (IH i Hi).
    rewrite <- !Nat.add_assoc. f_equal. exact IH.
Qed.

Lemma progress_counts_app (l1 l2 : list event) :
  progress_counts (l1 ++ l2) = progress_counts l1 ++ progress_counts l2.
Proof. apply omap_app. Qed.

Lemma progress_lines_counts (count total : Z) (batch : list FileInfo) :
  0 <= count -> count + Z.of_nat (length batch) <= total ->
  Forall (fun ct => 0 < ct.1 <= ct.2 /\ ct.2 = total)
         (progress_counts (progress_lines count total batch)).
Proof.
  revert count. induction batch as [|info batch IH]; intros count H0 Hle; [constructor|].
  cbn [progress_lines progress_counts omap list_omap]. cbn [length] in Hle.
  constructor; [cbn; lia|]. apply IH; lia.
Qed.

Lemma processFileInfoOnly_no_progress `{HashLib} (os : OS) (db : DB)
    (filePath tag : string) (force : bool) (r : result (option FileInfo)) (evs : list event) :
  processFileInfoOnly os db filePath tag force = (r, evs) -> progress_counts evs = [].
Proof.
  unfold processFileInfoOnly.
  destruct (os_Stat os filePath); [|by intros [= _ <-]].
  destruct (filepath_Abs os filePath); [|by intros [= _ <-]].
  destruct (negb force); [|by intros [= _ <-]].
  destruct (GetFileInfoByPath db _) as [|e]; [by intros [= _ <-]|].
  destruct (negb (is_record_not_found e)); by intros [= _ <-].
Qed.

(** One step of the invariant: the three parts of [progress_ok] after the
    state has been rebuilt. *)
Ltac progress_step :=
  split; unfold in_flight in *;
  cbn -[mbind progress_counts length sent_paths] in *;
  repeat match goal with H : ?x = _ |- context [?x] => rewrite H end;
  rewrite ?length_app in *; cbn [length worker_record] in *;
  rewrite ?progress_counts_app; try apply Forall_app;
  try (split; [assumption|]); try done; try lia.

Section Progress.
Context `{HL : HashLib} `{RL : RegexpLib}.
Variables (args : SyncArgs) (os : OS).

Lemma progress_ok_start (counted : OS) (store : DB) :
  Forall (fun dir => walk os dir = walk counted dir) (arg_dirs args) ->
  progress_ok args os (pipeline_start args counted store).
Proof.
  intros Hsame. unfold pipeline_start.
  destruct (countFiles counted (arg_dirs args) (arg_blacklistPatterns args) 0)
    as [total|e] eqn:Hc.
  2: { split; unfold in_flight; cbn; [lia|lia|constructor]. }
  apply countFiles_total in Hc as [Ht _].
  rewrite <- (sent_paths_same counted os) in Ht by done.
  unfold Connect. destruct (faulty store OpenDatabase).
  { split; unfold in_flight; cbn; [lia|lia|constructor]. }
  split; unfold in_flight; cbn -[mbind]; [lia| |constructor].
  assert (replicate (Z.to_nat (arg_threads args)) WorkerIdle ≫= worker_record = []) as ->.
  { induction (Z.to_nat (arg_threads args)); [done|]. cbn. done. }
  cbn [length]. lia.
Qed.

Lemma main_step_progress (s s' : Pipeline) :
  progress_ok args os s -> main_step args os s = Some s' -> progress_ok args os s'.
Proof.
  intros [H0 Hle Hlog]. unfold main_step, in_flight in *.
  destruct (p_main s) as [pending dirs| | | |] eqn:Hm; try done.
  - destruct pending as [|path pending].
    + destruct dirs as [|dir dirs].
      * intros [= <-]. progress_step.
      * destruct (filepath_Walk os dir _ []) as [sent err] eqn:Hwalk. intros [= <-].
        cbn [mbind list_bind] in Hle. rewrite length_app in Hle.
        unfold sent_paths at 1 in Hle. rewrite Hwalk in Hle.
        progress_step; try (destruct err; cbn; constructor).
    + destruct (channel_has_room _ _); [|done]. intros [= <-]. progress_step.
  - destruct (forallb _ _); [|done]. intros [= <-]. progress_step.
  - intros [= <-]. progress_step; try constructor.
Qed.

Lemma worker_step_progress (threadId : nat) (s s' : Pipeline) :
  progress_ok args os s -> worker_step args os threadId s = Some s' ->
  progress_ok args os s'.
Proof.
  intros [H0 Hle Hlog]. unfold worker_step, in_flight in *.
  destruct (p_workers s !! threadId) as [[|fileInfo|]|] eqn:Hw; try done.
  - destruct (p_fileCh s) as [|path rest] eqn:Hfile.
    + destruct (p_fileCh_closed s); [|done]. intros [= <-].
      pose proof (bind_insert_length worker_record _ _ _ WorkerDone Hw) as Hb.
      progress_step.
    + cbn [p_db set_fileCh].
      destruct (processFileInfoOnly os (p_db s) path (arg_tag args) (arg_force args))
        as [[[fi|]|e] evs] eqn:Hp; intros [= <-];
        apply processFileInfoOnly_no_progress in Hp.
      * pose proof (bind_insert_length worker_record _ _ _ (WorkerSending fi) Hw) as Hb.
        progress_step; try by rewrite Hp.
      * progress_step; try by rewrite Hp.
      * progress_step; try (rewrite ?progress_counts_app, Hp; cbn; constructor).
  - destruct (channel_has_room _ _); [|done]. intros [= <-].
    pose proof (bind_insert_length worker_record _ _ _ WorkerIdle Hw) as Hb.
    progress_step.
Qed.

Lemma collector_step_progress (s s' : Pipeline) :
  progress_ok args os s -> collector_step args s = Some s' -> progress_ok args os s'.
Proof.
  intros [H0 Hle Hlog]. unfold collector_step, in_flight in *.
  destruct (p_collector s) as [batch|todo batch final|] eqn:Hcol; [| |done].
  - destruct (p_resultCh s) as [|fileInfo rest] eqn:Hres.
    + destruct (p_resultCh_closed s); [|done].
      destruct batch; intros [= <-]; progress_step.
    + destruct (arg_batchSize args <=? _); intros [= <-]; progress_step.
  - destruct todo as [|info todo].
    + intros [= <-]. progress_step.
      * destruct final; cbn [length]; lia.
      * apply progress_lines_counts; lia.
    + destruct (UpsertFileInfo (p_db s) info) as [[e|] db']; intros [= <-]; progress_step; try constructor.
Qed.

Lemma progress_ok_schedule (schedule : list Actor) (s s' : Pipeline) :
  progress_ok args os s -> run_schedule args os schedule s = Some s' ->
  progress_ok args os s'.
Proof.
  revert s. induction schedule as [|a schedule IH]; intros s Hok; simpl.
  - by intros [= <-].
  - destruct (pipeline_step args os a s) as [s1|] eqn:Hstep; [|done].
    apply IH. revert Hstep. unfold pipeline_step.
    destruct (p_main s); try done;
      destruct a;
      eauto using main_step_progress, worker_step_progress, collector_step_progress.
Qed.
End Progress.

(** X11.  The files are counted on the machine as it is before the catalog
    is opened, and the goroutines run on the machine of after.  When the
    walks of the directories deliver on the machine of after what they
    delivered to the count, then under every schedule the count of processed
    files lies between 0 and the total counted, and every progress line
    printed shows that total and a current count between 1 and the total. *)
Theorem sync_progress_stays_within_total `{HL : HashLib} `{RL : RegexpLib}
    (args : SyncArgs) (counted os : OS) (store : DB) (schedule : list Actor) (s : Pipeline) :
  Forall (fun dir => walk os dir = walk counted dir) (arg_dirs args) ->
  run_schedule args os schedule (pipeline_start args counted store) = Some s ->
  0 <= p_count s <= p_totalFiles s
  /\ Forall (fun ct => 0 < ct.1 <= ct.2 /\ ct.2 = p_totalFiles s)
            (progress_counts (p_log s)).
Proof.
  intros Hsame Hrun.
  destruct (progress_ok_schedule args os schedule _ s
              (progress_ok_start args os counted store Hsame) Hrun)
    as [H0 Hle Hlog].
  split; [|done]. unfold in_flight in Hle. lia.
Qed.

Lemma sync_progress_stays_within_total_witness :
  exists s,
    @run_schedule prefix_hashes small_regexp sync_args (GetDBPath sync_os).2 drained
      (@pipeline_start small_regexp sync_args sync_os (empty_store no_fault)) = Some s
    /\ 0 <= p_count s <= p_totalFiles s
    /\ progress_counts (p_log s) = [(1, 1)].
Proof.
  eexists. split; [vm_compute; reflexivity|]. split.
  - eapply (@sync_progress_stays_within_total prefix_hashes small_regexp sync_args sync_os
              (GetDBPath sync_os).2 (empty_store no_fault) drained).
    + repeat constructor.
    + vm_compute. reflexivity.
  - reflexivity.
Defined.

(** ** What a merge copies *)

Lemma io_Copy_append (src : ReadStream) (acc : list byte) :
  io_Copy (fun a p => a ++ p) acc src
  = (acc ++ stream_bytes src, stream_error src, stream_reads src).
Proof.
  revert acc. induction src as [chunk rest IH|chunk|chunk why]; intros acc; cbn.
  - assert (match chunk with [] => acc | _ :: _ => acc ++ chunk end = acc ++ chunk) as ->
        by (destruct chunk; [by rewrite app_nil_r|done]).
    rewrite IH. by rewrite <- app_assoc.
  - destruct chunk; [by rewrite app_nil_r|done].
  - destruct chunk; [by rewrite app_nil_r|done].
Qed.

Lemma resolve_cwd (os1 os2 : OS) (path : string) :
  cwd os1 = cwd os2 -> resolve os1 path = resolve os2 path.
Proof. intros H. unfold resolve. by rewrite H. Qed.

Lemma os_MkdirAll_files (os : OS) (path : string) :
  files (os_MkdirAll os path).2 = files os.
Proof. destruct (os_MkdirAll_keeps os path) as [made ->]. done. Qed.

Lemma os_MkdirAll_dirs (os : OS) (path : string) :
  dirs os ⊆ dirs (os_MkdirAll os path).2.
Proof.
  destruct (os_MkdirAll_keeps os path) as [made ->]. cbn. apply union_subseteq_l.
Qed.

Lemma os_Create_frame (os : OS) (path p : string) :
  p <> resolve os path -> files (os_Create os path).2 !! p = files os !! p.
Proof.
  intros Hp. unfold os_Create. destruct (sys_fault os _); [done|].
  destruct (negb _); [done|]. destruct (bool_decide _); [done|].
  cbn. by rewrite lookup_insert_ne.
Qed.

Lemma os_Create_dirs (os : OS) (path : string) : dirs (os_Create os path).2 = dirs os.
Proof.
  unfold os_Create. destruct (sys_fault os _); [done|].
  destruct (negb _); [done|]. by destruct (bool_decide _).
Qed.

Lemma copyFile_frame (os : OS) (src dst p : string) :
  p <> resolve os dst -> files (copyFile os src dst).2 !! p = files os !! p.
Proof.
  intros Hp. unfold copyFile. destruct (os_Open os src); [|done].
  pose proof (os_Create_frame os dst p Hp) as Hc.
  destruct (os_Create os dst) as [[e|] os1]; cbn [snd] in Hc; [done|].
  rewrite io_Copy_append.
  assert (files (with_files os1 (<[resolve os dst := mkFile
            (ReadEOF ([] ++ stream_bytes (if String.eqb (resolve os src) (resolve os dst)
                                          then ReadEOF [] else a)))
            (now os) (Some (now os))]> (files os1))) !! p = files os !! p) as Hw.
  { cbn. by rewrite lookup_insert_ne. }
  destruct (stream_error _); [done|]. by destruct (sys_fault os _).
Qed.

Lemma copyFile_dirs (os : OS) (src dst : string) : dirs (copyFile os src dst).2 = dirs os.
Proof.
  unfold copyFile. destruct (os_Open os src); [|done].
  pose proof (os_Create_dirs os dst) as Hc.
  destruct (os_Create os dst) as [[e|] os1]; cbn [snd] in Hc; [done|].
  rewrite io_Copy_append. destruct (stream_error _); [done|]. by destruct (sys_fault os _).
Qed.

(** X12.  When [copyFile] succeeds and source and destination are different
    files, the source is as it was, the destination is a regular file with the
    bytes of the source, no other file is changed and no directory is made. *)
Theorem copyFile_copies_the_contents (os os' : OS) (src dst : string) :
  copyFile os src dst = (None, os') ->
  resolve os src <> resolve os dst ->
  exists f,
    files os !! resolve os src = Some f
    /\ files os' !! resolve os src = Some f
    /\ files os' !! resolve os dst
       = Some (mkFile (ReadEOF (stream_bytes (f_reads f))) (now os) (Some (now os)))
    /\ (forall p, p <> resolve os dst -> files os' !! p = files os !! p)
    /\ dirs os' = dirs os.
Proof.
  intros Hcopy Hne.
  assert (Hframe : forall p, p <> resolve os dst -> files os' !! p = files os !! p).
  { intros p Hp. pose proof (copyFile_frame os src dst p Hp) as H. by rewrite Hcopy in H. }
  assert (Hdirs : dirs os' = dirs os).
  { pose proof (copyFile_dirs os src dst) as H. by rewrite Hcopy in H. }
  revert Hcopy. unfold copyFile, os_Open.
  destruct (sys_fault os (SysOpen src)); [done|].
  destruct (files os !! resolve os src) as [f|] eqn:Hsrc.
  - destruct (os_Create os dst) as [[e|] os1]; [done|].
    apply String.eqb_neq in Hne. rewrite Hne, io_Copy_append.
    destruct (stream_error (f_reads f)); [done|].
    destruct (sys_fault os (SysSync dst)); [done|]. intros [= <-].
    exists f. split; [done|]. split; [by rewrite Hframe by (by apply String.eqb_neq)|].
    split; [|done]. cbn. by rewrite lookup_insert_eq.
  - destruct (bool_decide _); [|done].
    destruct (os_Create os dst) as [[e|] os1]; [done|].
    apply String.eqb_neq in Hne. rewrite Hne, io_Copy_append. done.
Qed.

Lemma copyFile_copies_the_contents_witness :
  exists f,
    files copy_os !! "/A/a.txt" = Some f
    /\ files (copyFile copy_os "/A/a.txt" "/A/b.txt").2 !! "/A/a.txt" = Some f
    /\ files (copyFile copy_os "/A/a.txt" "/A/b.txt").2 !! "/A/b.txt"
       = Some (mkFile (ReadEOF (stream_bytes (f_reads f))) 7 (Some 7)).
Proof.
  destruct (copyFile_copies_the_contents copy_os
              (copyFile copy_os "/A/a.txt" "/A/b.txt").2 "/A/a.txt" "/A/b.txt")
    as (f & H1 & H2 & H3 & _).
  - vm_compute. reflexivity.
  - vm_compute. discriminate.
  - exists f. split; [exact H1|]. split; [exact H2|exact H3].
Defined.

(** X13.  When source and destination name the same file and [copyFile]
    succeeds, the file is left empty: the destination is truncated when it is
    created, before a byte of the source is read. *)
Theorem copyFile_onto_itself_empties_the_file (os os' : OS) (src dst : string) :
  copyFile os src dst = (None, os') ->
  resolve os src = resolve os dst ->
  file_bytes os' src = Some [].
Proof.
  intros Hcopy Heq.
  assert (Hcwd : cwd os' = cwd os).
  { pose proof (copyFile_cwd os src dst) as H. by rewrite Hcopy in H. }
  unfold file_bytes. rewrite (resolve_cwd os' os src Hcwd).
  revert Hcopy. unfold copyFile. destruct (os_Open os src); [|done].
  destruct (os_Create os dst) as [[e|] os1]; [done|].
  apply String.eqb_eq in Heq as Heqb. rewrite Heqb, io_Copy_append.
  cbn [stream_error stream_bytes app].
  destruct (sys_fault os (SysSync dst)); [done|]. intros [= <-].
  cbn. rewrite Heq, lookup_insert_eq. done.
Qed.

Lemma copyFile_onto_itself_empties_the_file_witness :
  file_bytes copy_os "/A/a.txt" = Some [x58]
  /\ file_bytes (copyFile copy_os "/A/a.txt" "/A/./a.txt").2 "/A/a.txt" = Some [].
Proof.
  split; [vm_compute; reflexivity|].
  apply (copyFile_onto_itself_empties_the_file copy_os
           (copyFile copy_os "/A/a.txt" "/A/./a.txt").2 "/A/a.txt" "/A/./a.txt").
  - vm_compute. reflexivity.
  - vm_compute. reflexivity.
Defined.

(** *** What a merge writes *)

Section MergeFrame.
Context `{HL : HashLib}.



Lemma getFilesWithHashes_no_copies (os : OS) (db : DB) (dir : string) :
  copies (getFilesWithHashes os db dir).2 = [].
Proof.
  unfold getFilesWithHashes.
  destruct (filepath_Walk os dir _ 0) as [totalFiles e0].
  destruct (totalFiles =? 0); [done|].
  pose proof (walk_entries_inv (fun s => copies (scan_log s) = [])
                (hashes_walk_fn os totalFiles) (walk os dir) (mkScan db ∅ 0 [])) as Hw.
  unfold filepath_Walk.
  destruct (walk_entries _ _ _) as [s [e|]]; cbn [fst snd] in *; apply Hw; try done.
  all: intros path info s0 Hs0; unfold hashes_walk_fn;
    destruct (scanned_entry path info); [|done]; cbn [scan_db scan_log];
    destruct (filepath_Abs os path); [|done];
    destruct (match GetFileInfoByPath _ _ with Ok _ => _ | Err _ => None end);
    [cbn [fst scan_log]; by rewrite copies_app, Hs0|];
    destruct (FileBlake3MD5 os path) as [[b m] [e'|]]; [done|];
    destruct (UpsertFileInfo _ _) as [[e'|] db']; [done|];
    cbn [fst scan_log]; by rewrite copies_app, Hs0.
Qed.

End MergeFrame.


(** *** Every copy is catalogued *)

Lemma UpsertFileInfo_failure (db db' : DB) (fi : FileInfo) (e : error) :
  UpsertFileInfo db fi = (Some e, db') -> db' = db.
Proof.
  unfold UpsertFileInfo, first_by_key, faulty.
  destruct (backend_fault db (SelectByKey (Key fi))); [by intros [= _ <-]|].
  cbn [fmap option_fmap option_map].
  destruct (List.find _ (rows db)) as [existing|].
  - unfold Save, Create, faulty. cbn [ID Key set_ID].
    destruct (backend_fault db (UpdateRow (ID existing))); [by intros [= _ <-]|].
    cbn [fmap option_fmap option_map].
    destruct (existsb _ (rows db)); [by intros [= _ <-]|].
    destruct (existsb _ (rows db)); [done|].
    destruct (backend_fault db (InsertRow (Key fi))); [by intros [= _ <-]|].
    cbn [fmap option_fmap option_map].
    destruct (existsb _ (rows db)); [by intros [= _ <-]|done].
  - cbn [is_record_not_found]. unfold Create, faulty.
    destruct (backend_fault db (InsertRow (Key fi))); [by intros [= _ <-]|].
    cbn [fmap option_fmap option_map].
    destruct (existsb _ (rows db)); [by intros [= _ <-]|done].
Qed.

Lemma UpsertFileInfo_keeps_keys (db : DB) (fi : FileInfo) (k : string) :
  catalog_wf db ->
  k ∈ Key <$> rows db -> k ∈ Key <$> rows (UpsertFileInfo db fi).2.
Proof.
  intros Hwf Hk. destruct (UpsertFileInfo db fi) as [[e|] db'] eqn:Hup; cbn [snd].
  - apply UpsertFileInfo_failure in Hup. by subst.
  - destruct (UpsertFileInfo_success db db' fi Hwf Hup)
      as (_ & [(_ & -> & _)|(_ & _ & _ & -> & _)]).
    + rewrite fmap_app. apply elem_of_app. by left.
    + by rewrite overwrite_row_keys.
Qed.

Lemma UpsertFileInfo_has_key (db db' : DB) (fi : FileInfo) :
  catalog_wf db ->
  UpsertFileInfo db fi = (None, db') -> Key fi ∈ Key <$> rows db'.
Proof.
  intros Hwf Hup.
  destruct (UpsertFileInfo_success db db' fi Hwf Hup)
    as (_ & [(_ & -> & _)|(existing & Hin & Hkey & -> & _)]).
  - rewrite fmap_app. apply elem_of_app. right. cbn. by left.
  - rewrite overwrite_row_keys, <- Hkey. by apply list_elem_of_fmap_2.
Qed.

(** The answers of the machine that do not change while files are written:
    the working directory and the faults of its system calls. *)
Lemma os_MkdirAll_env (os : OS) (path : string) :
  cwd (os_MkdirAll os path).2 = cwd os
  /\ sys_fault (os_MkdirAll os path).2 = sys_fault os.
Proof. destruct (os_MkdirAll_keeps os path) as [made ->]. done. Qed.

Lemma copyFile_env (os : OS) (src dst : string) :
  cwd (copyFile os src dst).2 = cwd os /\ sys_fault (copyFile os src dst).2 = sys_fault os.
Proof.
  split; [apply copyFile_cwd|].
  unfold copyFile. destruct (os_Open os src); [|done].
  assert (sys_fault (os_Create os dst).2 = sys_fault os) as Hc.
  { unfold os_Create. destruct (sys_fault os _); [done|].
    destruct (negb _); [done|]. by destruct (bool_decide _). }
  destruct (os_Create os dst) as [[e|] os1]; cbn [snd] in Hc; [done|].
  rewrite io_Copy_append. destruct (stream_error _); [done|]. by destruct (sys_fault os _).
Qed.

Lemma filepath_Abs_env (os1 os2 : OS) (path : string) :
  cwd os1 = cwd os2 -> sys_fault os1 = sys_fault os2 ->
  filepath_Abs os1 path = filepath_Abs os2 path.
Proof. intros H1 H2. unfold filepath_Abs, os_Getwd. by rewrite H1, H2. Qed.

Section MergeCatalogue.
Context `{HL : HashLib}.

Lemma copy_one_catalogued (os : OS) (sourceDir backupDir srcPath : string) (run run' : Run) :
  cwd (run_os run) = cwd os -> sys_fault (run_os run) = sys_fault os ->
  catalog_wf (run_db run) ->
  copies_catalogued os run ->
  copy_one sourceDir backupDir srcPath run = (None, run') ->
  cwd (run_os run') = cwd os /\ sys_fault (run_os run') = sys_fault os
  /\ catalog_wf (run_db run')
  /\ copies_catalogued os run'.
Proof.
  intros Hcwd Hsys Hwf Hcat. unfold copy_one.
  destruct (filepath_Rel sourceDir srcPath) as [relPath|]; [|done].
  set (dstPath := filepath_Join [backupDir; relPath]).
  destruct (os_MkdirAll_env (run_os run) (filepath_Dir dstPath)) as [Hc1 Hs1].
  destruct (os_MkdirAll (run_os run) (filepath_Dir dstPath)) as [[e|] os1]; [done|].
  cbn [snd] in Hc1, Hs1. cbn [run_os run_db run_log say on_os].
  destruct (copyFile_env os1 srcPath dstPath) as [Hc2 Hs2].
  destruct (copyFile os1 srcPath dstPath) as [[e|] os2]; [done|].
  cbn [snd] in Hc2, Hs2. cbn [run_os run_db run_log say on_os].
  destruct (os_Stat os2 srcPath) as [fileInfo|]; [|done].
  destruct (filepath_Abs os2 dstPath) as [absDstPath|] eqn:Habs; [|done].
  destruct (FileBlake3MD5 os2 dstPath) as [[b m] [e|]]; [done|].
  match goal with
  | |- context [UpsertFileInfo ?db ?fi] =>
      pose proof (UpsertFileInfo_wf db fi Hwf) as Hwf';
      pose proof (fun k => UpsertFileInfo_keeps_keys db fi k Hwf) as Hkeep;
      pose proof (fun db' => UpsertFileInfo_has_key db db' fi Hwf) as Hhas;
      destruct (UpsertFileInfo db fi) as [[e|] db']; [done|]
  end.
  cbn [snd] in Hwf', Hkeep. specialize (Hhas db' eq_refl). cbn [Key] in Hhas.
  intros [= <-]. unfold copies_catalogued. cbn [run_os run_db run_log on_db on_os say].
  split; [congruence|]. split; [congruence|]. split; [done|].
  intros src dst. rewrite copies_app. intros [Hold|Hnew]%elem_of_app.
  - destruct (Hcat src dst Hold) as (absDst & Ha & Hk). exists absDst. split; [done|].
    by apply Hkeep.
  - cbn in Hnew. apply list_elem_of_singleton in Hnew as [= -> ->].
    exists absDstPath. split; [|done].
    rewrite <- Habs. apply filepath_Abs_env; congruence.
Qed.

Lemma copy_all_catalogued (os : OS) (sourceDir backupDir : string)
    (filesToCopy : list string) (run run' : Run) :
  cwd (run_os run) = cwd os -> sys_fault (run_os run) = sys_fault os ->
  catalog_wf (run_db run) ->
  copies_catalogued os run ->
  copy_all sourceDir backupDir filesToCopy run = (None, run') ->
  copies_catalogued os run'.
Proof.
  revert run. induction filesToCopy as [|srcPath rest IH]; intros run Hc Hs Hwf Hcat.
  { cbn. by intros [= <-]. }
  cbn [copy_all].
  destruct (copy_one sourceDir backupDir srcPath run) as [[e|] run1] eqn:H1; [done|].
  destruct (copy_one_catalogued os _ _ _ _ _ Hc Hs Hwf Hcat H1) as (Hc1 & Hs1 & Hwf1 & Hcat1).
  by apply IH.
Qed.

Lemma getFilesWithHashes_wf (os : OS) (db : DB) (dir : string) :
  catalog_wf db -> catalog_wf (getFilesWithHashes os db dir).1.2.
Proof.
  intros Hwf. unfold getFilesWithHashes.
  destruct (filepath_Walk os dir _ 0) as [totalFiles e0].
  destruct (totalFiles =? 0); [done|].
  pose proof (walk_entries_inv (fun s => catalog_wf (scan_db s))
                (hashes_walk_fn os totalFiles) (walk os dir) (mkScan db ∅ 0 [])) as Hw.
  unfold filepath_Walk.
  destruct (walk_entries _ _ _) as [s [e|]]; cbn [fst snd] in *; apply Hw; try done.
  all: intros path info s0 Hs0; unfold hashes_walk_fn;
    destruct (scanned_entry path info); [|done]; cbn [scan_db];
    destruct (filepath_Abs os path); [|done];
    destruct (match GetFileInfoByPath _ _ with Ok _ => _ | Err _ => None end); [done|];
    destruct (FileBlake3MD5 os path) as [[b m] [e'|]]; [done|];
    match goal with
    | |- context [UpsertFileInfo ?db ?fi] =>
        pose proof (UpsertFileInfo_wf db fi Hs0) as Hwf0;
        by destruct (UpsertFileInfo db fi) as [[e'|] db']
    end.
Qed.

(** X15.  When [performMerge] returns without error on a catalog that
    satisfies the schema's invariant, every copy it reports has a row in the
    catalog whose key is the Blake3 digest of the absolute path of the copy's
    destination. *)
Theorem performMerge_catalogues_its_copies (range : RangeOrder) (os : OS) (store : DB)
    (sourceDir targetDir : string) (run : Run) :
  catalog_wf store ->
  performMerge range os store sourceDir targetDir = (None, run) ->
  forall src dst, (src, dst) ∈ copies (run_log run) ->
    exists absDst row,
      filepath_Abs os dst = Ok absDst
      /\ row ∈ rows (run_db run)
      /\ Key row = CalculateBlake3String absDst.
Proof.
  intros Hwf Hm.
  assert (copies_catalogued os run) as Hcat.
  { revert Hm. unfold performMerge, Connect.
    destruct (faulty store OpenDatabase); [done|].
    destruct (os_MkdirAll_env os (backup_dir os targetDir)) as [Hc1 Hs1].
    destruct (os_MkdirAll os _) as [[e|] os1]; [done|]. cbn [snd] in Hc1, Hs1.
    pose proof (getFilesWithHashes_wf os1 store sourceDir Hwf) as Hwf1.
    pose proof (getFilesWithHashes_no_copies os1 store sourceDir) as Hn1.
    destruct (getFilesWithHashes os1 store sourceDir) as [[[sourceFiles|e] db1] evs1];
      [|done]. cbn [fst snd] in Hwf1, Hn1.
    pose proof (getFilesWithHashes_wf os1 db1 targetDir Hwf1) as Hwf2.
    pose proof (getFilesWithHashes_no_copies os1 db1 targetDir) as Hn2.
    destruct (getFilesWithHashes os1 db1 targetDir) as [[[targetFiles|e] db2] evs2];
      [|done]. cbn [fst snd] in Hwf2, Hn2.
    apply copy_all_catalogued; try done.
    intros src dst. cbn [run_log]. rewrite !copies_app, Hn1, Hn2. cbn.
    by intros ?%elem_of_nil. }
  intros src dst Hin. destruct (Hcat src dst Hin) as (absDst & Habs & Hk).
  apply list_elem_of_fmap in Hk as (row & Hkey & Hrow). by exists absDst, row.
Qed.
End MergeCatalogue.

Lemma performMerge_catalogues_its_copies_witness :
  exists absDst row,
    filepath_Abs merge_os "/B/FSAK_261030/b.txt" = Ok absDst
    /\ row ∈ rows (run_db (@performMerge prefix_hashes in_order merge_os
                             (empty_store no_fault) "/A" "/B").2)
    /\ Key row = @CalculateBlake3String prefix_hashes absDst.
Proof.
  apply (@performMerge_catalogues_its_copies prefix_hashes in_order merge_os
           (empty_store no_fault) "/A" "/B"
           (@performMerge prefix_hashes in_order merge_os
              (empty_store no_fault) "/A" "/B").2 ltac:(split; cbn; constructor)
           ltac:(vm_compute; reflexivity) "/A/b.txt").
  assert (Hc : copies (run_log (@performMerge prefix_hashes in_order merge_os
                                  (empty_store no_fault) "/A" "/B").2)
               = [("/A/b.txt", "/B/FSAK_261030/b.txt")]) by (vm_compute; reflexivity).
  rewrite Hc. by apply list_elem_of_singleton.
Defined.

(** ** The duplicate groups and what the resolver moves *)

Lemma group_files_fold (visited : list FileInfo) (m : gmap string (list FileInfo)) (k : string) :
  fold_left
    (fun groupedFiles fileInfo =>
       <[group_key fileInfo :=
           default [] (groupedFiles !! group_key fileInfo) ++ [fileInfo]]> groupedFiles)
    visited m !! k
  = match with_group_key k visited with
    | [] => m !! k
    | group => Some (default [] (m !! k) ++ group)
    end.
Proof.
  revert m. induction visited as [|fi visited IH]; intros m; [done|].
  cbn [fold_left]. rewrite IH. unfold with_group_key. cbn [List.filter].
  destruct (String.eqb_spec (group_key fi) k) as [->|Hne].
  - rewrite lookup_insert_eq. cbn [default].
    destruct (List.filter _ visited) as [|x rest]; [done|]. unfold id. by rewrite <- app_assoc.
  - rewrite lookup_insert_ne by done. done.
Qed.

Lemma group_files_lookup (visited : list FileInfo) (k : string) :
  group_files visited !! k
  = match with_group_key k visited with [] => None | group => Some group end.
Proof.
  unfold group_files. rewrite group_files_fold, lookup_empty. by destruct (with_group_key _ _).
Qed.

(** X16.  When the range over the map visits every entry once, the duplicate
    groups of [handleDuplicateFiles] are exactly the lists, in the order of
    the visit, of all the files visited that have one grouping key (the MD5
    and the Blake3 digest together), for the keys that more than one file has. *)
Theorem duplicate_groups_share_a_digest_pair (range : RangeOrder) (visited : list FileInfo)
    (group : list FileInfo) :
  visits_each_once range ->
  group ∈ duplicate_groups (range _ (map_to_list (group_files visited))).*2
  <-> exists k, group = with_group_key k visited /\ (1 < length group)%nat.
Proof.
  intros Hrange. unfold duplicate_groups.
  rewrite list_elem_of_In, filter_In, <- list_elem_of_In, bool_decide_eq_true.
  rewrite (Hrange _ (map_to_list (group_files visited))).
  rewrite list_elem_of_fmap. split.
  - intros [([k g] & -> & Hin) Hlen]. cbn [snd] in *.
    apply elem_of_map_to_list in Hin. rewrite group_files_lookup in Hin.
    exists k. split; [|done]. destruct (with_group_key k visited); [done|]. by injection Hin.
  - intros (k & -> & Hlen). split; [|done]. exists (k, with_group_key k visited).
    split; [done|]. apply elem_of_map_to_list. rewrite group_files_lookup.
    destruct (with_group_key k visited); [cbn in Hlen; lia|done].
Qed.

Lemma duplicate_groups_share_a_digest_pair_witness :
  dup_group ∈ duplicate_groups (in_order _ (map_to_list (group_files dup_group))).*2
  <-> exists k, dup_group = with_group_key k dup_group /\ (1 < length dup_group)%nat.
Proof.
  apply (duplicate_groups_share_a_digest_pair in_order dup_group dup_group).
  intros A l. reflexivity.
Defined.

Lemma moves_app (l1 l2 : list event) : moves (l1 ++ l2) = moves l1 ++ moves l2.
Proof. apply omap_app. Qed.

Section Ticked.
Context `{HL : HashLib}.








End Ticked.

(** ** Where a chosen duplicate goes *)

Lemma split_path_slash (cur a b : string) :
  split_path cur (a +:+ String "/" b) = split_path cur a ++ split_path "" b.
Proof.
  revert cur. induction a as [|c a IH]; intros cur.
  - change ("" +:+ String "/" b) with (String "/" b). cbn [split_path].
    by rewrite Ascii.eqb_refl.
  - rewrite append_cons. cbn [split_path].
    destruct (Ascii.eqb c "/"); [by rewrite IH|apply IH].
Qed.

Lemma clean_elems_app (rooted : bool) (l1 l2 out : list string) :
  clean_elems rooted (l1 ++ l2) out = clean_elems rooted l2 (rev (clean_elems rooted l1 out)).
Proof.
  revert out. induction l1 as [|e l1 IH]; intros out.
  - cbn [app clean_elems]. by rewrite rev_involutive.
  - cbn [app clean_elems].
    destruct (String.eqb e "" || String.eqb e "."); [apply IH|].
    destruct (String.eqb e ".."); [|apply IH].
    destruct out as [|last out']; [destruct rooted; apply IH|].
    destruct (String.eqb last ".."); apply IH.
Qed.

Lemma clean_elems_empty_last (rooted : bool) (l out : list string) :
  clean_elems rooted (l ++ [""]) out = clean_elems rooted l out.
Proof. rewrite clean_elems_app. cbn. by rewrite rev_involutive. Qed.

Lemma prefix_append (p t : string) : String.prefix p (p +:+ t) = true.
Proof.
  induction p as [|c p IH]; [by destruct t|].
  rewrite append_cons. cbn [String.prefix].
  destruct (Ascii.ascii_dec c c); [exact IH|done].
Qed.

Lemma render_path_app (l rest : list string) :
  l <> [] -> render_path true (l ++ rest) = render_path true l +:+ tail_text rest.
Proof.
  intros Hl. destruct l as [|e l]; [done|]. unfold render_path. cbn [app].
  rewrite !join_path_cons, tail_text_app. by rewrite !append_assoc.
Qed.

Lemma split_path_render (elems : list string) :
  Forall proper elems -> elems <> [] ->
  split_path "" (render_path true elems) = "" :: elems.
Proof.
  intros He Hne. unfold render_path.
  change ("/" +:+ join_path elems) with (String "/" (join_path elems)).
  cbn [split_path]. rewrite Ascii.eqb_refl. f_equal.
  rewrite split_path_join; [|by apply Forall_proper_no_slash|done].
  by destruct elems.
Qed.

Lemma tail_text_render (elems : list string) :
  elems <> [] -> tail_text elems = render_path true elems.
Proof.
  intros Hne. destruct elems as [|e rest]; [done|].
  unfold render_path. rewrite join_path_cons. reflexivity.
Qed.

Lemma filepath_Clean_trailing_slash (elems : list string) :
  Forall proper elems ->
  filepath_Clean (tail_text elems +:+ "/") = render_path true elems.
Proof.
  intros He. destruct elems as [|e rest].
  - vm_compute. reflexivity.
  - rewrite tail_text_render by done.
    unfold filepath_Clean, path_elems.
    assert (Habs : filepath_IsAbs (render_path true (e :: rest) +:+ "/") = true)
      by apply filepath_IsAbs_slash.
    rewrite Habs.
    rewrite (split_path_slash "" (render_path true (e :: rest)) "").
    rewrite split_path_render by done. cbn [split_path].
    rewrite clean_elems_empty_last.
    change (clean_elems true ("" :: e :: rest) []) with (clean_elems true (e :: rest) []).
    by rewrite clean_elems_proper.
Qed.

Lemma filepath_Dir_render (base : list string) (name : string) :
  Forall proper base -> proper name ->
  filepath_Dir (render_path true (base ++ [name])) = render_path true base.
Proof.
  intros Hb Hn. unfold filepath_Dir.
  rewrite split_path_render; [|apply Forall_app; split; [done|by constructor]|by destruct base].
  change ("" :: base ++ [name]) with (("" :: base) ++ [name]).
  rewrite rev_app_distr. change (rev [name]) with [name]. cbn [app]. rewrite rev_involutive.
  rewrite join_path_cons. change ("" +:+ tail_text base) with (tail_text base).
  by apply filepath_Clean_trailing_slash.
Qed.

Lemma filepath_Dir_trailing_slash (elems : list string) :
  Forall proper elems -> elems <> [] ->
  filepath_Dir (render_path true elems +:+ "/") = render_path true elems.
Proof.
  intros He Hne. unfold filepath_Dir.
  rewrite (split_path_slash "" (render_path true elems) "").
  rewrite split_path_render by done. cbn [split_path].
  rewrite rev_app_distr. change (rev [""]) with [""]. cbn [app]. rewrite rev_involutive.
  rewrite join_path_cons. change ("" +:+ tail_text elems) with (tail_text elems).
  by apply filepath_Clean_trailing_slash.
Qed.

(** X18.  A chosen duplicate below the first folder given goes, below the
    deleted folder, to its path relative to the parent of that folder, so the
    folder's own name is kept; when the folder was given with a trailing
    slash, [filepath.Dir] removes only the slash and the file goes to its path
    relative to the folder itself, without the folder's name. *)
Theorem deleted_path_keeps_the_folder_name (base rest del : list string) (name : string)
    (others : list string) (fileInfo : FileInfo) :
  Forall proper base -> proper name -> Forall proper rest -> rest <> [] ->
  Forall proper del ->
  Path fileInfo = render_path true (base ++ name :: rest) ->
  deleted_path (render_path true (base ++ [name]) :: others) (render_path true del) fileInfo
  = (render_path true (del ++ name :: rest), [])
  /\ deleted_path ((render_path true (base ++ [name]) +:+ "/") :: others)
                  (render_path true del) fileInfo
     = (render_path true (del ++ rest), []).
Proof.
  intros Hb Hn Hr Hne Hd Hpath.
  assert (Hfolder : Forall proper (base ++ [name]))
    by (apply Forall_app; split; [done|by constructor]).
  assert (Hfile : render_path true (base ++ name :: rest)
                  = render_path true (base ++ [name]) +:+ tail_text rest).
  { rewrite <- render_path_app by (by destruct base). by rewrite <- app_assoc. }
  unfold deleted_path. rewrite Hpath. cbn [getRelativePathFromParent]. split.
  - unfold strings_HasPrefix. rewrite Hfile, prefix_append, <- Hfile.
    rewrite filepath_Dir_render by done.
    rewrite (filepath_Rel_below base (name :: rest)); [|done|by constructor|done].
    by rewrite filepath_Join_below; [|done|constructor|].
  - unfold strings_HasPrefix.
    assert (Hpre : String.prefix (render_path true (base ++ [name]) +:+ "/")
                                 (render_path true (base ++ name :: rest)) = true).
    { rewrite Hfile. destruct rest as [|r rest']; [done|]. cbn [tail_text fold_right].
      rewrite <- (append_assoc (render_path true (base ++ [name])) "/").
      apply prefix_append. }
    rewrite Hpre, filepath_Dir_trailing_slash; [|done|by destruct base].
    replace (base ++ name :: rest) with ((base ++ [name]) ++ rest) by (by rewrite <- app_assoc).
    rewrite (filepath_Rel_below (base ++ [name]) rest) by done.
    by rewrite filepath_Join_below.
Qed.

Lemma deleted_path_keeps_the_folder_name_witness :
  deleted_path ["/data/photos"] "/trash" (sample_row 1 "k" "/data/photos/2024/a.jpg" "m" "b")
  = ("/trash/photos/2024/a.jpg", [])
  /\ deleted_path ["/data/photos/"] "/trash"
                  (sample_row 1 "k" "/data/photos/2024/a.jpg" "m" "b")
     = ("/trash/2024/a.jpg", []).
Proof.
  apply (deleted_path_keeps_the_folder_name ["data"] ["2024"; "a.jpg"] ["trash"] "photos" []
           (sample_row 1 "k" "/data/photos/2024/a.jpg" "m" "b")).
  - literal_proper.
  - literal_proper.
  - literal_proper.
  - discriminate.
  - literal_proper.
  - reflexivity.
Defined.

(** ** The workspace *)

Lemma string_length_append (a b : string) :
  String.length (a +:+ b) = (String.length a + String.length b)%nat.
Proof. induction a as [|c a IH]; [done|]. rewrite append_cons. cbn. by rewrite IH. Qed.

Lemma substring_whole (s : string) : substring 0 (String.length s) s = s.
Proof. induction s as [|c s IH]; [done|]. cbn. by rewrite IH. Qed.

Lemma substring_skip (a b : string) (n : nat) :
  substring (String.length a) n (a +:+ b) = substring 0 n b.
Proof. induction a as [|c a IH]; [done|]. rewrite append_cons. cbn. exact IH. Qed.

Lemma strings_HasSuffix_append (pre suffix : string) :
  strings_HasSuffix (pre +:+ suffix) suffix = true.
Proof.
  unfold strings_HasSuffix. rewrite string_length_append.
  replace (String.length pre + String.length suffix - String.length suffix)%nat
    with (String.length pre) by lia.
  rewrite substring_skip, substring_whole, String.eqb_refl, andb_true_r.
  apply Nat.leb_le. lia.
Qed.

Lemma join_path_last (elems : list string) (e : string) :
  exists pre, join_path (elems ++ [e]) = pre +:+ e.
Proof.
  destruct elems as [|x elems].
  - by exists "".
  - cbn [app]. rewrite join_path_cons, tail_text_app. cbn [tail_text fold_right].
    exists (x +:+ tail_text elems +:+ "/"). rewrite append_nil_r. by rewrite !append_assoc.
Qed.

Lemma proper_not_abs (e : string) : proper e -> filepath_IsAbs e = false.
Proof.
  intros [Hne _ _ Hns]. destruct e as [|c e]; [done|].
  unfold no_slash in Hns. cbn [list_ascii_of_string] in Hns.
  apply Forall_cons in Hns as [Hc _].
  unfold filepath_IsAbs, strings_HasPrefix. cbn [String.prefix].
  destruct (Ascii.ascii_dec "/" c); [by subst|done].
Qed.

Lemma split_path_proper (e : string) : proper e -> split_path "" e = [e].
Proof.
  intros [_ _ _ Hns]. rewrite <- (append_nil_r e) at 1.
  by rewrite split_path_no_slash.
Qed.

Lemma clean_elems_last (rooted : bool) (elems : list string) (e : string) :
  proper e ->
  clean_elems rooted (elems ++ [e]) [] = clean_elems rooted elems [] ++ [e].
Proof.
  intros [H1 H2 H3 _]. rewrite clean_elems_app. cbn [clean_elems].
  apply String.eqb_neq in H1, H2, H3. rewrite H1, H2, H3. cbn [orb rev].
  by rewrite rev_involutive.
Qed.

Lemma render_path_relative (elems : list string) :
  elems <> [] -> render_path false elems = join_path elems.
Proof. by destruct elems. Qed.

(** The last element of a joined path is the last element joined. *)
Lemma filepath_Join_last (d e : string) :
  proper e -> exists pre, filepath_Join [d; e] = pre +:+ e.
Proof.
  intros He. pose proof He as [Hne _ _ _]. apply String.eqb_neq in Hne.
  unfold filepath_Join. cbn [List.filter]. rewrite Hne. cbn [negb].
  destruct (String.eqb d "") eqn:Hd; cbn [negb].
  - cbn [join_path fold_left]. unfold filepath_Clean, path_elems.
    rewrite (proper_not_abs e He), (split_path_proper e He).
    change [e] with ([] ++ [e]) at 1. rewrite clean_elems_last by done.
    cbn [clean_elems rev app render_path join_path fold_left]. by exists "".
  - cbn [join_path fold_left]. unfold filepath_Clean, path_elems.
    change (d +:+ "/" +:+ e) with (d +:+ String "/" e).
    rewrite split_path_slash, (split_path_proper e He), clean_elems_last by done.
    destruct (join_path_last (clean_elems (filepath_IsAbs (d +:+ String "/" e))
                                          (split_path "" d) []) e) as [pre Hpre].
    destruct (filepath_IsAbs _).
    + unfold render_path. rewrite Hpre. exists ("/" +:+ pre). by rewrite append_assoc.
    + rewrite render_path_relative, Hpre; [by exists pre|].
      by destruct (clean_elems false (split_path "" d) []).
Qed.

Lemma fsak_db_proper : proper "fsak.db".
Proof. split; [done..|]. unfold no_slash. cbn. repeat constructor; done. Qed.

(** X19.  The path [GetDBPath] returns ends in [fsak.db], so the scan of
    [getFilesWithHashes] passes over the catalog's own file when a merged tree
    contains it. *)
Theorem merge_passes_over_the_catalog_file (os os' : OS) (dbPath : string)
    (info : result FileStat) :
  GetDBPath os = (Ok dbPath, os') ->
  strings_HasSuffix dbPath "fsak.db" = true
  /\ scanned_entry dbPath info = None.
Proof.
  unfold GetDBPath.
  destruct (GetWorkspaceDir os) as [[wsDir|e] os1]; [|done].
  destruct (os_MkdirAll os1 _) as [[e|] os2]; [done|]. intros [= <- <-].
  destruct (filepath_Join_last (filepath_Join [wsDir; "db"]) "fsak.db" fsak_db_proper)
    as [pre Hpre].
  assert (Hs : strings_HasSuffix (filepath_Join [filepath_Join [wsDir; "db"]; "fsak.db"])
                                 "fsak.db" = true)
    by (rewrite Hpre; apply strings_HasSuffix_append).
  split; [done|]. unfold scanned_entry. destruct info as [st|]; [|done].
  destruct (st_IsDir st); [done|]. by rewrite Hs.
Qed.

Lemma merge_passes_over_the_catalog_file_witness :
  (GetDBPath sample_os_home).1 = Ok "/home/u/.local/share/fsak/db/fsak.db"
  /\ scanned_entry "/home/u/.local/share/fsak/db/fsak.db"
                   (Ok (mkFileStat false 8192 0 None)) = None.
Proof.
  split; [vm_compute; reflexivity|].
  apply (merge_passes_over_the_catalog_file sample_os_home (GetDBPath sample_os_home).2
           "/home/u/.local/share/fsak/db/fsak.db" (Ok (mkFileStat false 8192 0 None))).
  vm_compute. reflexivity.
Defined.

(** *** The workspace directory *)

Lemma split_path_elems_no_slash (cur s : string) :
  no_slash cur -> Forall no_slash (split_path cur s).
Proof.
  revert cur. induction s as [|c s IH]; intros cur Hcur; cbn [split_path].
  - by constructor.
  - destruct (Ascii.eqb_spec c "/") as [->|Hc].
    + constructor; [done|]. apply IH. constructor.
    + apply IH. unfold no_slash in *.
      assert (list_ascii_of_string (cur +:+ String c "")
              = list_ascii_of_string cur ++ [c]) as ->.
      { clear. induction cur as [|x cur IHc]; [done|]. rewrite append_cons. cbn.
        by rewrite IHc. }
      apply Forall_app. split; [done|]. by constructor.
Qed.

Lemma clean_elems_rooted_proper (elems out : list string) :
  Forall no_slash elems -> Forall proper out ->
  Forall proper (clean_elems true elems out).
Proof.
  revert out. induction elems as [|e elems IH]; intros out He Hout; cbn [clean_elems].
  - by apply Forall_rev.
  - apply Forall_cons in He as [He Hes].
    destruct (String.eqb_spec e "") as [->|H1]; cbn [orb]; [by apply IH|].
    destruct (String.eqb_spec e ".") as [->|H2]; cbn [orb]; [by apply IH|].
    destruct (String.eqb_spec e "..") as [->|H3].
    + destruct out as [|last out']; [by apply IH|].
      apply Forall_cons in Hout as [[_ _ Hl _] Hout'].
      apply String.eqb_neq in Hl. rewrite Hl. by apply IH.
    + apply IH; [done|]. constructor; [by split|done].
Qed.

Lemma path_elems_abs_proper (path : string) :
  filepath_IsAbs path = true -> Forall proper (path_elems path).
Proof.
  intros Habs. unfold path_elems. rewrite Habs.
  apply clean_elems_rooted_proper; [|constructor].
  apply split_path_elems_no_slash. constructor.
Qed.

Lemma resolve_rooted (os : OS) (path : string) :
  filepath_IsAbs (cwd os) = true ->
  exists elems, Forall proper elems /\ resolve os path = render_path true elems.
Proof.
  intros Hcwd.
  assert (Hclean : forall p, filepath_IsAbs p = true ->
                     exists elems, Forall proper elems
                                   /\ filepath_Clean p = render_path true elems).
  { intros p Hp. exists (path_elems p). split; [by apply path_elems_abs_proper|].
    unfold filepath_Clean. by rewrite Hp. }
  unfold resolve. destruct (filepath_IsAbs path) eqn:Habs; [by apply Hclean|].
  apply filepath_IsAbs_inv in Hcwd as [wd Hwd]. rewrite Hwd.
  unfold filepath_Join. cbn [List.filter String.eqb negb].
  destruct (String.eqb path ""); cbn [negb]; apply Hclean.
  - cbn [join_path fold_left]. apply filepath_IsAbs_slash.
  - cbn [join_path fold_left]. rewrite !append_cons. apply filepath_IsAbs_slash.
Qed.

Lemma os_MkdirAll_makes (os os' : OS) (path : string) :
  filepath_IsAbs (cwd os) = true ->
  os_MkdirAll os path = (None, os') ->
  is_dir os' (resolve os path) = true.
Proof.
  intros Hcwd. destruct (resolve_rooted os path Hcwd) as (elems & He & Hq).
  intros Hmk. apply os_MkdirAll_done in Hmk. subst os'.
  unfold is_dir. cbn [dirs with_dirs]. rewrite Hq.
  destruct elems as [|e elems]; [done|].
  rewrite (bool_decide_eq_true_2 _); [by rewrite orb_true_r|].
  apply elem_of_union_r, elem_of_list_to_set.
  unfold path_and_ancestors. rewrite render_path_abs, path_elems_render by done.
  apply list_elem_of_fmap. exists (length (e :: elems)). split.
  - by rewrite firstn_all.
  - apply elem_of_seq. cbn [length]. lia.
Qed.

Lemma os_MkdirAll_ok (os os' : OS) (path : string) :
  filepath_IsAbs (cwd os) = true ->
  os_MkdirAll os path = (None, os') ->
  is_dir os' (resolve os' path) = true /\ files os' = files os /\ dirs os ⊆ dirs os'.
Proof.
  intros Hcwd Hmk.
  pose proof (os_MkdirAll_files os path) as Hf. pose proof (os_MkdirAll_dirs os path) as Hd.
  pose proof (os_MkdirAll_cwd os path) as Hc. rewrite Hmk in Hf, Hd, Hc. cbn [snd] in *.
  rewrite (resolve_cwd os' os _ Hc). split; [by apply os_MkdirAll_makes|done].
Qed.

(** X20.  When [GetWorkspaceDir] succeeds, the working directory being
    absolute, the directory it returns exists afterwards, no regular file is
    touched and no directory is removed; with [FSAK_WS_DIR] set the path
    returned is absolute, and without it the path is [.local/share/fsak] below
    the home directory. *)
Theorem GetWorkspaceDir_makes_the_directory (os os' : OS) (wsDir : string) :
  filepath_IsAbs (cwd os) = true ->
  GetWorkspaceDir os = (Ok wsDir, os') ->
  is_dir os' (resolve os' wsDir) = true
  /\ files os' = files os
  /\ dirs os ⊆ dirs os'
  /\ (getenv os "FSAK_WS_DIR" <> "" -> filepath_IsAbs wsDir = true)
  /\ (getenv os "FSAK_WS_DIR" = "" ->
      exists homeDir, home os = Ok homeDir
                      /\ wsDir = filepath_Join [homeDir; ".local"; "share"; "fsak"]).
Proof.
  intros Hcwd. unfold GetWorkspaceDir.
  destruct (String.eqb_spec (getenv os "FSAK_WS_DIR") "") as [Henv|Henv].
  - destruct (home os) as [homeDir|] eqn:Hhome; [|done].
    destruct (os_MkdirAll os _) as [[e|] os1] eqn:Hmk; [done|]. intros [= <- <-].
    destruct (os_MkdirAll_ok _ _ _ Hcwd Hmk) as (H1 & H2 & H3).
    split; [done|]. split; [done|]. split; [done|]. split; [done|]. eauto.
  - destruct (filepath_IsAbs (getenv os "FSAK_WS_DIR")) eqn:Ha; cbn [negb].
    + destruct (os_MkdirAll os _) as [[e|] os1] eqn:Hmk; [done|]. intros [= <- <-].
      destruct (os_MkdirAll_ok _ _ _ Hcwd Hmk) as (H1 & H2 & H3). done.
    + destruct (filepath_Abs os _) as [w|] eqn:Hw; [|done].
      destruct (os_MkdirAll os _) as [[e|] os1] eqn:Hmk; [done|]. intros [= <- <-].
      destruct (os_MkdirAll_ok _ _ _ Hcwd Hmk) as (H1 & H2 & H3).
      split; [done|]. split; [done|]. split; [done|]. split; [|done].
      intros _. by eapply filepath_Abs_IsAbs.
Qed.

Lemma GetWorkspaceDir_makes_the_directory_witness :
  (GetWorkspaceDir sample_os_home).1 = Ok "/home/u/.local/share/fsak"
  /\ is_dir (GetWorkspaceDir sample_os_home).2 "/home/u/.local/share/fsak" = true.
Proof.
  split; [vm_compute; reflexivity|].
  destruct (GetWorkspaceDir_makes_the_directory sample_os_home
              (GetWorkspaceDir sample_os_home).2 "/home/u/.local/share/fsak")
    as (H1 & _).
  - reflexivity.
  - vm_compute. reflexivity.
  - exact H1.
Defined.

(** *** The banner of [main] *)

Lemma render_path_inj (a b : list string) :
  Forall proper a -> Forall proper b ->
  render_path true a = render_path true b -> a = b.
Proof.
  intros Ha Hb Heq. apply (f_equal path_elems) in Heq.
  by rewrite !path_elems_render in Heq.
Qed.

Lemma drop_common_split (base targ b t : list string) :
  drop_common base targ = (b, t) ->
  exists c, base = c ++ b /\ targ = c ++ t
            /\ (b = [] \/ t = [] \/ exists x y b' t', b = x :: b' /\ t = y :: t' /\ x <> y).
Proof.
  revert targ. induction base as [|x base IH]; intros targ; cbn [drop_common].
  - intros [= <- <-]. exists []. split; [done|]. split; [done|]. by left.
  - destruct targ as [|y targ].
    + intros [= <- <-]. exists []. split; [done|]. split; [done|]. right. by left.
    + destruct (String.eqb_spec x y) as [->|Hne].
      * intros (c & -> & -> & Hd)%IH. by exists (y :: c).
      * intros [= <- <-]. exists []. split; [done|]. split; [done|].
        right. right. by exists x, y, base, targ.
Qed.

Lemma filepath_Rel_rooted (base targ : list string) :
  Forall proper base -> Forall proper targ -> targ <> base ->
  filepath_Rel (render_path true base) (render_path true targ)
  = Ok (join_path (((fun _ => "..") <$> (drop_common base targ).1)
                   ++ (drop_common base targ).2)).
Proof.
  intros Hb Ht Hne. unfold filepath_Rel. rewrite !filepath_Clean_render by done.
  destruct (String.eqb_spec (render_path true targ) (render_path true base)) as [Heq|_].
  { by apply render_path_inj in Heq. }
  rewrite !render_path_abs. cbn [Bool.eqb negb]. rewrite !path_elems_render by done.
  destruct (drop_common base targ) as [b t] eqn:Hd. cbn [fst snd].
  destruct b as [|first b']; [done|].
  apply drop_common_split in Hd as (c & -> & _).
  apply Forall_app in Hb as [_ Hb]. apply Forall_cons in Hb as [[_ _ Hdd _] _].
  apply String.eqb_neq in Hdd. by rewrite Hdd.
Qed.

Lemma tail_text_head (rest : list string) :
  rest = [] \/ exists s, tail_text rest = String "/" s.
Proof. destruct rest as [|x rest]; [by left|]. right. by eexists. Qed.

(** A relative path that starts with a proper element is not [..] and
    does not start with [../]. *)
Lemma join_path_stays_below (w : string) (ws : list string) :
  proper w ->
  String.eqb (join_path (w :: ws)) ".." = false
  /\ strings_HasPrefix (join_path (w :: ws)) "../" = false.
Proof.
  intros [H1 H2 H3 H4]. rewrite join_path_cons.
  unfold no_slash in H4.
  destruct w as [|c1 w]; [done|].
  cbn [list_ascii_of_string] in H4. apply Forall_cons in H4 as [Hc1 H4].
  destruct (Ascii.eqb_spec c1 ".") as [->|Hn1].
  2: { split.
       - apply String.eqb_neq. rewrite append_cons. intros [= ? _]. done.
       - unfold strings_HasPrefix. rewrite append_cons. cbn [String.prefix].
         destruct (Ascii.ascii_dec "." c1); [by subst|done]. }
  destruct w as [|c2 w]; [done|].
  cbn [list_ascii_of_string] in H4. apply Forall_cons in H4 as [Hc2 H4].
  destruct (Ascii.eqb_spec c2 ".") as [->|Hn2].
  2: { split.
       - apply String.eqb_neq. rewrite !append_cons. intros [= ? _]. done.
       - unfold strings_HasPrefix. rewrite !append_cons. cbn [String.prefix].
         destruct (Ascii.ascii_dec "." "."); [|done].
         destruct (Ascii.ascii_dec "." c2); [by subst|done]. }
  destruct w as [|c3 w]; [done|].
  cbn [list_ascii_of_string] in H4. apply Forall_cons in H4 as [Hc3 H4].
  split.
  - apply String.eqb_neq. rewrite !append_cons. discriminate.
  - unfold strings_HasPrefix. rewrite !append_cons. cbn [String.prefix].
    destruct (Ascii.ascii_dec "." "."); [|done].
    destruct (Ascii.ascii_dec "/" c3); [by subst|done].
Qed.

(** A relative path that starts with [..] is [..] or starts with [../]. *)
Lemma join_path_goes_up (rest : list string) :
  String.eqb (join_path (".." :: rest)) ".." = true
  \/ strings_HasPrefix (join_path (".." :: rest)) "../" = true.
Proof.
  rewrite join_path_cons. destruct (tail_text_head rest) as [->|[s ->]].
  - by left.
  - right. unfold strings_HasPrefix. rewrite !append_cons.
    change ("" +:+ String "/" s) with (String "/" s). cbn [String.prefix].
    repeat (destruct (Ascii.ascii_dec _ _); [|done]). by destruct s.
Qed.

Lemma tilde_proper : proper "~".
Proof. split; [done..|]. unfold no_slash. cbn. repeat constructor; done. Qed.

Lemma filepath_Join_tilde (W : list string) :
  Forall proper W -> W <> [] ->
  filepath_Join ["~"; join_path W] = render_path false ("~" :: W).
Proof.
  intros HW Hne. destruct W as [|w ws]; [done|].
  assert (Hw : w <> "") by (apply Forall_cons in HW as [[] _]; done).
  unfold filepath_Join. cbn [List.filter String.eqb negb].
  pose proof (join_path_nonempty w ws Hw) as Hj. apply String.eqb_neq in Hj.
  rewrite Hj. cbn [negb].
  assert (Hs : join_path ["~"; join_path (w :: ws)] = join_path ("~" :: w :: ws)).
  { rewrite (join_path_cons "~" (w :: ws)), (join_path_cons "~" [join_path (w :: ws)]).
    change (tail_text (w :: ws)) with ("/" +:+ w +:+ tail_text ws).
    change (tail_text [join_path (w :: ws)]) with ("/" +:+ join_path (w :: ws) +:+ "").
    by rewrite (join_path_cons w ws), append_nil_r. }
  rewrite Hs. unfold filepath_Clean, path_elems.
  assert (Hall : Forall proper ("~" :: w :: ws)) by (constructor; [apply tilde_proper|done]).
  assert (Habs : filepath_IsAbs (join_path ("~" :: w :: ws)) = false).
  { by rewrite join_path_cons. }
  rewrite Habs, split_path_join; [|by apply Forall_proper_no_slash|done].
  change ("" +:+ "~") with "~". by rewrite clean_elems_proper.
Qed.

Lemma os_MkdirAll_home (os : OS) (path : string) : home (os_MkdirAll os path).2 = home os.
Proof. destruct (os_MkdirAll_keeps os path) as [made ->]. done. Qed.

Lemma GetWorkspaceDir_home (os : OS) : home (GetWorkspaceDir os).2 = home os.
Proof.
  unfold GetWorkspaceDir.
  destruct (if String.eqb (getenv os "FSAK_WS_DIR") "" then _ else _) as [w|]; [|done].
  pose proof (os_MkdirAll_home os w) as Hh.
  by destruct (os_MkdirAll os w) as [[e|] os1].
Qed.

Lemma default_elems_proper : Forall proper [".local"; "share"; "fsak"].
Proof.
  repeat constructor; try done; unfold no_slash; cbn; repeat constructor; done.
Qed.

Lemma default_workspace (H : list string) :
  Forall proper H ->
  filepath_Join [render_path true H; ".local"; "share"; "fsak"]
  = render_path true (H ++ [".local"; "share"; "fsak"]).
Proof.
  intros HH.
  pose proof default_elems_proper as Hrest.
  rewrite <- (filepath_Join_below H [".local"; "share"; "fsak"]) by done.
  unfold filepath_Join. cbn [List.filter String.eqb negb].
  replace (String.eqb (render_path true H) "") with false by reflexivity.
  cbn [negb join_path fold_left]. by rewrite !append_assoc.
Qed.

(** X21.  [main] shows the workspace directory with the home directory written
    as a tilde exactly when the workspace lies under the home directory: the
    default workspace is shown as [~/.local/share/fsak], a workspace at a path
    [W] below home as [~/W], and a workspace that is not below home as its
    full path. *)
Theorem main_banner_abbreviates_home (os os' : OS) (wsDir : string) (H : list string) :
  Forall proper H ->
  home os = Ok (render_path true H) ->
  GetWorkspaceDir os = (Ok wsDir, os') ->
  (getenv os "FSAK_WS_DIR" = "" -> main_banner os = (Ok "~/.local/share/fsak", os'))
  /\ (forall W, Forall proper W -> wsDir = render_path true (H ++ W) ->
        main_banner os = (Ok (render_path false ("~" :: W)), os'))
  /\ (forall T, Forall proper T -> wsDir = render_path true T ->
        (forall W, T <> H ++ W) -> main_banner os = (Ok wsDir, os')).
Proof.
  intros HH Hhome Hws.
  pose proof (GetWorkspaceDir_home os) as Hh. rewrite Hws in Hh. cbn [snd] in Hh.
  assert (Hunder : forall W, Forall proper W -> wsDir = render_path true (H ++ W) ->
            main_banner os = (Ok (render_path false ("~" :: W)), os')).
  { intros W HW ->. unfold main_banner. rewrite Hws, Hh, Hhome.
    destruct W as [|w ws].
    - rewrite app_nil_r. unfold filepath_Rel. rewrite String.eqb_refl. done.
    - rewrite filepath_Rel_below by done.
      apply Forall_cons in HW as [Hw Hws'].
      destruct (join_path_stays_below w ws Hw) as [-> ->]. cbn [negb andb].
      rewrite filepath_Join_tilde; [done|by constructor|done]. }
  split; [|split; [exact Hunder|]].
  - intros Henv.
    assert (wsDir = render_path true (H ++ [".local"; "share"; "fsak"])) as Hdef.
    { revert Hws. unfold GetWorkspaceDir. rewrite Henv, Hhome. cbn [String.eqb].
      destruct (os_MkdirAll os _) as [[e|] os1]; [done|]. intros [= <- _].
      by apply default_workspace. }
    by rewrite (Hunder [".local"; "share"; "fsak"] default_elems_proper Hdef).
  - intros T HT -> Hout. unfold main_banner. rewrite Hws, Hh, Hhome.
    assert (T <> H) as Hne by (intros ->; by apply (Hout []); rewrite app_nil_r).
    rewrite filepath_Rel_rooted by done.
    destruct (drop_common H T) as [b t] eqn:Hd. cbn [fst snd].
    apply drop_common_split in Hd as (c & -> & -> & _).
    destruct b as [|x b'].
    { exfalso. apply (Hout t). by rewrite app_nil_r. }
    cbn [fmap list_fmap app].
    destruct (join_path_goes_up (((fun _ => "..") <$> b') ++ t)) as [-> | ->]; [done|].
    by rewrite andb_false_r.
Qed.

Lemma main_banner_abbreviates_home_witness :
  (main_banner sample_os_home).1 = Ok "~/.local/share/fsak".
Proof.
  destruct (main_banner_abbreviates_home sample_os_home (GetWorkspaceDir sample_os_home).2
              "/home/u/.local/share/fsak" ["home"; "u"]) as (H1 & _).
  - literal_proper.
  - reflexivity.
  - vm_compute. reflexivity.
  - rewrite H1; reflexivity.
Defined.

(** ** Dirty files *)

(** X22.  The labels of the seven dirty file types decode back to the types:
    [handleDirtyFiles] takes all seven types when nothing is ticked and, for a
    list of ticked labels that is not empty, exactly the types ticked, in the
    order ticked.  [Unknown] is the label of the values that are none of the
    seven types, and of no type of the seven. *)
Theorem selected_types_decodes_the_labels :
  selected_types [] = allDirtyTypes
  /\ (forall types, types <> [] -> Forall (fun t => t ∈ allDirtyTypes) types ->
        selected_types (DirtyFileType_String <$> types) = types)
  /\ (forall d, DirtyFileType_String d = "Unknown" <-> d ∉ allDirtyTypes).
Proof.
  split; [done|]. split.
  - intros types Hne Hall. unfold selected_types.
    destruct (DirtyFileType_String <$> types) eqn:Hmap; [by destruct types|].
    rewrite <- Hmap. clear Hmap Hne.
    induction Hall as [|t types Ht _ IH]; [done|].
    rewrite fmap_cons. cbn [omap list_omap]. rewrite IH.
    assert (List.find (fun dirtyType =>
                         String.eqb (DirtyFileType_String dirtyType) (DirtyFileType_String t))
                      allDirtyTypes = Some t) as ->; [|done].
    unfold allDirtyTypes in Ht. rewrite !elem_of_cons in Ht.
    destruct Ht as [->|[->|[->|[->|[->|[->|[->|Ht]]]]]]]; [done..|].
    by apply elem_of_nil in Ht.
  - intros d. unfold allDirtyTypes. rewrite !not_elem_of_cons.
    unfold DirtyFileType_String, EmptyFile, SmallFile, MacHiddenFile, WindowsHiddenFile,
      EmptyFolder, LinuxHiddenFile, OfficeTempFile.
    repeat match goal with |- context [?a =? ?b] => destruct (Z.eqb_spec a b) end;
      split; try discriminate; intros; try lia; repeat split; try done; try lia.
    all: try apply not_elem_of_nil.
Qed.

(** One type of the seven: the lists appended for the other types are
    empty, and the one for this type follows its test. *)
Ltac criterion_case :=
  cbn; rewrite ?andb_true_r, ?andb_false_r, ?orb_false_r;
  repeat match goal with |- context [if ?b then _ else _] => destruct b end;
  reflexivity.

Section DirtyScan.
Context `{UL : UnicodeLib}.
Variable readdir : ReadDir.

Lemma list_if_holds (b : bool) (t0 : DirtyFileType) (path : string)
    (m : gmap Z (list string)) (L : Z -> list string) :
  holds_lists m L ->
  holds_lists (list_if b t0 path m)
              (fun t => L t ++ if b && (t =? t0) then [path] else []).
Proof.
  intros Hm t. unfold list_if, list_under. destruct b; cbn [andb].
  - destruct (Z.eqb_spec t t0) as [->|Hne].
    + rewrite lookup_insert_eq, Hm. destruct (L t0); done.
    + rewrite lookup_insert_ne by done. rewrite app_nil_r. apply Hm.
  - rewrite app_nil_r. apply Hm.
Qed.

Lemma holds_lists_ext (m : gmap Z (list string)) (L L' : Z -> list string) :
  (forall t, L t = L' t) -> holds_lists m L -> holds_lists m L'.
Proof. intros Heq Hm t. rewrite <- Heq. apply Hm. Qed.

Lemma dirty_walk_fn_holds (path : string) (info : result FileStat)
    (m : gmap Z (list string)) (L : Z -> list string) :
  holds_lists m L ->
  (dirty_walk_fn readdir path info m).2 = None
  /\ holds_lists (dirty_walk_fn readdir path info m).1
                 (fun t => L t ++ listed_under readdir t [(path, info)]).
Proof.
  intros Hm. unfold dirty_walk_fn, listed_under. cbn [omap list_omap snd fst].
  destruct info as [info|e].
  2: { split; [done|]. eapply holds_lists_ext; [|exact Hm]. intros t. by rewrite app_nil_r. }
  unfold dirty_criterion. destruct (st_IsDir info).
  - split; [done|]. cbn [fst].
    eapply holds_lists_ext; [|by apply list_if_holds]. intros t. cbn beta. f_equal.
    rewrite andb_comm. by destruct (_ && _).
  - split; [done|]. cbn [fst].
    eapply holds_lists_ext; [|by repeat apply list_if_holds]. intros t. cbn beta.
    rewrite <- !app_assoc. f_equal.
    unfold EmptyFile, SmallFile, MacHiddenFile, WindowsHiddenFile, EmptyFolder,
      LinuxHiddenFile, OfficeTempFile.
    destruct (Z.eqb_spec t 0) as [->|?]; [criterion_case|].
    destruct (Z.eqb_spec t 1) as [->|?]; [criterion_case|].
    destruct (Z.eqb_spec t 5) as [->|?]; [criterion_case|].
    destruct (Z.eqb_spec t 6) as [->|?]; [criterion_case|].
    destruct (Z.eqb_spec t 2) as [->|?]; [criterion_case|].
    destruct (Z.eqb_spec t 3) as [->|?]; [criterion_case|].
    cbn. by rewrite ?andb_false_r.
Qed.

Lemma listed_under_app (t : DirtyFileType) (l1 l2 : list (string * result FileStat)) :
  listed_under readdir t (l1 ++ l2) = listed_under readdir t l1 ++ listed_under readdir t l2.
Proof. apply omap_app. Qed.

Lemma dirty_walk_holds (entries : list (string * result FileStat))
    (m : gmap Z (list string)) (L : Z -> list string) :
  holds_lists m L ->
  (walk_entries (dirty_walk_fn readdir) entries m).2 = None
  /\ holds_lists (walk_entries (dirty_walk_fn readdir) entries m).1
                 (fun t => L t ++ listed_under readdir t entries).
Proof.
  revert m L. induction entries as [|[path info] entries IH]; intros m L Hm.
  - split; [done|]. eapply holds_lists_ext; [|exact Hm]. intros t. by rewrite app_nil_r.
  - cbn [walk_entries].
    destruct (dirty_walk_fn_holds path info m L Hm) as [He Hm1].
    destruct (dirty_walk_fn readdir path info m) as [m1 e]. cbn [fst snd] in *. subst e.
    destruct (IH m1 _ Hm1) as [He2 Hm2]. split; [done|].
    eapply holds_lists_ext; [|exact Hm2]. intros t. cbn beta.
    change ((path, info) :: entries) with ([(path, info)] ++ entries).
    by rewrite listed_under_app, app_assoc.
Qed.

Lemma findDirtyFiles_from_holds (os : OS) (folderPaths : list string)
    (m : gmap Z (list string)) (L : Z -> list string) :
  holds_lists m L ->
  exists dirtyFiles,
    findDirtyFiles_from readdir os folderPaths m = Ok dirtyFiles
    /\ holds_lists dirtyFiles
                   (fun t => L t ++ listed_under readdir t (folderPaths ≫= walk os)).
Proof.
  revert m L. induction folderPaths as [|folderPath rest IH]; intros m L Hm.
  - exists m. split; [done|]. eapply holds_lists_ext; [|exact Hm]. intros t.
    by rewrite app_nil_r.
  - cbn [findDirtyFiles_from]. unfold filepath_Walk.
    destruct (dirty_walk_holds (walk os folderPath) m L Hm) as [He Hm1].
    destruct (walk_entries _ _ m) as [m1 e]. cbn [fst snd] in *. subst e.
    destruct (IH m1 _ Hm1) as (dirtyFiles & Hf & Hd). exists dirtyFiles. split; [done|].
    eapply holds_lists_ext; [|exact Hd]. intros t. cbn beta.
    cbn [mbind list_bind]. by rewrite listed_under_app, app_assoc.
Qed.

(** X23.  [findDirtyFiles] never returns an error, and the map it returns
    holds under each type exactly the walked paths that meet the test of that
    type, in the order of the walks of the folders given, and has no entry for
    a type whose test no path meets; entries of a walk that carry an error are
    passed over. *)
Theorem findDirtyFiles_lists_by_criterion (os : OS) (folderPaths : list string) :
  exists dirtyFiles,
    findDirtyFiles readdir os folderPaths = Ok dirtyFiles
    /\ forall t, dirtyFiles !! t
                 = match listed_under readdir t (folderPaths ≫= walk os) with
                   | [] => None
                   | files => Some files
                   end.
Proof.
  destruct (findDirtyFiles_from_holds os folderPaths ∅ (fun _ => [])) as (d & Hf & Hd).
  { intros t. apply lookup_empty. }
  exists d. split; [exact Hf|]. intros t. apply Hd.
Qed.

(** X24.  For a size that is not negative, [isDirtyFile] holds of an entry
    exactly when [findDirtyFiles] lists the entry under one of the seven
    types; a file named [.DS_Store] is always listed as a hidden file as well,
    and a file of size 0 is never listed as a small file. *)
Theorem isDirtyFile_is_some_criterion (path : string) (info : FileStat) :
  (0 <= st_Size info ->
   isDirtyFile readdir path info
   = existsb (fun t => dirty_criterion readdir t path info) allDirtyTypes)
  /\ (dirty_criterion readdir MacHiddenFile path info = true ->
      dirty_criterion readdir LinuxHiddenFile path info = true)
  /\ (dirty_criterion readdir EmptyFile path info = true ->
      dirty_criterion readdir SmallFile path info = false).
Proof.
  unfold isDirtyFile, dirty_criterion, allDirtyTypes. cbn [existsb].
  unfold EmptyFile, SmallFile, MacHiddenFile, WindowsHiddenFile, EmptyFolder,
    LinuxHiddenFile, OfficeTempFile.
  destruct (st_IsDir info).
  { cbn. split; [intros _; by rewrite orb_false_r|done]. }
  cbn [Z.eqb Pos.eqb andb orb].
  split; [|split].
  - intros Hsize. rewrite ?orb_false_r.
    destruct (Z.eqb_spec (st_Size info) 0) as [H0|H0]; [done|]. cbn [orb].
    assert ((0 <? st_Size info) = true) as -> by (apply Z.ltb_lt; lia). cbn [andb].
    destruct (st_Size info <? 1024); [done|]. cbn [orb].
    destruct (strings_HasPrefix _ "." && _); [by rewrite ?orb_true_r|]. cbn [orb].
    destruct (isOfficeTempFile _); [by rewrite ?orb_true_r|]. cbn [orb].
    destruct (String.eqb _ ".DS_Store"); [by rewrite ?orb_true_r|]. cbn [orb].
    by destruct (String.eqb _ "Thumbs.db").
  - intros Hmac. destruct (String.eqb_spec (filepath_Base path) ".DS_Store") as [->|];
      [done|]. by rewrite ?andb_false_r in Hmac.
  - intros Hempty. destruct (Z.eqb_spec (st_Size info) 0) as [->|]; [done|].
    by rewrite ?andb_false_r in Hempty.
Qed.
End DirtyScan.

(** *** What [handleDirtyFiles] does to the files *)

Lemma failures_app (l1 l2 : list event) : failures (l1 ++ l2) = failures l1 ++ failures l2.
Proof. apply omap_app. Qed.

Lemma display_type_quiet (entry : Z * list string) :
  moves (display_type entry).1 = [] /\ failures (display_type entry).1 = [].
Proof.
  unfold display_type. destruct entry as [t [|file files]]; [done|]. cbn [fst snd].
  generalize (file :: files). intros l. cbn. split.
  - induction l as [|x l IH]; [done|]. by rewrite fmap_cons.
  - induction l as [|x l IH]; [done|]. by rewrite fmap_cons.
Qed.

Lemma display_quiet (shown : list (Z * list string)) :
  moves (concat (display_type <$> shown).*1) = []
  /\ failures (concat (display_type <$> shown).*1) = [].
Proof.
  induction shown as [|entry shown [IH1 IH2]]; [done|].
  rewrite !fmap_cons. cbn [concat]. rewrite moves_app, failures_app, IH1, IH2.
  destruct (display_type_quiet entry) as [-> ->]. done.
Qed.

Lemma filter_types_empty (selectedDirtyTypes : list DirtyFileType) :
  filter_types selectedDirtyTypes ∅ = ∅.
Proof.
  unfold filter_types. generalize (∅ : gmap Z (list string)) at 2 3.
  induction selectedDirtyTypes as [|dt rest IH]; intros m; [done|].
  cbn [fold_left]. rewrite lookup_empty. apply IH.
Qed.

Lemma move_dirty_accounts (fuel : nat) (folderPaths : list string)
    (deleteToDir file : string) (s : Session) (n : Z) :
  let '(ending, s', n') := move_dirty fuel folderPaths deleteToDir file s n in
  match ending with
  | Some (Returns _) => False
  | Some (Panics _) => folderPaths = [] /\ s' = s /\ n' = n
  | Some StillRunning => s' = s /\ n' = n
  | None =>
      exists new, s_log s' = s_log s ++ new
        /\ n' = n + Z.of_nat (length (moves new))
        /\ (length (moves new) + length (failures new) = 1)%nat
  end.
Proof.
  unfold move_dirty. destruct folderPaths as [|first rest]; [done|].
  destruct (match os_Stat (s_os s) file with
            | Ok info => _ | Err _ => _ end) as [destPath|]; [|done].
  destruct (os_MkdirAll (s_os s) _) as [[e|] os1].
  { eexists. split; [done|]. cbn. split; [lia|done]. }
  destruct (os_Rename os1 file destPath) as [[e|] os2].
  { eexists. split; [done|]. cbn. split; [lia|done]. }
  eexists. split; [done|]. cbn. split; [lia|done].
Qed.

Lemma move_all_accounts (fuel : nat) (folderPaths : list string) (deleteToDir : string)
    (files : list string) (s : Session) (n : Z) :
  let '(ending, s', n') := move_all fuel folderPaths deleteToDir files s n in
  (forall err, ending <> Some (Returns err))
  /\ (forall why, ending = Some (Panics why) -> folderPaths = [])
  /\ exists new, s_log s' = s_log s ++ new
       /\ n' = n + Z.of_nat (length (moves new))
       /\ (ending = None ->
           (length (moves new) + length (failures new) = length files)%nat).
Proof.
  revert s n. induction files as [|file rest IH]; intros s n.
  { cbn. split; [done|]. split; [done|]. exists []. rewrite app_nil_r. split; [done|].
    split; [cbn; lia|done]. }
  cbn [move_all]. pose proof (move_dirty_accounts fuel folderPaths deleteToDir file s n) as H1.
  destruct (move_dirty fuel folderPaths deleteToDir file s n) as [[[[e|why|]|] s1] n1].
  - done.
  - destruct H1 as (-> & -> & ->). split; [done|]. split; [done|].
    exists []. rewrite app_nil_r. split; [done|]. split; [cbn; lia|done].
  - destruct H1 as (-> & ->). split; [done|]. split; [done|].
    exists []. rewrite app_nil_r. split; [done|]. split; [cbn; lia|done].
  - destruct H1 as (new1 & Hl1 & Hn1 & Hc1). specialize (IH s1 n1).
    destruct (move_all fuel folderPaths deleteToDir rest s1 n1) as [[ending s2] n2].
    destruct IH as (Hr & Hp & new2 & Hl2 & Hn2 & Hc2).
    split; [done|]. split; [done|]. exists (new1 ++ new2).
    split; [by rewrite Hl2, Hl1, <- app_assoc|].
    rewrite moves_app, failures_app, !length_app. split; [lia|].
    intros He. specialize (Hc2 He). cbn [length]. lia.
Qed.

Section DirtyCommand.
Context `{UL : UnicodeLib}.
Variables (display_order delete_order : RangeOrder) (ui : Selector) (confirm : Confirmer).
Variables (readdir : ReadDir) (fuel : nat) (os : OS) (folderPaths : list string).
Variables (listOnly : bool) (deleteToDir : string).

(** X25.  With [listOnly] set, or when the user does not confirm the deletion,
    [handleDirtyFiles] changes nothing: the files and directories are as
    before and no move is reported. *)
Theorem handleDirtyFiles_lists_without_moving :
  listOnly = true \/ (forall message defaultVal, confirm message defaultVal <> Ok true) ->
  s_os (handleDirtyFiles display_order delete_order ui confirm readdir fuel os
                         folderPaths listOnly deleteToDir).2 = os
  /\ moves (s_log (handleDirtyFiles display_order delete_order ui confirm readdir fuel os
                                    folderPaths listOnly deleteToDir).2) = [].
Proof.
  intros Hquiet. unfold handleDirtyFiles.
  destruct (SelectMultiple ui _ _) as [selectedOptions|]; [|done].
  destruct (selected_types selectedOptions) as [|t ts]; [done|].
  destruct (findDirtyFiles readdir os folderPaths) as [dirtyFiles|]; [|done].
  set (shown := display_order _ (map_to_list (filter_types (t :: ts) dirtyFiles))).
  destruct (display_quiet shown) as [Hm _].
  destruct (foldr Z.add 0 _ =? 0).
  { cbn. by rewrite moves_app, Hm. }
  destruct listOnly.
  { cbn. by rewrite !moves_app, Hm. }
  destruct Hquiet as [?|Hno]; [done|].
  destruct (confirm _ false) as [[|]|] eqn:Hc.
  - by destruct (Hno _ _ Hc).
  - cbn. by rewrite !moves_app, Hm.
  - cbn. by rewrite !moves_app, Hm.
Qed.

(** X26.  When the range over the map visits every entry once,
    [handleDirtyFiles] does not panic on [folderPaths[0]]: with no folder
    given nothing is found, and the command returns before the loop that
    indexes the list. *)
Theorem handleDirtyFiles_indexes_no_empty_list :
  visits_each_once display_order ->
  forall why,
    (handleDirtyFiles display_order delete_order ui confirm readdir fuel os
                      folderPaths listOnly deleteToDir).1 <> Panics why.
Proof.
  intros Hrange why. unfold handleDirtyFiles.
  destruct (SelectMultiple ui _ _) as [selectedOptions|]; [|done].
  destruct (selected_types selectedOptions) as [|t ts]; [done|].
  destruct (findDirtyFiles readdir os folderPaths) as [dirtyFiles|] eqn:Hfind; [|done].
  destruct folderPaths as [|first rest] eqn:Hfolders.
  - injection Hfind as <-. rewrite filter_types_empty, map_to_list_empty.
    pose proof (Hrange _ ([] : list (Z * list string))) as Hnil.
    apply Permutation_nil_r in Hnil. rewrite Hnil. done.
  - destruct (foldr Z.add 0 _ =? 0); [done|].
    destruct listOnly; [done|].
    destruct (confirm _ false) as [[|]|]; [|done..].
    destruct (os_MkdirAll _ deleteToDir) as [[e|] os1]; [done|].
    match goal with
    | |- context [move_all ?f ?fp ?d ?fs ?s ?n] =>
        pose proof (move_all_accounts f fp d fs s n) as Hacc;
        destruct (move_all f fp d fs s n) as [[ending s2] n2]
    end.
    destruct Hacc as (_ & Hp & _). destruct ending as [ending|]; [|done].
    cbn [fst]. intros ->. by specialize (Hp why eq_refl).
Qed.

(** X27.  [handleDirtyFiles] returns an error only before it has moved
    anything: when it returns one, no move is reported, every regular file is
    as before, no directory is gone, and the only directories that can have
    been added are [deleteToDir] and the directories above it (those
    [os.MkdirAll] made before it failed).  The deletion loop itself returns
    no error: when it runs to its end, every file of its list has been either
    moved and counted or reported as a failure. *)
Theorem handleDirtyFiles_fails_before_it_moves :
  (forall err,
      (handleDirtyFiles display_order delete_order ui confirm readdir fuel os
                        folderPaths listOnly deleteToDir).1 = Returns (Some err) ->
      moves (s_log (handleDirtyFiles display_order delete_order ui confirm readdir fuel os
                                     folderPaths listOnly deleteToDir).2) = []
      /\ files (s_os (handleDirtyFiles display_order delete_order ui confirm readdir fuel os
                                       folderPaths listOnly deleteToDir).2) = files os
      /\ dirs os ⊆ dirs (s_os (handleDirtyFiles display_order delete_order ui confirm readdir
                                                fuel os folderPaths listOnly deleteToDir).2)
      /\ (forall d,
            d ∈ dirs (s_os (handleDirtyFiles display_order delete_order ui confirm readdir
                                             fuel os folderPaths listOnly deleteToDir).2) ->
            d ∈ dirs os \/ d ∈ path_and_ancestors (resolve os deleteToDir)))
  /\ (forall files s n s' n',
        move_all fuel folderPaths deleteToDir files s n = (None, s', n') ->
        exists new,
          s_log s' = s_log s ++ new
          /\ n' = n + Z.of_nat (length (moves new))
          /\ (length (moves new) + length (failures new) = length files)%nat).
Proof.
  split.
  - intros err.
    assert (Hsame : forall log,
               moves log = [] ->
               moves log = [] /\ files os = files os /\ dirs os ⊆ dirs os
               /\ (forall d, d ∈ dirs os ->
                      d ∈ dirs os \/ d ∈ path_and_ancestors (resolve os deleteToDir)))
      by (intros log Hlog; repeat split; [done..|by left]).
    unfold handleDirtyFiles.
    destruct (SelectMultiple ui _ _) as [selectedOptions|]; [|by intros _; apply Hsame].
    destruct (selected_types selectedOptions) as [|t ts]; [done|].
    destruct (findDirtyFiles readdir os folderPaths) as [dirtyFiles|];
      [|by intros _; apply Hsame].
    set (shown := display_order _ (map_to_list (filter_types (t :: ts) dirtyFiles))).
    destruct (display_quiet shown) as [Hm _].
    destruct (foldr Z.add 0 _ =? 0); [done|].
    destruct listOnly; [done|].
    destruct (confirm _ false) as [[|]|]; [|done|].
    2: { intros _. cbn. apply Hsame. by rewrite !moves_app, Hm. }
    cbn [s_os s_log told].
    pose proof (os_MkdirAll_files os deleteToDir) as Hf.
    pose proof (os_MkdirAll_dirs os deleteToDir) as Hd.
    pose proof (os_MkdirAll_on_the_way os deleteToDir) as Hw.
    destruct (os_MkdirAll os deleteToDir) as [[e|] os1] eqn:Hmk.
    { intros _. cbn [snd s_os s_log] in *. rewrite !moves_app, Hm. done. }
    match goal with
    | |- context [move_all ?f ?fp ?d ?fs ?s ?n] =>
        pose proof (move_all_accounts f fp d fs s n) as Hacc;
        destruct (move_all f fp d fs s n) as [[ending s2] n2]
    end.
    destruct Hacc as (Hr & _). destruct ending as [ending|]; [|done].
    cbn [fst]. intros ->. by destruct (Hr (Some err)).
  - intros files s n s' n' Hmove.
    pose proof (move_all_accounts fuel folderPaths deleteToDir files s n) as Hacc.
    rewrite Hmove in Hacc. destruct Hacc as (_ & _ & new & Hl & Hn & Hc).
    exists new. split; [done|]. split; [done|]. by apply Hc.
Qed.
End DirtyCommand.

Lemma handleDirtyFiles_lists_without_moving_witness :
  s_os (@handleDirtyFiles no_case_tables in_order in_order tick_all confirm_yes dup_readdir 4
          (dup_os (fun _ => None)) ["/d"] true "/trash").2 = dup_os (fun _ => None)
  /\ moves (s_log (@handleDirtyFiles no_case_tables in_order in_order tick_all confirm_yes
                     dup_readdir 4 (dup_os (fun _ => None)) ["/d"] true "/trash").2) = [].
Proof.
  apply (@handleDirtyFiles_lists_without_moving no_case_tables in_order in_order tick_all
           confirm_yes dup_readdir 4 (dup_os (fun _ => None)) ["/d"] true "/trash").
  left. reflexivity.
Defined.

Lemma handleDirtyFiles_indexes_no_empty_list_witness :
  (@handleDirtyFiles no_case_tables in_order in_order tick_all confirm_yes dup_readdir 4
     (dup_os (fun _ => None)) [] false "/trash").1 = Returns None
  /\ (@handleDirtyFiles no_case_tables in_order in_order tick_all confirm_yes dup_readdir 4
        (dup_os (fun _ => None)) [] false "/trash").1
     <> Panics "index out of range [0] with length 0".
Proof.
  split; [vm_compute; reflexivity|].
  apply (@handleDirtyFiles_indexes_no_empty_list no_case_tables in_order in_order tick_all
           confirm_yes dup_readdir 4 (dup_os (fun _ => None)) [] false "/trash").
  intros A l. reflexivity.
Defined.

(** *** Where a dirty file goes *)

Lemma drop_common_diverge (base rest : list string) (a b : string) :
  a <> b -> drop_common (base ++ [a]) (base ++ b :: rest) = ([a], b :: rest).
Proof.
  intros Hab. induction base as [|x base IH]; cbn.
  - apply String.eqb_neq in Hab. by rewrite Hab.
  - by rewrite String.eqb_refl.
Qed.

Lemma dotdot_no_slash : no_slash "..".
Proof. unfold no_slash. cbn. repeat constructor; discriminate. Qed.

(** [filepath.Join] of a rooted path and a relative path that goes up one
    level: the last element of the rooted path is dropped. *)
Lemma filepath_Join_up (D rest : list string) (b : string) :
  Forall proper D -> proper b -> Forall proper rest ->
  filepath_Join [render_path true D; join_path (".." :: b :: rest)]
  = render_path true (removelast D ++ b :: rest).
Proof.
  intros HD Hb Hrest.
  assert (Hbr : Forall proper (b :: rest)) by (by constructor).
  assert (Hns : Forall no_slash (".." :: b :: rest)).
  { constructor; [apply dotdot_no_slash|by apply Forall_proper_no_slash]. }
  unfold filepath_Join. cbn [List.filter].
  replace (String.eqb (render_path true D) "") with false by reflexivity.
  assert (Hj : String.eqb (join_path (".." :: b :: rest)) "" = false).
  { apply String.eqb_neq, join_path_nonempty. done. }
  rewrite Hj. cbn [negb].
  change (join_path [render_path true D; join_path (".." :: b :: rest)])
    with (render_path true D +:+ String "/" (join_path (".." :: b :: rest))).
  unfold filepath_Clean, path_elems.
  assert (Habs : filepath_IsAbs (render_path true D
                                 +:+ String "/" (join_path (".." :: b :: rest))) = true)
    by apply filepath_IsAbs_slash.
  rewrite Habs, split_path_slash.
  rewrite (split_path_join "" (".." :: b :: rest)) by done.
  change ("" +:+ "..") with "..".
  destruct D as [|d D'].
  - cbn [removelast app]. change (split_path "" (render_path true [])) with [""; ""].
    change (clean_elems true ([""; ""] ++ ".." :: b :: rest) [])
      with (clean_elems true (b :: rest) []).
    by rewrite clean_elems_proper.
  - rewrite split_path_render by done.
    rewrite clean_elems_app.
    change (clean_elems true ("" :: d :: D') []) with (clean_elems true (d :: D') []).
    rewrite (clean_elems_proper true (d :: D') []) by done.
    change (rev [] ++ d :: D') with (d :: D').
    destruct (rev (d :: D')) as [|last out'] eqn:Hrev.
    { apply (f_equal (@length _)) in Hrev. rewrite length_rev in Hrev. done. }
    assert (HD' : d :: D' = rev out' ++ [last]).
    { rewrite <- (rev_involutive (d :: D')), Hrev. done. }
    assert (Hlast : proper last).
    { rewrite HD' in HD. apply Forall_app in HD as [_ HD]. exact (List.Forall_inv HD). }
    change (clean_elems true (".." :: b :: rest) (last :: out'))
      with (if String.eqb last ".."
            then clean_elems true (b :: rest) (".." :: last :: out')
            else clean_elems true (b :: rest) out').
    destruct Hlast as [_ _ Hdd _]. apply String.eqb_neq in Hdd. rewrite Hdd.
    rewrite clean_elems_proper by done. by rewrite HD', removelast_last.
Qed.

(** X28.  The destination of a dirty file is computed against the first folder
    only: a file below the first folder goes to its path relative to that
    folder below [deleteToDir], while a file below a sibling folder, given
    second, gets a relative path that starts with [..] and goes, under
    the sibling's name, into the parent of [deleteToDir]. *)
Theorem dirty_target_is_relative_to_the_first_folder (P rest D : list string) (a b : string) :
  Forall proper P -> proper a -> proper b -> a <> b ->
  Forall proper rest -> rest <> [] -> Forall proper D ->
  dirty_target (render_path true (P ++ [a])) (render_path true D)
               (render_path true (P ++ a :: rest))
  = render_path true (D ++ rest)
  /\ dirty_target (render_path true (P ++ [a])) (render_path true D)
                  (render_path true (P ++ b :: rest))
     = render_path true (removelast D ++ b :: rest).
Proof.
  intros HP Ha Hb Hab Hrest Hne HD.
  assert (Hfirst : Forall proper (P ++ [a])) by (apply Forall_app; split; [done|by constructor]).
  unfold dirty_target. split.
  - replace (P ++ a :: rest) with ((P ++ [a]) ++ rest) by (by rewrite <- app_assoc).
    rewrite filepath_Rel_below by done. by apply filepath_Join_below.
  - rewrite filepath_Rel_rooted.
    + rewrite drop_common_diverge by done. cbn [fst snd fmap list_fmap app].
      by apply filepath_Join_up.
    + done.
    + apply Forall_app. split; [done|by constructor].
    + intros Heq. apply app_inv_head in Heq. injection Heq as Heq _. by destruct Hab.
Qed.

Lemma dirty_target_is_relative_to_the_first_folder_witness :
  dirty_target "/data/photos" "/trash" "/data/photos/x/.DS_Store" = "/trash/x/.DS_Store"
  /\ dirty_target "/data/photos" "/trash" "/data/music/x/.DS_Store"
     = "/music/x/.DS_Store".
Proof.
  apply (dirty_target_is_relative_to_the_first_folder ["data"] ["x"; ".DS_Store"] ["trash"]
           "photos" "music").
  - literal_proper.
  - literal_proper.
  - literal_proper.
  - discriminate.
  - literal_proper.
  - discriminate.
  - literal_proper.
Defined.

(** ** The single hashes *)

(** A copy into one hasher feeds it the whole contents, in order. *)
Lemma io_Copy_hasher (h : Hasher) (size : nat) (f : ReadStream) (s : h_state h) :
  HasherLaws h size ->
  io_Copy (h_write h) s f = (h_write h s (stream_bytes f), stream_error f, stream_reads f).
Proof.
  intros Hlaws.
  assert (Hput : forall (s : h_state h) chunk,
             match chunk with [] => s | _ => h_write h s chunk end = h_write h s chunk).
  { intros s' [|x chunk]; [|done]. by rewrite (write_nil _ _ Hlaws). }
  revert s. induction f as [chunk rest IH|chunk|chunk why]; intros s;
    cbn [io_Copy stream_bytes stream_error stream_reads]; rewrite Hput; [|done..].
  by rewrite IH, (write_app _ _ Hlaws).
Qed.

(** X29.  For hash libraries that keep the contract of [hash.Hash],
    [CalculateMD5] returns what [FileBlake3MD5] returns as the MD5 of the same
    file, or the same error when the open or a read fails; for a file whose
    reads all succeed it is [CalculateMD5String] of the file's contents. *)
Theorem CalculateMD5_agrees_with_the_fingerprint `{HL : HashLib} (os : OS) (path : string) :
  HasherLaws blake3_New32 32 ->
  HasherLaws md5_New 16 ->
  CalculateMD5 os path
  = match FileBlake3MD5 os path with
    | (_, md5Val, None) => Ok md5Val
    | (_, _, Some err) => Err err
    end
  /\ (forall f, os_Open os path = Ok f -> stream_intact f = true ->
        CalculateMD5 os path = Ok (CalculateMD5String (string_of_list_byte (stream_bytes f)))).
Proof.
  intros Hb Hm.
  assert (Hmd5 : forall f, os_Open os path = Ok f ->
            CalculateMD5 os path
            = match stream_error f with
              | Some err => Err err
              | None => Ok (hex_EncodeToString (digest md5_New (stream_bytes f)))
              end).
  { intros f Hf. unfold CalculateMD5. rewrite Hf, (io_Copy_hasher _ _ _ _ Hm).
    by destruct (stream_error f). }
  split.
  - unfold FileBlake3MD5, FileBlake3MD5_ops.
    destruct (os_Open os path) as [f|e] eqn:Hf.
    + rewrite (Hmd5 f eq_refl), (io_Copy_MultiWriter Hb Hm).
      by destruct (stream_error f).
    + unfold CalculateMD5. by rewrite Hf.
  - intros f Hf Hintact. rewrite (Hmd5 f Hf).
    apply stream_error_intact in Hintact. rewrite Hintact.
    unfold CalculateMD5String, bytes_of_string.
    by rewrite list_byte_of_string_of_list_byte.
Qed.

Lemma CalculateMD5_agrees_with_the_fingerprint_witness :
  @CalculateMD5 prefix_hashes two_reads_os "/data/a.txt"
  = Ok "41420000000000000000000000000000"
  /\ @CalculateMD5 prefix_hashes two_reads_os "/data/a.txt"
     = Ok (@CalculateMD5String prefix_hashes "AB").
Proof.
  destruct (@CalculateMD5_agrees_with_the_fingerprint prefix_hashes two_reads_os "/data/a.txt")
    as [H1 H2].
  - apply prefix_hasher_laws.
  - apply prefix_hasher_laws.
  - split; [rewrite H1; vm_compute; reflexivity|].
    apply (H2 (ReadMore [x41] (ReadEOF [x42]))); reflexivity.
Defined.
